(** * JobApplicationFiller: resume parser, CV import, form autofill, site login

    A shallow embedding of the JavaScript sources
    (resumeParser.js, cvUtils.js, the extension's content script generated by
    index.js, and jobApplicationBot.js) together with the properties the
    design document states about them.

    Conventions of the embedding
    - a JavaScript string is a [list ascii]: a sequence of code units below
      256 (the Latin-1 range).  The bullet U+2022 of the skills separator
      class therefore never occurs in a modelled text; the middle dot U+00B7
      does.
    - [null]/[undefined] of a string-valued field is [None]; the content
      script prints the two differently and keeps them apart ([jsfield]).
    - a call that can throw returns an explicit outcome ([outcome],
      [completion], or [None] in the bot's monad).
    - a regular expression literal is a term of [regex]; it is run by the
      backtracking matcher [rmatch], which follows the ECMAScript matching
      order (ordered alternation, greedy and lazy repetition, captures,
      assertions).
    - a JavaScript object used as a dictionary, and a [Map], is a [gmap]. *)

From stdpp Require Import base strings gmap.
From Stdlib Require Import String DecimalString.
From Stdlib Require Import Ascii Bool Arith ZArith Lia List.
Import ListNotations.

Set Implicit Arguments.

(** ** Characters and JavaScript string primitives *)

Abbreviation jsstring := (list ascii).

Definition js (s : string) : jsstring := list_ascii_of_string s.
Arguments js s%_string.

Definition code (c : ascii) : nat := nat_of_ascii c.

Definition in_range (lo hi : nat) (c : ascii) : bool :=
  (lo <=? code c) && (code c <=? hi).

Definition is_upper (c : ascii) : bool := in_range 65 90 c.
Definition is_lower (c : ascii) : bool := in_range 97 122 c.
Definition is_digit (c : ascii) : bool := in_range 48 57 c.
Definition is_alpha (c : ascii) : bool := is_upper c || is_lower c.

(** [\w] *)
Definition is_word (c : ascii) : bool :=
  is_alpha c || is_digit c || (code c =? 95).

(** [\s], also what [trim] strips: TAB, LF, VT, FF, CR, SPACE, NBSP. *)
Definition is_space (c : ascii) : bool :=
  existsb (Nat.eqb (code c)) [9; 10; 11; 12; 13; 32; 160].

(** Line terminators below 256. *)
Definition is_line_terminator (c : ascii) : bool :=
  (code c =? 10) || (code c =? 13).

(** Latin-1 letters with a case pair inside Latin-1. *)
Definition is_latin_upper (c : ascii) : bool :=
  in_range 192 222 c && negb (code c =? 215).
Definition is_latin_lower (c : ascii) : bool :=
  in_range 224 254 c && negb (code c =? 247).

(** [String.prototype.toLowerCase], one code unit. *)
Definition lower_char (c : ascii) : ascii :=
  if is_upper c || is_latin_upper c then ascii_of_nat (code c + 32) else c.

(** Canonicalize of the [i] flag (simple upper-casing).  The code units 181
    and 255 upper-case outside Latin-1 and stay what they are here; no
    pattern of this program holds a character they could be compared to. *)
Definition canon (c : ascii) : ascii :=
  if is_lower c || is_latin_lower c then ascii_of_nat (code c - 32) else c.

Definition toLowerCase (s : jsstring) : jsstring := map lower_char s.

Definition ascii_eqb (a b : ascii) : bool := code a =? code b.

Fixpoint str_eqb (a b : jsstring) : bool :=
  match a, b with
  | [], [] => true
  | x :: a', y :: b' => ascii_eqb x y && str_eqb a' b'
  | _, _ => false
  end.

Fixpoint starts_with (p s : jsstring) : bool :=
  match p, s with
  | [], _ => true
  | x :: p', y :: s' => ascii_eqb x y && starts_with p' s'
  | _ :: _, [] => false
  end.

(** [s.indexOf(p)]: the first position where [p] occurs, [None] for -1. *)
Fixpoint indexOf_from (i : nat) (p s : jsstring) : option nat :=
  if starts_with p s then Some i
  else match s with
       | [] => None
       | _ :: s' => indexOf_from (S i) p s'
       end.

Definition indexOf (s p : jsstring) : option nat := indexOf_from 0 p s.

(** [s.includes(p)] *)
Definition includes (s p : jsstring) : bool :=
  match indexOf s p with Some _ => true | None => false end.

(** [s.substring(a, b)]; the two arguments are swapped when [a > b]. *)
Definition substring (a b : nat) (s : jsstring) : jsstring :=
  let lo := Nat.min a b in
  let hi := Nat.max a b in
  firstn (hi - lo) (skipn lo s).

(** [s.substring(a)] *)
Definition substring_from (a : nat) (s : jsstring) : jsstring := skipn a s.

Fixpoint trim_start (s : jsstring) : jsstring :=
  match s with
  | c :: s' => if is_space c then trim_start s' else s
  | [] => []
  end.

(** [s.trim()] *)
Definition trim (s : jsstring) : jsstring :=
  rev (trim_start (rev (trim_start s))).

(** [s.replace(p, '')] with a string pattern: the first occurrence only. *)
Definition replace_first_empty (s p : jsstring) : jsstring :=
  match indexOf s p with
  | Some i => firstn i s ++ skipn (i + length p) s
  | None => s
  end.

(** [parts.join(sep)] *)
Fixpoint join (sep : jsstring) (parts : list jsstring) : jsstring :=
  match parts with
  | [] => []
  | [p] => p
  | p :: rest => p ++ sep ++ join sep rest
  end.

(** ** Regular expressions *)

Inductive assertion : Type :=
| Bol (multiline : bool)   (* ^ *)
| Eol (multiline : bool)   (* $ *)
| WordB.                   (* \b *)

Inductive regex : Type :=
| Eps
| Chr (p : ascii -> bool)
| Seq (r1 r2 : regex)
| Alt (r1 r2 : regex)
| Star (greedy : bool) (r : regex)
| Group (n : nat) (r : regex)
| Assert (a : assertion).

(** The matcher's position in the subject: the code units already consumed
    (nearest first), the ones still ahead, and the captures set so far. *)
Record mstate : Type := MState {
  before : jsstring;
  after : jsstring;
  caps : list (nat * jsstring)
}.

Definition advance (c : ascii) (a : jsstring) (st : mstate) : mstate :=
  {| before := c :: before st; after := a; caps := caps st |}.

Definition consumed (st0 st1 : mstate) : jsstring :=
  rev (firstn (length (before st1) - length (before st0)) (before st1)).

Definition set_cap (n : nat) (st0 st1 : mstate) : mstate :=
  {| before := before st1; after := after st1;
     caps := (n, consumed st0 st1) :: caps st1 |}.

Fixpoint cap_lookup (n : nat) (l : list (nat * jsstring)) : option jsstring :=
  match l with
  | [] => None
  | (m, w) :: l' => if n =? m then Some w else cap_lookup n l'
  end.

Definition check (a : assertion) (st : mstate) : bool :=
  match a with
  | Bol ml =>
      match before st with
      | [] => true
      | c :: _ => ml && is_line_terminator c
      end
  | Eol ml =>
      match after st with
      | [] => true
      | c :: _ => ml && is_line_terminator c
      end
  | WordB =>
      let l := match before st with c :: _ => is_word c | [] => false end in
      let r := match after st with c :: _ => is_word c | [] => false end in
      xorb l r
  end.

(** Ordered choice: the right operand is tried only when the left fails. *)
Notation "x <|> y" :=
  (match x with Some v => Some v | None => y end)
  (at level 60, right associativity, only parsing).

Section StarLoop.
Variable body : mstate -> (mstate -> option mstate) -> option mstate.
Variable greedy : bool.

(** One repetition must consume input (ECMAScript rejects an empty
    iteration), so at most [length (after st)] iterations exist: the
    counter [n] starts there and never runs out early ([star_loop_fuel]). *)
Fixpoint star_loop (n : nat) (st : mstate) (k : mstate -> option mstate)
  : option mstate :=
  let again (_ : unit) :=
    match n with
    | 0 => None
    | S n' =>
        body st (fun st' =>
          if length (after st') <? length (after st)
          then star_loop n' st' k else None)
    end in
  if greedy then again tt <|> k st else k st <|> again tt.
End StarLoop.

Fixpoint rmatch (r : regex) (st : mstate) (k : mstate -> option mstate)
  {struct r} : option mstate :=
  match r with
  | Eps => k st
  | Chr p =>
      match after st with
      | c :: a => if p c then k (advance c a st) else None
      | [] => None
      end
  | Seq r1 r2 => rmatch r1 st (fun st1 => rmatch r2 st1 k)
  | Alt r1 r2 => rmatch r1 st k <|> rmatch r2 st k
  | Star g r1 => star_loop (rmatch r1) g (length (after st)) st k
  | Group n r1 => rmatch r1 st (fun st1 => k (set_cap n st st1))
  | Assert a => if check a st then k st else None
  end.

(** A successful match as the program sees it. *)
Record jsmatch : Type := JsMatch {
  m_index : nat;            (* match.index *)
  m_text : jsstring;        (* match[0] *)
  m_caps : list (nat * jsstring);
  m_end : nat               (* the regex's lastIndex after the match *)
}.

Definition group (n : nat) (m : jsmatch) : option jsstring :=
  cap_lookup n (m_caps m).

Definition start_state (bef aft : jsstring) : mstate :=
  {| before := bef; after := aft; caps := [] |}.

Definition mk_match (st0 st1 : mstate) : jsmatch :=
  {| m_index := length (before st0);
     m_text := consumed st0 st1;
     m_caps := caps st1;
     m_end := length (before st1) |}.

(** Try every start position from the current one to the end of the text. *)
Fixpoint search (r : regex) (bef aft : jsstring) : option jsmatch :=
  match rmatch r (start_state bef aft) Some with
  | Some st1 => Some (mk_match (start_state bef aft) st1)
  | None =>
      match aft with
      | [] => None
      | c :: aft' => search r (c :: bef) aft'
      end
  end.

(** [text.match(re)] for a regex without the [g] flag. *)
Definition str_match (r : regex) (text : jsstring) : option jsmatch :=
  search r [] text.

(** [re.test(text)] *)
Definition test (r : regex) (text : jsstring) : bool :=
  match str_match r text with Some _ => true | None => false end.

(** [re.exec(text)] for a regex with the [g] flag, started at [lastIndex]. *)
Definition exec_at (r : regex) (text : jsstring) (lastIndex : nat)
  : option jsmatch :=
  if length text <? lastIndex then None
  else search r (rev (firstn lastIndex text)) (skipn lastIndex text).

(** [while ((m = re.exec(text)) !== null) body(m)]: the matches in order.
    A match that does not move [lastIndex] would be found again forever;
    the loop then has no result ([None]). *)
Fixpoint exec_loop (fuel : nat) (r : regex) (text : jsstring) (lastIndex : nat)
  : option (list jsmatch) :=
  match exec_at r text lastIndex with
  | None => Some []
  | Some m =>
      match fuel with
      | 0 => None
      | S fuel' =>
          if lastIndex <? m_end m
          then option_map (cons m) (exec_loop fuel' r text (m_end m))
          else None
      end
  end.

Definition exec_all (r : regex) (text : jsstring) : option (list jsmatch) :=
  exec_loop (S (length text)) r text 0.

(** *** Pattern constructors *)

Definition chr (c : ascii) : regex := Chr (ascii_eqb c).
Definition chr_ci (c : ascii) : regex :=
  Chr (fun x => ascii_eqb (canon x) (canon c)).

Fixpoint seqs (l : list regex) : regex :=
  match l with
  | [] => Eps
  | [r] => r
  | r :: l' => Seq r (seqs l')
  end.

Fixpoint alts (l : list regex) : regex :=
  match l with
  | [] => Chr (fun _ => false)
  | [r] => r
  | r :: l' => Alt r (alts l')
  end.

Definition lit (s : string) : regex := seqs (map chr (js s)).
Definition lit_ci (s : string) : regex := seqs (map chr_ci (js s)).
Arguments lit s%_string.
Arguments lit_ci s%_string.

(** A character class under the [i] flag: a code unit matches when some
    member of the class canonicalizes as it does. *)
Definition uncanon (c : ascii) : ascii :=
  if is_upper c || is_latin_upper c then ascii_of_nat (code c + 32) else c.
Definition ci (p : ascii -> bool) (c : ascii) : bool :=
  p c || p (canon c) || p (uncanon c).

Definition any_char (c : ascii) : bool := true.   (* [\s\S] *)
Definition one_of (s : string) (c : ascii) : bool :=
  existsb (ascii_eqb c) (js s).
Arguments one_of s%_string c.
Definition por (p q : ascii -> bool) (c : ascii) : bool := p c || q c.
Definition pnot (p : ascii -> bool) (c : ascii) : bool := negb (p c).

Definition opt (r : regex) : regex := Alt r Eps.           (* r? *)
Definition plus (r : regex) : regex := Seq r (Star true r). (* r+ *)
Definition lazy_any : regex := Star false (Chr any_char).   (* [\s\S]*? *)

Fixpoint repn (n : nat) (r : regex) : regex :=             (* r{n} *)
  match n with
  | 0 => Eps
  | S n' => Seq r (repn n' r)
  end.

Fixpoint upto (n : nat) (r : regex) : regex :=             (* r{0,n} *)
  match n with
  | 0 => Eps
  | S n' => opt (Seq r (upto n' r))
  end.

Fixpoint upto_lazy (n : nat) (r : regex) : regex :=        (* r{0,n}? *)
  match n with
  | 0 => Eps
  | S n' => Alt Eps (Seq r (upto_lazy n' r))
  end.

Definition rep_range (m n : nat) (r : regex) : regex :=    (* r{m,n} *)
  Seq (repn m r) (upto (n - m) r).
Definition rep_atleast (m : nat) (r : regex) : regex :=    (* r{m,} *)
  Seq (repn m r) (Star true r).


Definition LF : ascii := ascii_of_nat 10.
Definition CR : ascii := ascii_of_nat 13.

Definition digit : regex := Chr is_digit.                  (* \d *)
Definition spaces : regex := Star true (Chr is_space).     (* \s* *)
Definition is_alnum (c : ascii) : bool := is_alpha c || is_digit c.
Definition alpha_space (c : ascii) : bool := is_alpha c || is_space c.

(** [s.split(/[...]/)] for a separator class of single code units. *)
Fixpoint split_on (sep : ascii -> bool) (cur : jsstring) (s : jsstring)
  : list jsstring :=
  match s with
  | [] => [rev cur]
  | c :: s' =>
      if sep c then rev cur :: split_on sep [] s'
      else split_on sep (c :: cur) s'
  end.

Definition split (sep : ascii -> bool) (s : jsstring) : list jsstring :=
  split_on sep [] s.

(** [[...new Set(l)]]: first occurrences, in order. *)
Fixpoint dedup_acc (seen : list jsstring) (l : list jsstring) : list jsstring :=
  match l with
  | [] => []
  | x :: l' =>
      if existsb (str_eqb x) seen then dedup_acc seen l'
      else x :: dedup_acc (x :: seen) l'
  end.

Definition dedup (l : list jsstring) : list jsstring := dedup_acc [] l.

(** ** resumeParser.js *)

Record PersonalInfo : Type := {
  fullName : option jsstring;
  email : option jsstring;
  phone : option jsstring;
  location : option jsstring;
  dateOfBirth : option jsstring
}.

Record EducationEntry : Type := {
  institution : jsstring;
  degree : option jsstring;
  edu_dates : option jsstring;
  gpa : option jsstring
}.

Record ExperienceEntry : Type := {
  company : jsstring;
  title : option jsstring;
  exp_dates : option jsstring;
  description : jsstring
}.

Record LanguageEntry : Type := {
  language : jsstring;
  proficiency : jsstring
}.

Record CertificationEntry : Type := {
  cert_name : jsstring;
  cert_date : option jsstring;
  issuer : option jsstring
}.

Record UserData : Type := {
  personalInfo : PersonalInfo;
  education : list EducationEntry;
  experience : list ExperienceEntry;
  skills : list jsstring;
  languages : list LanguageEntry;
  certifications : list CertificationEntry
}.

(** The parser object: [this.userData] and [this.missingFields]. *)
Record ResumeParser : Type := {
  userData : UserData;
  missingFields : list string
}.

(** The constructor. *)
Definition new_ResumeParser : ResumeParser :=
  {| userData :=
       {| personalInfo :=
            {| fullName := None; email := None; phone := None;
               location := None; dateOfBirth := None |};
          education := []; experience := []; skills := [];
          languages := []; certifications := [] |};
     missingFields := [] |}.

Definition set_personalInfo (f : PersonalInfo -> PersonalInfo) (p : ResumeParser)
  : ResumeParser :=
  let u := userData p in
  {| userData :=
       {| personalInfo := f (personalInfo u); education := education u;
          experience := experience u; skills := skills u;
          languages := languages u; certifications := certifications u |};
     missingFields := missingFields p |}.

Definition push_education (e : EducationEntry) (p : ResumeParser) : ResumeParser :=
  let u := userData p in
  {| userData :=
       {| personalInfo := personalInfo u; education := education u ++ [e];
          experience := experience u; skills := skills u;
          languages := languages u; certifications := certifications u |};
     missingFields := missingFields p |}.

Definition push_experience (e : ExperienceEntry) (p : ResumeParser) : ResumeParser :=
  let u := userData p in
  {| userData :=
       {| personalInfo := personalInfo u; education := education u;
          experience := experience u ++ [e]; skills := skills u;
          languages := languages u; certifications := certifications u |};
     missingFields := missingFields p |}.

Definition set_skills (l : list jsstring) (p : ResumeParser) : ResumeParser :=
  let u := userData p in
  {| userData :=
       {| personalInfo := personalInfo u; education := education u;
          experience := experience u; skills := l;
          languages := languages u; certifications := certifications u |};
     missingFields := missingFields p |}.

Definition push_language (e : LanguageEntry) (p : ResumeParser) : ResumeParser :=
  let u := userData p in
  {| userData :=
       {| personalInfo := personalInfo u; education := education u;
          experience := experience u; skills := skills u;
          languages := languages u ++ [e]; certifications := certifications u |};
     missingFields := missingFields p |}.

Definition push_certification (e : CertificationEntry) (p : ResumeParser)
  : ResumeParser :=
  let u := userData p in
  {| userData :=
       {| personalInfo := personalInfo u; education := education u;
          experience := experience u; skills := skills u;
          languages := languages u; certifications := certifications u ++ [e] |};
     missingFields := missingFields p |}.

Definition push_missing (k : string) (p : ResumeParser) : ResumeParser :=
  {| userData := userData p; missingFields := missingFields p ++ [k] |}.

(** *** extractPersonalInfo *)

(** [/^([A-Z][a-z]+ [A-Z][a-z]+)/m] *)
Definition nameRegex : regex :=
  seqs [Assert (Bol true);
        Group 1 (seqs [Chr is_upper; plus (Chr is_lower); chr " ";
                       Chr is_upper; plus (Chr is_lower)])].

(** [/\b[A-Za-z0-9._%+-]+@[A-Za-z0-9.-]+\.[A-Z|a-z]{2,}\b/] *)
Definition emailRegex : regex :=
  seqs [Assert WordB;
        plus (Chr (por is_alnum (one_of "._%+-")));
        chr "@";
        plus (Chr (por is_alnum (one_of ".-")));
        chr ".";
        rep_atleast 2 (Chr (por is_alpha (one_of "|")));
        Assert WordB].

Definition sep_class : ascii -> bool := por (one_of "-.") is_space.  (* [-.\s] *)

(** [/\b(\+\d{1,3}[-\s]?)?\(?\d{3}\)?[-.\s]?\d{3}[-.\s]?\d{4}\b/] *)
Definition phoneRegex : regex :=
  seqs [Assert WordB;
        opt (Group 1 (seqs [chr "+"; rep_range 1 3 digit;
                            opt (Chr (por (one_of "-") is_space))]));
        opt (chr "("); repn 3 digit; opt (chr ")");
        opt (Chr sep_class); repn 3 digit;
        opt (Chr sep_class); repn 4 digit;
        Assert WordB].

(** [/(?:Address|Location):\s*([^,\n]+,\s*[A-Za-z\s]+(?:,\s*[A-Z]{2})?)|\b([A-Za-z\s]+, [A-Z]{2})\b/i] *)
Definition locationRegex : regex :=
  Alt
    (seqs [alts [lit_ci "Address"; lit_ci "Location"]; chr ":"; spaces;
           Group 1
             (seqs [plus (Chr (pnot (fun c => ascii_eqb c "," || ascii_eqb c LF)));
                    chr ","; spaces;
                    plus (Chr (ci alpha_space));
                    opt (seqs [chr ","; spaces; repn 2 (Chr (ci is_upper))])])])
    (seqs [Assert WordB;
           Group 2 (seqs [plus (Chr (ci alpha_space)); lit ", ";
                          repn 2 (Chr (ci is_upper))]);
           Assert WordB]).

(** [/(?:Date of Birth|DOB|Born):\s*(\d{1,2}[-/]\d{1,2}[-/]\d{2,4})/i] *)
Definition dobRegex : regex :=
  seqs [alts [lit_ci "Date of Birth"; lit_ci "DOB"; lit_ci "Born"];
        chr ":"; spaces;
        Group 1 (seqs [rep_range 1 2 digit; Chr (one_of "-/");
                       rep_range 1 2 digit; Chr (one_of "-/");
                       rep_range 2 4 digit])].

(** [a || b] on optional strings: the empty string is falsy. *)
Definition js_or (a b : option jsstring) : option jsstring :=
  match a with
  | Some (_ :: _) => a
  | _ => b
  end.

Definition extractPersonalInfo (text : jsstring) (p : ResumeParser) : ResumeParser :=
  let p :=
    match str_match nameRegex text with
    | Some m =>
        set_personalInfo (fun i =>
          {| fullName := group 1 m; email := email i; phone := phone i;
             location := location i; dateOfBirth := dateOfBirth i |}) p
    | None => p
    end in
  let p :=
    match str_match emailRegex text with
    | Some m =>
        set_personalInfo (fun i =>
          {| fullName := fullName i; email := Some (m_text m); phone := phone i;
             location := location i; dateOfBirth := dateOfBirth i |}) p
    | None => p
    end in
  let p :=
    match str_match phoneRegex text with
    | Some m =>
        set_personalInfo (fun i =>
          {| fullName := fullName i; email := email i; phone := Some (m_text m);
             location := location i; dateOfBirth := dateOfBirth i |}) p
    | None => p
    end in
  let p :=
    match str_match locationRegex text with
    | Some m =>
        set_personalInfo (fun i =>
          {| fullName := fullName i; email := email i; phone := phone i;
             location := js_or (group 1 m) (group 2 m);
             dateOfBirth := dateOfBirth i |}) p
    | None => p
    end in
  match str_match dobRegex text with
  | Some m =>
      set_personalInfo (fun i =>
        {| fullName := fullName i; email := email i; phone := phone i;
           location := location i; dateOfBirth := group 1 m |}) p
  | None => p
  end.

(** *** Section capture *)

(** [/(?:O1|O2|...)(?:[\s\S]*?)(?:T1|T2|...|$)/i] *)
Definition section_regex (openers terminators : list string) : regex :=
  seqs [alts (map lit_ci openers); lazy_any;
        alts (map lit_ci terminators ++ [Assert (Eol false)])].

Definition education_openers : list string :=
  ["EDUCATION"; "ACADEMIC BACKGROUND"; "QUALIFICATIONS"]%string.
Definition education_terminators : list string :=
  ["EXPERIENCE"; "EMPLOYMENT"; "WORK"; "SKILLS"]%string.
Definition experience_openers : list string :=
  ["EXPERIENCE"; "EMPLOYMENT"; "WORK HISTORY"; "PROFESSIONAL BACKGROUND"]%string.
Definition experience_terminators : list string :=
  ["EDUCATION"; "SKILLS"; "AWARDS"; "LANGUAGES"]%string.
Definition skills_openers : list string :=
  ["SKILLS"; "TECHNICAL SKILLS"; "CORE COMPETENCIES"]%string.
Definition skills_terminators : list string :=
  ["LANGUAGES"; "EXPERIENCE"; "EDUCATION"; "CERTIFICATIONS"]%string.
Definition languages_openers : list string :=
  ["LANGUAGES"; "LANGUAGE PROFICIENCY"]%string.
Definition languages_terminators : list string :=
  ["SKILLS"; "EXPERIENCE"; "EDUCATION"; "CERTIFICATIONS"]%string.
Definition certifications_openers : list string :=
  ["CERTIFICATIONS"; "CERTIFICATES"; "LICENSES"]%string.
Definition certifications_terminators : list string :=
  ["EDUCATION"; "EXPERIENCE"; "SKILLS"; "LANGUAGES"]%string.

Definition educationSectionRegex : regex :=
  section_regex education_openers education_terminators.
Definition experienceSectionRegex : regex :=
  section_regex experience_openers experience_terminators.
Definition skillsSectionRegex : regex :=
  section_regex skills_openers skills_terminators.
Definition languageSectionRegex : regex :=
  section_regex languages_openers languages_terminators.
Definition certSectionRegex : regex :=
  section_regex certifications_openers certifications_terminators.

(** The text captured for a section: [text.match(re)[0]], if any. *)
Definition capture (r : regex) (text : jsstring) : option jsstring :=
  option_map m_text (str_match r text).

(** *** extractEducation *)

(** [/([A-Za-z\s]+University|College|Institute|School)(?:[\s\S]*?)(?:\d{4})/gi] *)
Definition universityRegex : regex :=
  seqs [Group 1 (alts [Seq (plus (Chr (ci alpha_space))) (lit_ci "University");
                       lit_ci "College"; lit_ci "Institute"; lit_ci "School"]);
        lazy_any; repn 4 digit].

(** [/(?:Bachelor|Master|Ph\.D|MBA|B\.S\.|M\.S\.|B\.A\.|M\.A\.|B\.Eng|M\.Eng|B\.Tech|M\.Tech)[^\n\r]*/i] *)
Definition degreeRegex : regex :=
  seqs [alts (map lit_ci
                ["Bachelor"; "Master"; "Ph.D"; "MBA"; "B.S."; "M.S."; "B.A.";
                 "M.A."; "B.Eng"; "M.Eng"; "B.Tech"; "M.Tech"]%string);
        Star true (Chr (pnot (fun c => ascii_eqb c LF || ascii_eqb c CR)))].

(** [/(?:\d{4}\s*-\s*\d{4}|\d{4}\s*-\s*Present|\d{4})/i] *)
Definition dateRegex : regex :=
  alts [seqs [repn 4 digit; spaces; chr "-"; spaces; repn 4 digit];
        seqs [repn 4 digit; spaces; chr "-"; spaces; lit_ci "Present"];
        repn 4 digit].

Definition gpa_number : regex :=                 (* [0-9](?:\.[0-9]+)? *)
  seqs [digit; opt (Seq (chr ".") (plus digit))].

(** [/GPA:?\s*([0-9](?:\.[0-9]+)?)\s*\/?\s*([0-9](?:\.[0-9]+)?)?/i] *)
Definition gpaRegex : regex :=
  seqs [lit_ci "GPA"; opt (chr ":"); spaces; Group 1 gpa_number;
        spaces; opt (chr "/"); spaces; opt (Group 2 gpa_number)].

(** The context window of a match at [idx]:
    [s.substring(Math.max(0, idx - b), Math.min(s.length, idx + a))]. *)
Definition contextLines (b a : nat) (s : jsstring) (idx : nat) : jsstring :=
  substring (Nat.max 0 (idx - b)) (Nat.min (length s) (idx + a)) s.

(** The entry pushed for one university match. *)
Definition education_entry (eduText : jsstring) (uniMatch : jsmatch)
  : EducationEntry :=
  let ctx := contextLines 100 300 eduText (m_index uniMatch) in
  let degreeMatch := str_match degreeRegex ctx in
  let dateMatch := str_match dateRegex ctx in
  let gpaMatch := str_match gpaRegex ctx in
  {| institution := trim (m_text uniMatch);
     degree := option_map (fun m => trim (m_text m)) degreeMatch;
     edu_dates := option_map (fun m => trim (m_text m)) dateMatch;
     gpa :=
       match gpaMatch with
       | Some m =>
           match group 1 m with
           | Some g1 =>
               Some (g1 ++ match group 2 m with
                           | Some (c :: g2) => js "/" ++ c :: g2
                           | _ => []
                           end)
           | None => None
           end
       | None => None
       end |}.

(** The education entries one pass over [text] pushes; [None] if the
    [exec] loop would not end. *)
Definition education_entries (text : jsstring) : option (list EducationEntry) :=
  match str_match educationSectionRegex text with
  | Some educationSection =>
      let eduText := m_text educationSection in
      option_map (map (education_entry eduText)) (exec_all universityRegex eduText)
  | None => Some []
  end.

Definition extractEducation (text : jsstring) (p : ResumeParser)
  : option ResumeParser :=
  option_map (fun es => fold_left (fun q e => push_education e q) es p)
             (education_entries text).

(** *** extractExperience *)

(** [/([A-Za-z0-9\s,\.]+)(?:[\s\S]*?)(?:\d{4}\s*-\s*(?:\d{4}|Present))/gi] *)
Definition companyRegex : regex :=
  seqs [Group 1 (plus (Chr (ci (por is_alnum (por is_space (one_of ",."))))));
        lazy_any;
        seqs [repn 4 digit; spaces; chr "-"; spaces;
              Alt (repn 4 digit) (lit_ci "Present")]].

Definition is_newline (c : ascii) : bool := ascii_eqb c LF || ascii_eqb c CR.

(** [/(?:[\n\r]|^)([A-Za-z\s]+)(?:[\n\r]|$)/i] *)
Definition titleRegex : regex :=
  seqs [Alt (Chr is_newline) (Assert (Bol false));
        Group 1 (plus (Chr (ci alpha_space)));
        Alt (Chr is_newline) (Assert (Eol false))].

Definition experience_entry (expText : jsstring) (companyMatch : jsmatch)
  : ExperienceEntry :=
  let ctx := contextLines 50 400 expText (m_index companyMatch) in
  let titleMatch := str_match titleRegex ctx in
  let dateMatch := str_match dateRegex ctx in
  let needle :=
    match dateMatch with
    | Some d => m_text d
    | None => match titleMatch with Some t => m_text t | None => [] end
    end in
  let descStart := indexOf ctx needle in
  let description :=
    match descStart with
    | Some i => trim (substring_from (i + 20) ctx)
    | None => []
    end in
  {| company := trim (m_text companyMatch);
     title :=
       match titleMatch with
       | Some t => option_map trim (group 1 t)
       | None => None
       end;
     exp_dates := option_map (fun m => trim (m_text m)) dateMatch;
     description := substring 0 300 description |}.

Definition experience_entries (text : jsstring) : option (list ExperienceEntry) :=
  match str_match experienceSectionRegex text with
  | Some experienceSection =>
      let expText := m_text experienceSection in
      option_map (map (experience_entry expText)) (exec_all companyRegex expText)
  | None => Some []
  end.

Definition extractExperience (text : jsstring) (p : ResumeParser)
  : option ResumeParser :=
  option_map (fun es => fold_left (fun q e => push_experience e q) es p)
             (experience_entries text).

(** *** extractSkills *)

(** [[,•·]]: the bullet is outside the modelled code units. *)
Definition skills_separator (c : ascii) : bool :=
  ascii_eqb c "," || (code c =? 183).

(** [/^(?:LANGUAGES|EXPERIENCE|EDUCATION|CERTIFICATIONS)$/i] *)
Definition headingOnlyRegex : regex :=
  seqs [Assert (Bol false);
        alts (map lit_ci ["LANGUAGES"; "EXPERIENCE"; "EDUCATION"; "CERTIFICATIONS"]%string);
        Assert (Eol false)].

Definition skillsList (skillsText : jsstring) : list jsstring :=
  filter (fun skill => (0 <? length skill) && negb (test headingOnlyRegex skill))
         (map trim (split skills_separator skillsText)).

(** The list assigned to [userData.skills], when a skills section exists. *)
Definition extracted_skills (text : jsstring) : option (list jsstring) :=
  match str_match skillsSectionRegex text with
  | Some skillsSection => Some (dedup (skillsList (m_text skillsSection)))
  | None => None
  end.

Definition extractSkills (text : jsstring) (p : ResumeParser) : ResumeParser :=
  match extracted_skills text with
  | Some l => set_skills l p
  | None => p
  end.

(** *** extractLanguages *)

Definition commonLanguages : list string :=
  ["English"; "Spanish"; "French"; "German"; "Italian"; "Chinese"; "Japanese";
   "Russian"; "Arabic"; "Portuguese"; "Hindi"; "Bengali"; "Urdu"; "Dutch";
   "Turkish"]%string.

(** [(?:fluent|native|professional|beginner|intermediate|advanced|proficient|basic)], flag i *)
Definition proficiencyRegex : regex :=
  alts (map lit_ci ["fluent"; "native"; "professional"; "beginner";
                    "intermediate"; "advanced"; "proficient"; "basic"]%string).

(** [new RegExp(`${language}[\\s\\S]*?(?:fluent|...)`, 'i')] *)
Definition langRegex (lang : string) : regex :=
  seqs [lit_ci lang; lazy_any; proficiencyRegex].

(** [new RegExp(`${language}[\\s\\S]{0,30}(?:fluent|...)`, 'i')] *)
Definition langContextRegex (lang : string) : regex :=
  seqs [lit_ci lang; upto 30 (Chr any_char); proficiencyRegex].

(** What the dedicated-section branch pushes for one language. *)
Definition section_language (langText : jsstring) (lang : string)
  : list LanguageEntry :=
  match str_match (langRegex lang) langText with
  | Some langMatch =>
      [{| language := js lang;
          proficiency := trim (replace_first_empty (m_text langMatch) (js lang)) |}]
  | None =>
      if includes langText (js lang)
      then [{| language := js lang; proficiency := js "Not specified" |}]
      else []
  end.

(** What the whole-document branch pushes for one language. *)
Definition document_language (text : jsstring) (lang : string)
  : list LanguageEntry :=
  if includes text (js lang) then
    match str_match (langContextRegex lang) text with
    | Some langContextMatch =>
        let proficiencyMatch := str_match proficiencyRegex (m_text langContextMatch) in
        [{| language := js lang;
            proficiency :=
              match proficiencyMatch with
              | Some m => trim (m_text m)
              | None => js "Not specified"
              end |}]
    | None => []
    end
  else [].

Definition language_entries (text : jsstring) : list LanguageEntry :=
  match str_match languageSectionRegex text with
  | Some languageSection =>
      flat_map (section_language (m_text languageSection)) commonLanguages
  | None => flat_map (document_language text) commonLanguages
  end.

Definition extractLanguages (text : jsstring) (p : ResumeParser) : ResumeParser :=
  fold_left (fun q e => push_language e q) (language_entries text) p.

(** *** extractCertifications *)

Definition cert_date_alts : regex :=   (* \d{4}|\d{2}\/\d{2}\/\d{4}|\d{2}-\d{2}-\d{4} *)
  alts [repn 4 digit;
        seqs [repn 2 digit; chr "/"; repn 2 digit; chr "/"; repn 4 digit];
        seqs [repn 2 digit; chr "-"; repn 2 digit; chr "-"; repn 4 digit]].

(** [/([A-Za-z\s]+(?:Certification|Certificate|License))(?:[\s\S]*?)(?:\d{4}|\d{2}\/\d{2}\/\d{4}|\d{2}-\d{2}-\d{4})?/gi] *)
Definition certRegex : regex :=
  seqs [Group 1 (Seq (plus (Chr (ci alpha_space)))
                     (alts [lit_ci "Certification"; lit_ci "Certificate";
                            lit_ci "License"]));
        lazy_any; opt cert_date_alts].

(** [/(?:issued by|from|through)\s+([A-Za-z\s]+)/i] *)
Definition issuerRegex : regex :=
  seqs [alts [lit_ci "issued by"; lit_ci "from"; lit_ci "through"];
        plus (Chr is_space);
        Group 1 (plus (Chr (ci alpha_space)))].

(** The entry pushed for one certification match; [certMatch[1]] is set by
    every match of [certRegex]. *)
Definition certification_entry (certText : jsstring) (certMatch : jsmatch)
  : CertificationEntry :=
  let ctx := contextLines 50 200 certText (m_index certMatch) in
  let dateMatch := str_match cert_date_alts ctx in
  let issuerMatch := str_match issuerRegex ctx in
  {| cert_name := trim (match group 1 certMatch with Some g => g | None => [] end);
     cert_date := option_map (fun m => trim (m_text m)) dateMatch;
     issuer :=
       match issuerMatch with
       | Some m => option_map trim (group 1 m)
       | None => None
       end |}.

Definition certification_entries (text : jsstring)
  : option (list CertificationEntry) :=
  match str_match certSectionRegex text with
  | Some certSection =>
      let certText := m_text certSection in
      option_map (map (certification_entry certText)) (exec_all certRegex certText)
  | None => Some []
  end.

Definition extractCertifications (text : jsstring) (p : ResumeParser)
  : option ResumeParser :=
  option_map (fun es => fold_left (fun q e => push_certification e q) es p)
             (certification_entries text).

(** *** extractInformation *)

Definition bind {A B} (x : option A) (f : A -> option B) : option B :=
  match x with Some a => f a | None => None end.

Definition extractInformation (text : jsstring) (p : ResumeParser)
  : option ResumeParser :=
  let p := extractPersonalInfo text p in
  bind (extractEducation text p) (fun p =>
  bind (extractExperience text p) (fun p =>
  let p := extractSkills text p in
  let p := extractLanguages text p in
  extractCertifications text p)).

(** *** JSON.stringify(this.userData) *)

Definition hex_digit (n : nat) : ascii :=
  if n <? 10 then ascii_of_nat (48 + n) else ascii_of_nat (87 + n).

Definition json_escape (c : ascii) : jsstring :=
  let n := code c in
  if n =? 34 then js "\" ++ [c]
  else if n =? 92 then js "\\"
  else if n =? 8 then js "\b"
  else if n =? 12 then js "\f"
  else if n =? 10 then js "\n"
  else if n =? 13 then js "\r"
  else if n =? 9 then js "\t"
  else if n <? 32 then js "\u00" ++ [hex_digit (n / 16); hex_digit (n mod 16)]
  else [c].

Definition DQ : jsstring := [ascii_of_nat 34].

Definition json_string (s : jsstring) : jsstring :=
  DQ ++ flat_map json_escape s ++ DQ.

Definition json_opt (v : option jsstring) : jsstring :=
  match v with
  | Some s => json_string s
  | None => js "null"
  end.

Definition json_member (k : string) (v : jsstring) : jsstring :=
  DQ ++ js k ++ DQ ++ js ":" ++ v.

Definition json_object (members : list jsstring) : jsstring :=
  js "{" ++ join (js ",") members ++ js "}".

Definition json_array (items : list jsstring) : jsstring :=
  js "[" ++ join (js ",") items ++ js "]".

Definition json_personalInfo (i : PersonalInfo) : jsstring :=
  json_object [json_member "fullName" (json_opt (fullName i));
               json_member "email" (json_opt (email i));
               json_member "phone" (json_opt (phone i));
               json_member "location" (json_opt (location i));
               json_member "dateOfBirth" (json_opt (dateOfBirth i))].

Definition json_education (e : EducationEntry) : jsstring :=
  json_object [json_member "institution" (json_string (institution e));
               json_member "degree" (json_opt (degree e));
               json_member "dates" (json_opt (edu_dates e));
               json_member "gpa" (json_opt (gpa e))].

Definition json_experience (e : ExperienceEntry) : jsstring :=
  json_object [json_member "company" (json_string (company e));
               json_member "title" (json_opt (title e));
               json_member "dates" (json_opt (exp_dates e));
               json_member "description" (json_string (description e))].

Definition json_language (e : LanguageEntry) : jsstring :=
  json_object [json_member "language" (json_string (language e));
               json_member "proficiency" (json_string (proficiency e))].

Definition json_certification (e : CertificationEntry) : jsstring :=
  json_object [json_member "name" (json_string (cert_name e));
               json_member "date" (json_opt (cert_date e));
               json_member "issuer" (json_opt (issuer e))].

Definition JSON_stringify (u : UserData) : jsstring :=
  json_object
    [json_member "personalInfo" (json_personalInfo (personalInfo u));
     json_member "education" (json_array (map json_education (education u)));
     json_member "experience" (json_array (map json_experience (experience u)));
     json_member "skills" (json_array (map json_string (skills u)));
     json_member "languages" (json_array (map json_language (languages u)));
     json_member "certifications"
       (json_array (map json_certification (certifications u)))].

(** *** identifyMissingFields *)

(** [!value] for a string-or-null value. *)
Definition falsy (v : option jsstring) : bool :=
  match v with
  | Some (_ :: _) => false
  | _ => true
  end.

(** [Object.entries(this.userData.personalInfo)]: insertion order. *)
Definition personalInfo_entries (i : PersonalInfo)
  : list (string * option jsstring) :=
  [("fullName", fullName i); ("email", email i); ("phone", phone i);
   ("location", location i); ("dateOfBirth", dateOfBirth i)]%string.

(** [/(?:citizen|permanent resident|work authorization|visa)/i] *)
Definition authorizationRegex : regex :=
  alts (map lit_ci ["citizen"; "permanent resident"; "work authorization";
                    "visa"]%string).

(** [/(?:linkedin|github|twitter|facebook|instagram)/i] *)
Definition socialRegex : regex :=
  alts (map lit_ci ["linkedin"; "github"; "twitter"; "facebook";
                    "instagram"]%string).

Definition identifyMissingFields (p : ResumeParser) : ResumeParser :=
  let u := userData p in
  let resumeText := toLowerCase (JSON_stringify u) in
  let p :=
    fold_left (fun q kv => if falsy (snd kv) then push_missing (fst kv) q else q)
              (personalInfo_entries (personalInfo u)) p in
  let p :=
    if length (education u) =? 0 then push_missing "education" p
    else
      let incompleteEducation :=
        filter (fun edu => falsy (degree edu) || falsy (edu_dates edu))
               (education u) in
      if 0 <? length incompleteEducation
      then push_missing "completeEducationDetails" p else p in
  let p :=
    if length (experience u) =? 0 then push_missing "workExperience" p
    else
      let incompleteExperience :=
        filter (fun exp => falsy (title exp) || falsy (exp_dates exp))
               (experience u) in
      if 0 <? length incompleteExperience
      then push_missing "completeWorkExperienceDetails" p else p in
  let p := if length (skills u) =? 0 then push_missing "skills" p else p in
  let p := if length (languages u) =? 0 then push_missing "languages" p else p in
  let p := push_missing "references" p in
  let p :=
    if negb (test authorizationRegex resumeText)
    then push_missing "workAuthorizationStatus" p else p in
  if negb (test socialRegex resumeText)
  then push_missing "socialMediaProfiles" p else p.

(** *** parseResume *)

(** Node's [path.extname] on a POSIX path: from the last dot of the last
    path segment (trailing slashes dropped); empty when that segment has no
    dot, starts with its only dot, or is [..]. *)
Fixpoint drop_trailing_slashes_rev (r : jsstring) : jsstring :=
  match r with
  | c :: r' => if ascii_eqb c "/" then drop_trailing_slashes_rev r' else r
  | [] => []
  end.

Fixpoint take_until_slash (r : jsstring) : jsstring :=
  match r with
  | c :: r' => if ascii_eqb c "/" then [] else c :: take_until_slash r'
  | [] => []
  end.

(** On the reversed last segment: the reversed extension, dot included. *)
Fixpoint ext_rev (r : jsstring) : option jsstring :=
  match r with
  | [] => None
  | c :: r' =>
      if ascii_eqb c "."
      then match r' with [] => None | _ :: _ => Some [c] end
      else option_map (cons c) (ext_rev r')
  end.

Definition extname (path : jsstring) : jsstring :=
  let seg := take_until_slash (drop_trailing_slashes_rev (rev path)) in
  if str_eqb seg (js "..") then []
  else match ext_rev seg with
       | Some e => rev e
       | None => []
       end.

Inductive outcome (E A : Type) : Type :=
| Returned (a : A)
| Thrown (e : E)
| Diverges.
Arguments Returned {E A} a.
Arguments Thrown {E A} e.
Arguments Diverges {E A}.

Section ParseResume.
(** The decoders are external collaborators: what [pdf-parse], [mammoth]
    and [fs.readFileSync] give for a path, a text or an error of theirs. *)
Variable DecodeError : Type.
Variable pdf_text : jsstring -> DecodeError + jsstring.
Variable docx_text : jsstring -> DecodeError + jsstring.
Variable txt_text : jsstring -> DecodeError + jsstring.

Inductive parse_error : Type :=
| UnsupportedFileFormat               (* new Error('Unsupported file format') *)
| DecoderFailed (e : DecodeError).

Inductive decoder : Type := PdfDecoder | DocxDecoder | TxtDecoder.

(** The branch on [fileExt]. *)
Definition select_decoder (filePath : jsstring) : option decoder :=
  let fileExt := toLowerCase (extname filePath) in
  if str_eqb fileExt (js ".pdf") then Some PdfDecoder
  else if str_eqb fileExt (js ".docx") then Some DocxDecoder
  else if str_eqb fileExt (js ".txt") then Some TxtDecoder
  else None.

Definition run_decoder (d : decoder) (filePath : jsstring)
  : DecodeError + jsstring :=
  match d with
  | PdfDecoder => pdf_text filePath
  | DocxDecoder => docx_text filePath
  | TxtDecoder => txt_text filePath
  end.

(** The returned object holds [this.userData] and [this.missingFields]:
    the parser's two fields after the call. *)
Definition parseResume (filePath : jsstring) (p : ResumeParser)
  : outcome parse_error ResumeParser :=
  match select_decoder filePath with
  | None => Thrown UnsupportedFileFormat
  | Some d =>
      match run_decoder d filePath with
      | inl e => Thrown (DecoderFailed e)
      | inr text =>
          match extractInformation text p with
          | Some p' => Returned (identifyMissingFields p')
          | None => Diverges
          end
      end
  end.
End ParseResume.


(** ** cvUtils.js *)

Module CvUtils.

(** The CV JSON object in the application's format: its scalar properties
    are strings, by key (a missing key reads [undefined]); [skills],
    [certifications] and [education] are arrays when present. *)
Record CvData : Type := {
  props : gmap string jsstring;
  cv_skills : option (list jsstring);
  cv_certifications : option (list jsstring);
  cv_education : option (list EducationEntry)
}.

Definition prop (cv : CvData) (k : string) : option jsstring := props cv !! k.

(** Truthiness of a string-or-undefined value. *)
Definition truthy (v : option jsstring) : bool := negb (falsy v).

(** A value inside a template literal. *)
Definition tmpl (v : option jsstring) : jsstring :=
  match v with
  | Some s => s
  | None => js "undefined"
  end.

Record Credentials : Type := {
  username : option jsstring;
  password : jsstring
}.

Record CvPersonalInfo : Type := {
  cv_fullName : jsstring;
  cv_email : option jsstring;
  cv_phone : option jsstring;
  cv_location : jsstring;
  cv_dateOfBirth : option jsstring
}.

Record CvUserData : Type := {
  cvu_personalInfo : CvPersonalInfo;
  cvu_education : list EducationEntry;
  cvu_experience : list ExperienceEntry;
  cvu_skills : list jsstring;
  cvu_languages : list LanguageEntry;
  cvu_certifications : list jsstring;
  workAuthorizationStatus : option jsstring;
  socialMediaProfiles : gmap string jsstring;
  linkedinCredentials : Credentials;
  indeedCredentials : Credentials;
  glassdoorCredentials : Credentials
}.

Definition generateLocation (cv : CvData) : jsstring :=
  join (js ", ")
    (flat_map (fun k => match prop cv k with
                        | Some (c :: s) => [c :: s]
                        | _ => []
                        end)
       ["address1"; "address2"; "city"; "county"; "postcode"; "residence"]%string).

Definition months : list string :=
  ["January"; "February"; "March"; "April"; "May"; "June"; "July"; "August";
   "September"; "October"; "November"; "December"]%string.

Definition digit_value (c : ascii) : option nat :=
  if is_digit c then Some (code c - 48)
  else if in_range 97 102 c then Some (code c - 87)
  else if in_range 65 70 c then Some (code c - 55)
  else None.

(** The longest prefix of digits in [radix], as a number; [None] without a digit. *)
Fixpoint parse_digits (radix : nat) (acc : option Z) (s : jsstring) : option Z :=
  match s with
  | c :: s' =>
      match digit_value c with
      | Some d =>
          if d <? radix
          then parse_digits radix
                 (Some (match acc with Some a => a | None => 0 end * Z.of_nat radix
                        + Z.of_nat d)%Z) s'
          else acc
      | None => acc
      end
  | [] => acc
  end.

(** [parseInt(s)]: leading white space, a sign, a [0x] prefix; [None] is NaN.
    The value is exact; the program only asks whether it is 1..12. *)
Definition parseInt (s : jsstring) : option Z :=
  let s := trim_start s in
  let '(neg, s) :=
    match s with
    | c :: s' =>
        if ascii_eqb c "-" then (true, s')
        else if ascii_eqb c "+" then (false, s') else (false, s)
    | [] => (false, s)
    end in
  let '(radix, s) :=
    match s with
    | z :: x :: s' =>
        if ascii_eqb z "0" && (ascii_eqb x "x" || ascii_eqb x "X")
        then (16, s') else (10, s)
    | _ => (10, s)
    end in
  option_map (fun v => if neg then (- v)%Z else v) (parse_digits radix None s).

(** [months[parseInt(month) - 1]] inside a template literal. *)
Definition month_name (month : jsstring) : jsstring :=
  match parseInt month with
  | Some v =>
      if (1 <=? v)%Z
      then match nth_error months (Z.to_nat (v - 1)) with
           | Some m => js m
           | None => js "undefined"
           end
      else js "undefined"
  | None => js "undefined"
  end.

Definition slash_date : regex :=     (* /\d{2}\/\d{2}\/\d{4}/ *)
  seqs [repn 2 digit; chr "/"; repn 2 digit; chr "/"; repn 4 digit].
Definition dash_date : regex :=      (* /\d{4}-\d{2}/ *)
  seqs [repn 4 digit; chr "-"; repn 2 digit].

Definition formatDisplayDate (dateStr : option jsstring) : jsstring :=
  match dateStr with
  | Some (c :: s) =>
      let d := c :: s in
      if test slash_date d then
        match split (fun x => ascii_eqb x "/") d with
        | _ :: month :: year :: _ => month_name month ++ js " " ++ year
        | _ => d
        end
      else if test dash_date d then
        match split (fun x => ascii_eqb x "-") d with
        | year :: month :: _ => month_name month ++ js " " ++ year
        | _ => d
        end
      else d
  | _ => []
  end.

Definition formatDate (dateStr : option jsstring) : jsstring :=
  match dateStr with
  | Some (c :: s) => c :: s
  | _ => []
  end.

(** [i === 1 ? 'base' : `base${i}`] *)
Definition indexed_key (base : string) (i : nat) : string :=
  if i =? 1 then base
  else String.append base (NilEmpty.string_of_uint (Nat.to_uint i)).

(** The entry the loop pushes in round [i], if any. *)
Definition experience_round (cv : CvData) (i : nat) : list ExperienceEntry :=
  let employer := prop cv (indexed_key "employer_name" i) in
  let role := prop cv (indexed_key "role_title" i) in
  if truthy employer && truthy role then
    [{| company := tmpl employer;
        title := role;
        exp_dates :=
          Some (formatDisplayDate (prop cv (indexed_key "start_date" i))
                ++ js " to "
                ++ formatDisplayDate (prop cv (indexed_key "end_date" i)));
        description :=
          js "Worked as " ++ tmpl role ++ js " at " ++ tmpl employer
          ++ js " in " ++ tmpl (prop cv (indexed_key "country_of_employer" i)) |}]
  else [].

Definition cv_education_entries (cv : CvData) : list EducationEntry :=
  match cv_education cv with
  | Some l => l
  | None =>
      if truthy (prop cv "university") then
        {| institution := tmpl (prop cv "university");
           degree := Some (tmpl (prop cv "degree") ++ js " in "
                           ++ tmpl (prop cv "discipline"));
           edu_dates := Some (formatDate (prop cv "undergrad_start_date")
                              ++ js " to "
                              ++ formatDate (prop cv "undergrad_end_date"));
           gpa := prop cv "degree_score" |}
        :: (if truthy (prop cv "school_name") then
              [{| institution := tmpl (prop cv "school_name");
                  degree := prop cv "school_system";
                  edu_dates := Some (formatDate (prop cv "school_start_date")
                                     ++ js " to "
                                     ++ formatDate (prop cv "school_end_date"));
                  gpa := prop cv "school_grades" |}]
            else [])
      else []
  end.

Definition language_of (cv : CvData) (k : string) (level : string)
  : list LanguageEntry :=
  match prop cv k with
  | Some (c :: s) => [{| language := c :: s; proficiency := js level |}]
  | _ => []
  end.

Definition placeholder_credentials (cv : CvData) : Credentials :=
  {| username := prop cv "email";
     password := match prop cv "password" with
                 | Some (c :: s) => c :: s
                 | _ => js "placeholder"
                 end |}.

Definition convertToUserData (cv : CvData) : CvUserData :=
  {| cvu_personalInfo :=
       {| cv_fullName := tmpl (prop cv "first_name") ++ js " "
                         ++ tmpl (prop cv "last_name");
          cv_email := prop cv "email";
          cv_phone := prop cv "phone";
          cv_location := generateLocation cv;
          cv_dateOfBirth := None |};
     cvu_education := cv_education_entries cv;
     cvu_experience := flat_map (experience_round cv) [1; 2; 3; 4; 5];
     cvu_skills := match cv_skills cv with Some l => l | None => [] end;
     cvu_languages :=
       language_of cv "native_language" "Native"
       ++ language_of cv "fluent_language" "Fluent"
       ++ (if str_eqb (tmpl (prop cv "professional_language")) (js "None")
           then [] else language_of cv "professional_language" "Professional");
     cvu_certifications :=
       match cv_certifications cv with Some l => l | None => [] end;
     workAuthorizationStatus := prop cv "citizenship";
     socialMediaProfiles :=
       match prop cv "linkedin" with
       | Some (c :: s) => {["linkedin"%string := c :: s]}
       | _ => ∅
       end;
     linkedinCredentials := placeholder_credentials cv;
     indeedCredentials := placeholder_credentials cv;
     glassdoorCredentials := placeholder_credentials cv |}.

(** The file system as [importCVJson] uses it: files by path, the
    directories that exist, and the clock's ISO time stamp.  Reading a
    missing file throws; copying, creating a directory and writing succeed. *)
Record FileSystem : Type := {
  files : gmap jsstring jsstring;
  dirs : gset jsstring;
  now_iso : jsstring
}.

Inductive import_error : Type :=
| FileNotFound          (* fs.readFileSync throws *)
| InvalidJson.          (* JSON.parse throws *)

(** What [importCVJson] returns: [{ userData, missingFields }]. *)
Record ImportResult : Type := {
  res_userData : CvUserData;
  res_missingFields : list string
}.

Section ImportCVJson.
(** [JSON.parse] to a CV object and [JSON.stringify(userData, null, 2)]
    belong to the runtime. *)
Variable parse_cv : jsstring -> option CvData.
Variable stringify_cv : CvUserData -> jsstring.

Definition userDataPath : jsstring := js "data/user_data.json".

(** [timestamp.replace(/:/g, '-')] *)
Definition dashed (s : jsstring) : jsstring :=
  map (fun c => if ascii_eqb c ":" then "-"%char else c) s.

Definition importCVJson (jsonFilePath : jsstring) (fs : FileSystem)
  : outcome import_error ImportResult * FileSystem :=
  match files fs !! jsonFilePath with
  | None => (Thrown FileNotFound, fs)
  | Some fileContent =>
      match parse_cv fileContent with
      | None => (Thrown InvalidJson, fs)
      | Some cvData =>
          let userData := convertToUserData cvData in
          let fs :=
            match files fs !! userDataPath with
            | Some old =>
                let backupPath :=
                  js "data/user_data_backup_" ++ dashed (now_iso fs)
                  ++ js ".json" in
                {| files := <[backupPath := old]> (files fs);
                   dirs := dirs fs; now_iso := now_iso fs |}
            | None => fs
            end in
          let fs :=
            {| files := files fs; dirs := dirs fs ∪ {[js "data"]};
               now_iso := now_iso fs |} in
          let fs :=
            {| files := <[userDataPath := stringify_cv userData]> (files fs);
               dirs := dirs fs; now_iso := now_iso fs |} in
          (Returned {| res_userData := userData; res_missingFields := [] |}, fs)
      end
  end.
End ImportCVJson.

End CvUtils.

(** ** The extension's content script (index.js, [contentJs]) *)

Module ContentScript.

(** How a call ends: with a value, or with a thrown error. *)
Inductive completion (A : Type) : Type :=
| Normal (a : A)
| Abrupt.
Arguments Normal {A} a.
Arguments Abrupt {A}.

(** The values [dataset.fieldType] takes in [createFormMappings]. *)
Inductive FieldType : Type :=
| firstName | lastName | fullNameField | emailField | phoneField
| address | city | state | zip | educationField | experienceField | skillsField.

(** An [<option>] of a select. *)
Record SelectOption : Type := {
  opt_value : jsstring;
  opt_text : jsstring
}.

(** What [document.querySelector(`label[for="${input.id}"]`)] does for a
    control.  The id is pasted into the selector as it is: an id that breaks
    the selector (a double quote, a line break) makes the call throw. *)
Inductive LabelQuery : Type :=
| QueryThrows                  (* SyntaxError *)
| NoLabel                      (* null *)
| LabelText (t : jsstring).    (* the label found, by its textContent *)

(** A form control: its attributes, what [findLabelForInput] can see around
    it, and the state the script writes ([value], [dataset], highlight). *)
Record Element : Type := {
  tagName : jsstring;                       (* 'INPUT', 'SELECT', 'TEXTAREA' *)
  el_name : jsstring;                       (* '' when absent *)
  el_id : jsstring;
  el_placeholder : jsstring;
  el_type : jsstring;
  labelFor : LabelQuery;                    (* the query for label[for=id] *)
  enclosingLabel : option jsstring;         (* text of the nearest LABEL ancestor below BODY *)
  previousSibling : option (jsstring * jsstring);  (* tagName, textContent *)
  formAncestors : nat;                      (* how many form elements it is inside of *)
  el_options : list SelectOption;
  el_value : jsstring;
  automationAnalyzed : bool;                (* dataset.automationAnalyzed === 'true' *)
  fieldType : option FieldType;             (* dataset.fieldType, when one of the twelve *)
  highlighted : option bool                 (* highlightField(_, success) *)
}.

(** The page: how many [<form>] elements it has, and its
    [input, select, textarea] elements in document order. *)
Record Document : Type := {
  forms : nat;
  inputs : list Element
}.

(** [null] when no label is found; the call throws when the query does. *)
Definition findLabelForInput (input : Element) : completion (option jsstring) :=
  match (if 0 <? length (el_id input) then labelFor input else NoLabel) with
  | QueryThrows => Abrupt
  | LabelText t => Normal (Some (toLowerCase t))
  | NoLabel =>
      match enclosingLabel input with
      | Some t => Normal (Some (toLowerCase t))
      | None =>
          match previousSibling input with
          | Some (tag, t) =>
              if str_eqb tag (js "LABEL") || str_eqb tag (js "SPAN")
                 || str_eqb tag (js "DIV")
              then Normal (Some (toLowerCase t)) else Normal None
          | None => Normal None
          end
      end
  end.

Section Classify.
Variables (name id placeholder : jsstring) (label : option jsstring)
          (type : jsstring).

(** [name.includes(k) || id.includes(k) || placeholder.includes(k)
     || (label && label.includes(k))] *)
Definition mentions (k : string) : bool :=
  includes name (js k) || includes id (js k) || includes placeholder (js k)
  || match label with Some l => includes l (js k) | None => false end.

(** The [if / else if] chain of [createFormMappings]. *)
Definition classify : option FieldType :=
  if mentions "name" then
    if mentions "first" then Some firstName
    else if mentions "last" then Some lastName
    else Some fullNameField
  else if mentions "email" || str_eqb type (js "email") then Some emailField
  else if mentions "phone" || str_eqb type (js "tel") then Some phoneField
  else if mentions "address" then Some address
  else if mentions "city" then Some city
  else if mentions "state" then Some state
  else if includes name (js "zip") || includes id (js "zip")
          || includes name (js "postal") || includes id (js "postal")
          || includes placeholder (js "zip") || includes placeholder (js "postal")
          || match label with
             | Some l => includes l (js "zip") || includes l (js "postal")
             | None => false
             end
  then Some zip
  else if mentions "education" then Some educationField
  else if mentions "experience" then Some experienceField
  else if mentions "skill" then Some skillsField
  else None.
End Classify.

(** One round of the [forEach] of [createFormMappings]: the type found for
    the input, if any; the round throws when the label lookup does. *)
Definition classify_element (input : Element) : completion (option FieldType) :=
  match findLabelForInput input with
  | Normal label =>
      Normal (classify (toLowerCase (el_name input)) (toLowerCase (el_id input))
                       (toLowerCase (el_placeholder input)) label (el_type input))
  | Abrupt => Abrupt
  end.

Definition with_fieldType (t : option FieldType) (e : Element) : Element :=
  {| tagName := tagName e; el_name := el_name e; el_id := el_id e;
     el_placeholder := el_placeholder e; el_type := el_type e;
     labelFor := labelFor e; enclosingLabel := enclosingLabel e;
     previousSibling := previousSibling e; formAncestors := formAncestors e;
     el_options := el_options e; el_value := el_value e;
     automationAnalyzed := automationAnalyzed e; fieldType := t;
     highlighted := highlighted e |}.

Definition mark_analyzed (e : Element) : Element :=
  {| tagName := tagName e; el_name := el_name e; el_id := el_id e;
     el_placeholder := el_placeholder e; el_type := el_type e;
     labelFor := labelFor e; enclosingLabel := enclosingLabel e;
     previousSibling := previousSibling e; formAncestors := formAncestors e;
     el_options := el_options e; el_value := el_value e;
     automationAnalyzed := true; fieldType := fieldType e;
     highlighted := highlighted e |}.

(** The control once its value is [v] and [highlightField(input, true)] ran. *)
Definition filled (v : jsstring) (e : Element) : Element :=
  {| tagName := tagName e; el_name := el_name e; el_id := el_id e;
     el_placeholder := el_placeholder e; el_type := el_type e;
     labelFor := labelFor e; enclosingLabel := enclosingLabel e;
     previousSibling := previousSibling e; formAncestors := formAncestors e;
     el_options := el_options e; el_value := v;
     automationAnalyzed := automationAnalyzed e; fieldType := fieldType e;
     highlighted := Some true |}.

(** The [forEach] of [createFormMappings] over the inputs still to visit.
    A branch that matches nothing leaves [dataset.fieldType] as it was.  A
    throw ends the loop: that input and every later one stay as they were. *)
Fixpoint classify_each (l : list Element) : list Element * completion unit :=
  match l with
  | [] => ([], Normal tt)
  | e :: l' =>
      match classify_element e with
      | Abrupt => (e :: l', Abrupt)
      | Normal t =>
          let e' := match t with
                    | Some t => with_fieldType (Some t) e
                    | None => e
                    end in
          let '(l'', r) := classify_each l' in
          (e' :: l'', r)
      end
  end.

(** The page afterwards, and whether the call returned or threw. *)
Definition createFormMappings (d : Document) : Document * completion unit :=
  let '(l, r) := classify_each (inputs d) in
  ({| forms := forms d; inputs := l |}, r).

(** What [analyzePage] returns. *)
Inductive AnalyzeResult : Type :=
| Analyzed (formFields : nat)     (* { success: true, formFields } *)
| AnalyzeError.                   (* { success: false, error: error.message } *)

Definition analyzePage (d : Document) : Document * AnalyzeResult :=
  let marked :=
    if 0 <? forms d
    then map (fun e => if 0 <? formAncestors e then mark_analyzed e else e)
             (inputs d)
    else map mark_analyzed (inputs d) in
  let formFields :=
    if 0 <? forms d then list_sum (map formAncestors (inputs d))
    else length (inputs d) in
  match createFormMappings {| forms := forms d; inputs := marked |} with
  | (d', Normal _) => (d', Analyzed formFields)
  | (d', Abrupt) => (d', AnalyzeError)
  end.

(** *** The profile the content script is sent

    [request.userData] comes out of the extension's storage: a property may
    hold a string, hold [null], or be absent. *)
Inductive jsfield : Type :=
| Undefined
| Null
| Text (s : jsstring).

(** A value inside a template literal. *)
Definition tmpl (v : jsfield) : jsstring :=
  match v with
  | Undefined => js "undefined"
  | Null => js "null"
  | Text s => s
  end.

(** The value as [if (value)] lets it through: a string that is not empty. *)
Definition truthy (v : jsfield) : option jsstring :=
  match v with
  | Text (c :: s) => Some (c :: s)
  | _ => None
  end.

Record PersonalView : Type := {
  fullName : jsfield;
  email : jsfield;
  phone : jsfield;
  location : jsfield
}.

Record EducationView : Type := {
  institution : jsfield;
  degree : jsfield;
  edu_dates : jsfield
}.

Record ExperienceView : Type := {
  company : jsfield;
  title : jsfield;
  exp_dates : jsfield;
  description : jsfield
}.

(** [personalInfo] is read without a guard: reading a property of it throws
    when it is absent.  [education], [experience] and [skills] are guarded. *)
Record Profile : Type := {
  personalInfo : option PersonalView;
  education : option (list EducationView);
  experience : option (list ExperienceView);
  skills : option (list jsstring)
}.

Definition is_blank (c : ascii) : bool := ascii_eqb c " ".

(** [userData.personalInfo.f] *)
Definition personal (userData : Profile) (f : PersonalView -> jsfield)
  : completion jsfield :=
  match personalInfo userData with
  | Some info => Normal (f info)
  | None => Abrupt
  end.

(** The [switch (fieldType)] of [autoFillApplication]: the value to fill,
    [None] when it stays [null] (or is [undefined]). *)
Definition computed_value (userData : Profile) (input : Element) (t : FieldType)
  : completion (option jsstring) :=
  match t with
  | firstName =>
      match personal userData fullName with
      | Normal (Text (c :: s)) => Normal (hd_error (split is_blank (c :: s)))
      | Normal _ => Normal None
      | Abrupt => Abrupt
      end
  | lastName =>
      match personal userData fullName with
      | Normal (Text (c :: s)) =>
          Normal (last (map Some (split is_blank (c :: s))) None)
      | Normal _ => Normal None
      | Abrupt => Abrupt
      end
  | fullNameField =>
      match personal userData fullName with
      | Normal v => Normal (truthy v)
      | Abrupt => Abrupt
      end
  | emailField =>
      match personal userData email with
      | Normal v => Normal (truthy v)
      | Abrupt => Abrupt
      end
  | phoneField =>
      match personal userData phone with
      | Normal v => Normal (truthy v)
      | Abrupt => Abrupt
      end
  | address =>
      match personal userData location with
      | Normal v => Normal (truthy v)
      | Abrupt => Abrupt
      end
  | educationField =>
      match education userData with
      | Some (mostRecent :: rest) =>
          if str_eqb (tagName input) (js "TEXTAREA")
          then Normal (Some (join [LF]
                         (map (fun edu => tmpl (institution edu) ++ js ", "
                                          ++ tmpl (degree edu) ++ js ", "
                                          ++ tmpl (edu_dates edu))
                              (mostRecent :: rest))))
          else Normal (Some (tmpl (institution mostRecent) ++ js " - "
                             ++ tmpl (degree mostRecent)))
      | _ => Normal None
      end
  | experienceField =>
      match experience userData with
      | Some (mostRecent :: rest) =>
          if str_eqb (tagName input) (js "TEXTAREA")
          then Normal (Some (join [LF; LF]
                         (map (fun exp => tmpl (company exp) ++ js ", "
                                          ++ tmpl (title exp) ++ js ", "
                                          ++ tmpl (exp_dates exp) ++ [LF]
                                          ++ tmpl (description exp))
                              (mostRecent :: rest))))
          else Normal (Some (tmpl (company mostRecent) ++ js " - "
                             ++ tmpl (title mostRecent)))
      | _ => Normal None
      end
  | skillsField =>
      match skills userData with
      | Some (skill :: rest) => Normal (Some (join (js ", ") (skill :: rest)))
      | _ => Normal None
      end
  | city | state | zip => Normal None
  end.

(** [options.find(opt => opt.text.toLowerCase().includes(value.toLowerCase()))] *)
Definition find_option (value : jsstring) (opts : list SelectOption)
  : option SelectOption :=
  List.find (fun opt => includes (toLowerCase (opt_text opt)) (toLowerCase value))
            opts.

(** What [autoFillApplication] returns. *)
Inductive AutofillResult : Type :=
| Filled (filledFields : nat)     (* { success: true, filledFields } *)
| AutofillError.                  (* { success: false, error: error.message } *)

(** The second loop: file inputs that look like a resume upload are
    highlighted for manual intervention. *)
Definition flag_upload (e : Element) : Element :=
  let name := toLowerCase (el_name e) in
  let id := toLowerCase (el_id e) in
  if str_eqb (tagName e) (js "INPUT") && str_eqb (el_type e) (js "file")
     && (includes name (js "resume") || includes id (js "resume")
         || includes name (js "cv") || includes id (js "cv")
         || includes name (js "document") || includes id (js "document"))
  then
    {| tagName := tagName e; el_name := el_name e; el_id := el_id e;
       el_placeholder := el_placeholder e; el_type := el_type e;
       labelFor := labelFor e; enclosingLabel := enclosingLabel e;
       previousSibling := previousSibling e; formAncestors := formAncestors e;
       el_options := el_options e; el_value := el_value e;
       automationAnalyzed := automationAnalyzed e; fieldType := fieldType e;
       highlighted := Some false |}
  else e.

Section Dom.
(** The browser's setter of [value] on a control that is not a select: the
    value the control holds afterwards (a single-line input drops line
    breaks), or a throw (a file input refuses any value but the empty
    string). *)
Variable set_value : Element -> jsstring -> completion jsstring.

(** One round of the first [forEach]: the element afterwards and whether
    [filledFields] was incremented. *)
Definition fill_one (userData : Profile) (input : Element)
  : completion (Element * bool) :=
  match fieldType input with
  | Some t =>
      match computed_value userData input t with
      | Abrupt => Abrupt
      | Normal (Some (c :: s)) =>
          let value := c :: s in
          if str_eqb (tagName input) (js "SELECT") then
            match find_option value (el_options input) with
            | Some option => Normal (filled (opt_value option) input, true)
            | None => Normal (input, false)
            end
          else
            match set_value input value with
            | Normal v => Normal (filled v input, true)
            | Abrupt => Abrupt
            end
      | Normal _ => Normal (input, false)
      end
  | None => Normal (input, false)
  end.

(** The first [forEach], over the inputs still to visit, [filledFields]
    being the count so far.  Only the analysed inputs are visited.  A throw
    ends the loop: that input and every later one stay as they were. *)
Fixpoint fill_each (userData : Profile) (l : list Element) (filledFields : nat)
  : list Element * completion nat :=
  match l with
  | [] => ([], Normal filledFields)
  | e :: l' =>
      if automationAnalyzed e then
        match fill_one userData e with
        | Abrupt => (e :: l', Abrupt)
        | Normal (e', counted) =>
            let '(l'', r) :=
              fill_each userData l'
                        (if counted then S filledFields else filledFields) in
            (e' :: l'', r)
        end
      else
        let '(l'', r) := fill_each userData l' filledFields in
        (e :: l'', r)
  end.

Definition autoFillApplication (userData : Profile) (d : Document)
  : Document * AutofillResult :=
  match fill_each userData (inputs d) 0 with
  | (l, Normal filledFields) =>
      ({| forms := forms d; inputs := map flag_upload l |},
       Filled filledFields)
  | (l, Abrupt) => ({| forms := forms d; inputs := l |}, AutofillError)
  end.
End Dom.

End ContentScript.

(** ** jobApplicationBot.js *)

Module Bot.

Record Credential : Type := {
  username : jsstring;
  password : jsstring
}.

Record Cookie : Type := {
  cookie_name : jsstring;
  cookie_value : jsstring
}.

(** A value of [loggedInSites]; [None] is [undefined]. *)
Record Session : Type := {
  session_username : option jsstring;
  session_cookie : option Cookie
}.

(** An element handle as [page.$] returns it. *)
Record Handle : Type := {
  handle_id : nat;
  visible : bool                 (* isVisible() *)
}.

(** The page as the bot can observe it. *)
Record Page : Type := {
  url : jsstring;                            (* page.url() *)
  query : jsstring -> option Handle;         (* page.$(selector) *)
  cookies : list Cookie                      (* context.cookies() *)
}.

(** What the bot does to the page. *)
Inductive Action : Type :=
| Goto (u : jsstring)
| Fill (selector value : jsstring)           (* page.fill *)
| FillElement (h : Handle) (value : option jsstring)
                                             (* handle.fill; None is undefined *)
| Click (selector : jsstring)                (* page.click *)
| ClickElement (h : Handle)                  (* handle.click *)
| WaitForLoadState
| WaitForSelector (selector : jsstring).

Definition is_fill (a : Action) : bool :=
  match a with
  | Fill _ _ | FillElement _ _ => true
  | _ => false
  end.

Record BotUserData : Type := {
  linkedinCredentials : option Credential;
  indeedCredentials : option Credential;
  glassdoorCredentials : option Credential;
  genericCredentials : option (gmap jsstring Credential)
}.

(** The bot object, the file its sessions are saved to, and the actions it
    has attempted on the page so far (oldest first). *)
Record BotState : Type := {
  userData : BotUserData;
  page : Page;
  loggedInSites : gmap jsstring Session;
  sessions_file : option (gmap jsstring Session);
  trace : list Action
}.

(** A computation on the bot: its result, or [None] when it throws. *)
Definition M (A : Type) : Type := BotState -> option A * BotState.

Definition ret {A} (a : A) : M A := fun b => (Some a, b).
Definition throw {A} : M A := fun b => (None, b).
Definition mbind {A B} (m : M A) (f : A -> M B) : M B :=
  fun b => match m b with
           | (Some a, b') => f a b'
           | (None, b') => (None, b')
           end.
(** [try { m } catch (error) { return h }] *)
Definition try_catch {A} (m : M A) (h : A) : M A :=
  fun b => match m b with
           | (Some a, b') => (Some a, b')
           | (None, b') => (Some h, b')
           end.

#[export] Instance M_ret : MRet M := @ret.
#[export] Instance M_bind : MBind M := fun A B f m => mbind m f.

(** Selectors hold double quotes. *)
Definition quoted (s : string) : jsstring := DQ ++ js s ++ DQ.
Arguments quoted s%_string.
(** [tag:has-text("txt")] *)
Definition has_text (tag txt : string) : jsstring :=
  js tag ++ js ":has-text(" ++ quoted txt ++ js ")".
(** [tag[attr op "val"]], e.g. [input[name="email"]], [form[action*="login"]] *)
Definition attr_is (tag attr op val : string) : jsstring :=
  js tag ++ js "[" ++ js attr ++ js op ++ quoted val ++ js "]".

Section Driver.
(** The browser is an external collaborator: how the page answers an
    action; [None] when the action throws (a selector that never shows
    up, a navigation error). *)
Variable respond : Action -> Page -> option Page.
(** [new URL(url).hostname]; [None] when the URL does not parse. *)
Variable hostname : jsstring -> option jsstring.

Definition act (a : Action) : M unit :=
  fun b =>
    let logged p :=
      {| userData := userData b; page := p; loggedInSites := loggedInSites b;
         sessions_file := sessions_file b; trace := trace b ++ [a] |} in
    match respond a (page b) with
    | Some p' => (Some tt, logged p')
    | None => (None, logged (page b))
    end.

Definition get {A} (f : BotState -> A) : M A := fun b => (Some (f b), b).

(** [await this.page.$(selector)] *)
Definition page_query (selector : jsstring) : M (option Handle) :=
  get (fun b => query (page b) selector).

(** [this.userData.xCredentials]: reading a field of [undefined] throws. *)
Definition credential (f : BotUserData -> option Credential) : M Credential :=
  fun b => match f (userData b) with
           | Some c => (Some c, b)
           | None => (None, b)
           end.

Definition set_session (domain : jsstring) (s : Session) : M unit :=
  fun b => (Some tt,
            {| userData := userData b; page := page b;
               loggedInSites := <[domain := s]> (loggedInSites b);
               sessions_file := sessions_file b; trace := trace b |}).

(** [saveSessions] writes every entry of [loggedInSites]. *)
Definition saveSessions : M unit :=
  fun b => (Some tt,
            {| userData := userData b; page := page b;
               loggedInSites := loggedInSites b;
               sessions_file := Some (loggedInSites b); trace := trace b |}).

(** [for (selector of l) { e = await page.$(selector); if (e) return true }] *)
Fixpoint any_present (l : list jsstring) : M bool :=
  match l with
  | [] => ret false
  | s :: l' =>
      e ← page_query s;
      match e with
      | Some _ => ret true
      | None => any_present l'
      end
  end.

(** The same with [e && await e.isVisible()]. *)
Fixpoint first_visible (l : list jsstring) : M (option Handle) :=
  match l with
  | [] => ret None
  | s :: l' =>
      e ← page_query s;
      match e with
      | Some h => if visible h then ret (Some h) else first_visible l'
      | None => first_visible l'
      end
  end.

Definition loginSelectors : list jsstring :=
  [has_text "button" "Sign In"; has_text "a" "Sign In";
   has_text "button" "Log In"; has_text "a" "Log In";
   attr_is "form" "action" "*=" "login"; attr_is "form" "action" "*=" "signin";
   attr_is "input" "name" "=" "username";
   attr_is "input" "name" "=" "email" ++ js ":visible";
   attr_is "input" "name" "=" "password" ++ js ":visible"].

Definition checkLoginRequirement : M bool := any_present loginSelectors.

Definition loginIndicators : list jsstring :=
  [has_text "button" "Sign In"; has_text "a" "Sign In";
   has_text "button" "Log In"; has_text "a" "Log In"].

Definition loggedInIndicators : list jsstring :=
  [js "[aria-label=" ++ quoted "Profile" ++ js "]";
   js "[aria-label=" ++ quoted "Account" ++ js "]";
   js ".user-profile"; js ".user-avatar"; js ".profile-menu"].

Definition checkIfStillLoggedIn : M bool :=
  out ← first_visible loginIndicators;
  match out with
  | Some _ => ret false
  | None =>
      inside ← first_visible loggedInIndicators;
      match inside with
      | Some _ => ret true
      | None => ret false
      end
  end.

Definition find_cookie (name : string) (l : list Cookie) : option Cookie :=
  List.find (fun c => str_eqb (cookie_name c) (js name)) l.

(** The tail the three known-site flows share: the logged-in marker, the
    named session cookie, the saved session. *)
Definition finish_known_login (marker : jsstring) (site : string)
           (cookieName : string) (c : Credential) : M bool :=
  isLoggedIn ← page_query marker;
  match isLoggedIn with
  | Some _ =>
      cs ← get (fun b => cookies (page b));
      set_session (js site)
        {| session_username := Some (username c);
           session_cookie := find_cookie cookieName cs |};;
      saveSessions;;
      ret true
  | None => ret false
  end.

Definition submit_button : jsstring := attr_is "button" "type" "=" "submit".

Definition handleLinkedInLogin : M bool :=
  try_catch
    (u ← get (fun b => url (page b));
     (if includes u (js "linkedin.com/login") then ret tt
      else act (Goto (js "https://www.linkedin.com/login")));;
     c ← credential linkedinCredentials;
     act (Fill (js "input#username") (username c));;
     act (Fill (js "input#password") (password c));;
     act (Click submit_button);;
     act WaitForLoadState;;
     finish_known_login (js ".global-nav__me-photo") "linkedin.com" "li_at" c)
    false.

Definition handleIndeedLogin : M bool :=
  try_catch
    (u ← get (fun b => url (page b));
     (if includes u (js "indeed.com/account/login") then ret tt
      else act (Goto (js "https://www.indeed.com/account/login")));;
     c ← credential indeedCredentials;
     act (Fill (attr_is "input" "name" "=" "email") (username c));;
     act (Click submit_button);;
     act (WaitForSelector (attr_is "input" "name" "=" "password"));;
     act (Fill (attr_is "input" "name" "=" "password") (password c));;
     act (Click submit_button);;
     act WaitForLoadState;;
     finish_known_login (js ".gnav-menu") "indeed.com" "JSESSIONID" c)
    false.

Definition handleGlassdoorLogin : M bool :=
  try_catch
    (u ← get (fun b => url (page b));
     (if includes u (js "glassdoor.com/profile/login") then ret tt
      else act (Goto (js "https://www.glassdoor.com/profile/login_input.htm")));;
     c ← credential glassdoorCredentials;
     act (Fill (attr_is "input" "name" "=" "username") (username c));;
     act (Fill (attr_is "input" "name" "=" "password") (password c));;
     act (Click submit_button);;
     act WaitForLoadState;;
     finish_known_login (js "[data-test=" ++ quoted "profilePhoto" ++ js "]")
                        "glassdoor.com" "GSESSIONID" c)
    false.

Definition usernameSelectors : list jsstring :=
  [attr_is "input" "type" "=" "email"; attr_is "input" "name" "=" "email";
   attr_is "input" "id" "=" "email"; attr_is "input" "name" "=" "username";
   attr_is "input" "id" "=" "username"; attr_is "input" "name" "=" "user";
   attr_is "input" "id" "=" "user"].

Definition passwordSelectors : list jsstring :=
  [attr_is "input" "type" "=" "password"; attr_is "input" "name" "=" "password";
   attr_is "input" "id" "=" "password"; attr_is "input" "name" "=" "pwd";
   attr_is "input" "id" "=" "pwd"].

Definition submitSelectors : list jsstring :=
  [attr_is "button" "type" "=" "submit"; attr_is "input" "type" "=" "submit";
   has_text "button" "Sign In"; has_text "button" "Log In";
   has_text "button" "Login"; has_text "a" "Sign In"; has_text "a" "Log In"].

(** The members every object inherits from [Object.prototype]:
    [genericCredentials], parsed from JSON, finds them under their names. *)
Definition inherited_members : list string :=
  ["constructor"; "__proto__"; "hasOwnProperty"; "isPrototypeOf";
   "propertyIsEnumerable"; "toLocaleString"; "toString"; "valueOf";
   "__defineGetter__"; "__defineSetter__"; "__lookupGetter__";
   "__lookupSetter__"]%string.

(** What the flow reads of a truthy [genericCredentials[domain]]: its
    [username] and its [password], both [undefined] on an inherited member. *)
Record Login : Type := {
  login_username : option jsstring;
  login_password : option jsstring
}.

(** [this.userData.genericCredentials && this.userData.genericCredentials[domain]]:
    an entry of the object comes first, then a member it inherits. *)
Definition generic_credential (domain : jsstring) (b : BotState)
  : option Login :=
  match genericCredentials (userData b) with
  | Some m =>
      match m !! domain with
      | Some c => Some {| login_username := Some (username c);
                          login_password := Some (password c) |}
      | None =>
          if existsb (fun k => str_eqb domain (js k)) inherited_members
          then Some {| login_username := None; login_password := None |}
          else None
      end
  | None => None
  end.

(** [handleGenericLogin] after its three searches. *)
Definition generic_flow (domain : jsstring)
           (usernameField passwordField submitButton : option Handle) : M bool :=
  match usernameField, passwordField, submitButton with
  | Some uf, Some pf, Some sb =>
      saved ← get (generic_credential domain);
      match saved with
      | None => ret false
      | Some c =>
          act (FillElement uf (login_username c));;
          act (FillElement pf (login_password c));;
          act (ClickElement sb);;
          act WaitForLoadState;;
          loginFormStillPresent ← checkLoginRequirement;
          match loginFormStillPresent with
          | false =>
              cs ← get (fun b => cookies (page b));
              set_session domain
                {| session_username := login_username c;
                   session_cookie := hd_error cs |};;
              saveSessions;;
              ret true
          | true => ret false
          end
      end
  | _, _, _ => ret false
  end.

Definition handleGenericLogin (domain : jsstring) : M bool :=
  try_catch
    (usernameField ← first_visible usernameSelectors;
     passwordField ← first_visible passwordSelectors;
     submitButton ← first_visible submitSelectors;
     generic_flow domain usernameField passwordField submitButton)
    false.

(** [handleAuthentication(url)], once the host name is known. *)
Definition authenticate (domain : jsstring) : M bool :=
  known ← get (fun b => bool_decide (is_Some (loggedInSites b !! domain)));
  stillIn ← match known with
            | true => checkIfStillLoggedIn
            | false => ret false
            end;
  match stillIn with
  | true => ret true
  | false =>
      if includes domain (js "linkedin") then handleLinkedInLogin
      else if includes domain (js "indeed") then handleIndeedLogin
      else if includes domain (js "glassdoor") then handleGlassdoorLogin
      else handleGenericLogin domain
  end.

Definition handleAuthentication (u : jsstring) : M bool :=
  match hostname u with
  | Some domain => authenticate domain
  | None => throw
  end.
End Driver.
End Bot.

(** ** Declarative reading of the matcher, and static facts about patterns *)

(** [sem r st st']: [r] can match from position [st] to position [st'].
    The matcher only ever answers with such a position ([rmatch_sound]). *)
Inductive sem : regex -> mstate -> mstate -> Prop :=
| sem_Eps st : sem Eps st st
| sem_Chr p c a st :
    after st = c :: a -> p c = true -> sem (Chr p) st (advance c a st)
| sem_Seq r1 r2 st st1 st2 :
    sem r1 st st1 -> sem r2 st1 st2 -> sem (Seq r1 r2) st st2
| sem_AltL r1 r2 st st' : sem r1 st st' -> sem (Alt r1 r2) st st'
| sem_AltR r1 r2 st st' : sem r2 st st' -> sem (Alt r1 r2) st st'
| sem_Star0 g r st : sem (Star g r) st st
| sem_StarS g r st st1 st2 :
    sem r st st1 -> sem (Star g r) st1 st2 -> sem (Star g r) st st2
| sem_Group n r st st1 : sem r st st1 -> sem (Group n r) st (set_cap n st st1)
| sem_Assert a st : check a st = true -> sem (Assert a) st st.

Definition all_chars : list ascii := map ascii_of_nat (seq 0 256).

(** Every code unit of class [p] is in class [q]. *)
Definition subclass (p q : ascii -> bool) : bool :=
  forallb (fun c => implb (p c) (q c)) all_chars.

(** Every match of [r] holds a code unit of class [q]. *)
Fixpoint has_char (q : ascii -> bool) (r : regex) : bool :=
  match r with
  | Chr p => subclass p q
  | Seq r1 r2 => has_char q r1 || has_char q r2
  | Alt r1 r2 => has_char q r1 && has_char q r2
  | Group _ r1 => has_char q r1
  | Eps | Star _ _ | Assert _ => false
  end.

Fixpoint has_group (n : nat) (r : regex) : bool :=
  match r with
  | Group m r1 => (n =? m) || has_group n r1
  | Seq r1 r2 | Alt r1 r2 => has_group n r1 || has_group n r2
  | Star _ r1 => has_group n r1
  | Eps | Chr _ | Assert _ => false
  end.

(** Every match of [r] sets capture [n] to a text holding a code unit of
    class [q]. *)
Fixpoint group_has_char (n : nat) (q : ascii -> bool) (r : regex) : bool :=
  match r with
  | Group m r1 => if n =? m then has_char q r1 else group_has_char n q r1
  | Seq r1 r2 =>
      group_has_char n q r2 || (group_has_char n q r1 && negb (has_group n r2))
  | Alt r1 r2 => group_has_char n q r1 && group_has_char n q r2
  | Eps | Chr _ | Star _ _ | Assert _ => false
  end.

Definition not_space (c : ascii) : bool := negb (is_space c).

(** ** Case-insensitive keywords, read directly on the text *)

Definition eq_ci (x c : ascii) : bool := ascii_eqb (canon x) (canon c).

(** [kw] stands at the head of [s], letter case apart. *)
Fixpoint prefix_ci (kw s : jsstring) : bool :=
  match kw, s with
  | [], _ => true
  | k :: kw', c :: s' => eq_ci c k && prefix_ci kw' s'
  | _ :: _, [] => false
  end.

(** [kw] occurs somewhere in [s], letter case apart. *)
Fixpoint occurs_ci (kw s : jsstring) : bool :=
  prefix_ci kw s ||
  match s with
  | [] => false
  | _ :: s' => occurs_ci kw s'
  end.

(** The first keyword of [kws] standing at the head of [s]. *)
Definition first_prefix_ci (kws : list string) (s : jsstring) : option string :=
  List.find (fun kw => prefix_ci (js kw) s) kws.

(** ** The segmenter, written from the design document

    "Locate a heading anchor matching a kind-specific vocabulary and capture
    all text from that anchor up to the next recognized heading of any other
    kind, or end of document; first match wins."  The closing keyword is
    kept in the capture here, as the program does. *)
Fixpoint scan_close (terminators : list string) (s : jsstring) : jsstring :=
  match first_prefix_ci terminators s with
  | Some t => firstn (length (js t)) s
  | None =>
      match s with
      | [] => []
      | c :: s' => c :: scan_close terminators s'
      end
  end.

Fixpoint segment (openers terminators : list string) (s : jsstring)
  : option jsstring :=
  match first_prefix_ci openers s with
  | Some o =>
      Some (firstn (length (js o)) s
            ++ scan_close terminators (skipn (length (js o)) s))
  | None =>
      match s with
      | [] => None
      | _ :: s' => segment openers terminators s'
      end
  end.

(** A text has a recognized heading when a keyword of some section's
    opening vocabulary occurs in it, letter case apart. *)
Definition all_openers : list string :=
  education_openers ++ experience_openers ++ skills_openers
  ++ languages_openers ++ certifications_openers.

Definition has_heading (text : jsstring) : bool :=
  existsb (fun kw => occurs_ci (js kw) text) all_openers.

(** The lines of a text. *)
Definition lines (s : jsstring) : list jsstring := split is_newline s.

(** ** One pass of extraction, field by field *)

(** The personal fields after a pass: each is the match, when there is one. *)
Definition merged_personalInfo (text : jsstring) (i : PersonalInfo) : PersonalInfo :=
  {| fullName := match str_match nameRegex text with
                 | Some m => group 1 m | None => fullName i end;
     email := match str_match emailRegex text with
              | Some m => Some (m_text m) | None => email i end;
     phone := match str_match phoneRegex text with
              | Some m => Some (m_text m) | None => phone i end;
     location := match str_match locationRegex text with
                 | Some m => js_or (group 1 m) (group 2 m) | None => location i end;
     dateOfBirth := match str_match dobRegex text with
                    | Some m => group 1 m | None => dateOfBirth i end |}.

(** One pass of [extractInformation], field by field. *)
Definition after_pass (text : jsstring) (p : ResumeParser)
           (es : list EducationEntry) (xs : list ExperienceEntry)
           (cs : list CertificationEntry) : ResumeParser :=
  {| userData :=
       {| personalInfo := merged_personalInfo text (personalInfo (userData p));
          education := education (userData p) ++ es;
          experience := experience (userData p) ++ xs;
          skills := match extracted_skills text with
                    | Some l => l
                    | None => skills (userData p)
                    end;
          languages := languages (userData p) ++ language_entries text;
          certifications := certifications (userData p) ++ cs |};
     missingFields := missingFields p |}.

(** ** The entry invariant of the data model *)

(** Every entry has its primary identifying field. *)
Definition has_primary_fields (u : UserData) : Prop :=
  Forall (fun e => institution e <> []) (education u)
  /\ Forall (fun e => company e <> []) (experience u)
  /\ Forall (fun e => language e <> []) (languages u)
  /\ Forall (fun e => cert_name e <> []) (certifications u).

(** ** Sample inputs *)

(** A two-line resume: an education heading and one school. *)
Definition resume_one_school : jsstring :=
  js "EDUCATION" ++ [LF] ++ js "State College 2010".

(** ** Positions and keyword matching, for the equations of the matcher *)

(** The position [n] code units further on. *)
Definition skip (n : nat) (st : mstate) : mstate :=
  {| before := rev (firstn n (after st)) ++ before st;
     after := skipn n (after st);
     caps := caps st |}.

Definition isSome {A} (x : option A) : bool :=
  match x with Some _ => true | None => false end.

(** The first alternative that succeeds, in order. *)
Fixpoint first_success (rs : list regex) (st : mstate)
         (k : mstate -> option mstate) : option mstate :=
  match rs with
  | [] => None
  | r :: rs' => rmatch r st k <|> first_success rs' st k
  end.

(** The first position, from [aft] on, where [k] succeeds. *)
Fixpoint lazy_scan (k : mstate -> option mstate) (cp : list (nat * jsstring))
         (aft bef : jsstring) : option mstate :=
  k {| before := bef; after := aft; caps := cp |}
  <|> match aft with
      | [] => None
      | c :: a => lazy_scan k cp a (c :: bef)
      end.

(** ** The completeness rule table, written from the design document

    Section 4.4: a fixed order of rules, each appending zero or one ticket. *)

Definition ticket_if (b : bool) (k : string) : list string :=
  if b then [k] else [].

Definition is_nil {A} (l : list A) : bool :=
  match l with [] => true | _ :: _ => false end.

Definition authorization_keywords : list string :=
  ["citizen"; "permanent resident"; "work authorization"; "visa"]%string.
Definition social_keywords : list string :=
  ["linkedin"; "github"; "twitter"; "facebook"; "instagram"]%string.

(** A keyword of [kws] appears in the serialized profile (lower-cased, as
    the keywords are). *)
Definition keyword_appears (kws : list string) (u : UserData) : bool :=
  existsb (fun kw => includes (toLowerCase (JSON_stringify u)) (js kw)) kws.

Definition education_incomplete (e : EducationEntry) : bool :=
  falsy (degree e) || falsy (edu_dates e).
Definition experience_incomplete (e : ExperienceEntry) : bool :=
  falsy (title e) || falsy (exp_dates e).

Definition rule_table (u : UserData) : list string :=
  let i := personalInfo u in
  ticket_if (falsy (fullName i)) "fullName"
  ++ ticket_if (falsy (email i)) "email"
  ++ ticket_if (falsy (phone i)) "phone"
  ++ ticket_if (falsy (location i)) "location"
  ++ ticket_if (falsy (dateOfBirth i)) "dateOfBirth"
  ++ (if is_nil (education u) then ["education"%string]
      else ticket_if (existsb education_incomplete (education u))
                     "completeEducationDetails")
  ++ (if is_nil (experience u) then ["workExperience"%string]
      else ticket_if (existsb experience_incomplete (experience u))
                     "completeWorkExperienceDetails")
  ++ ticket_if (is_nil (skills u)) "skills"
  ++ ticket_if (is_nil (languages u)) "languages"
  ++ ["references"%string]
  ++ ticket_if (negb (keyword_appears authorization_keywords u))
               "workAuthorizationStatus"
  ++ ticket_if (negb (keyword_appears social_keywords u)) "socialMediaProfiles".

(** "A Profile with empty skills, empty languages, every other field
    populated, and neither keyword family present." *)
Definition only_skills_and_languages_missing (u : UserData) : Prop :=
  let i := personalInfo u in
  falsy (fullName i) = false /\ falsy (email i) = false
  /\ falsy (phone i) = false /\ falsy (location i) = false
  /\ falsy (dateOfBirth i) = false
  /\ education u <> [] /\ existsb education_incomplete (education u) = false
  /\ experience u <> [] /\ existsb experience_incomplete (experience u) = false
  /\ skills u = [] /\ languages u = []
  /\ keyword_appears authorization_keywords u = false
  /\ keyword_appears social_keywords u = false.

(** A keyword as the rule table spells them: lower-case letters and blanks. *)
Definition lower_keyword (kw : jsstring) : bool :=
  forallb (fun c => is_lower c || ascii_eqb c " ") kw.

(** A complete profile but for skills and languages. *)
Definition profile_without_skills : UserData :=
  {| personalInfo :=
       {| fullName := Some (js "Jane Doe");
          email := Some (js "jane.doe@example.com");
          phone := Some (js "555-123-4567");
          location := Some (js "Paris, France");
          dateOfBirth := Some (js "01/02/1990") |};
     education :=
       [{| institution := js "State College"; degree := Some (js "B.S. Physics");
           edu_dates := Some (js "2008 - 2012"); gpa := None |}];
     experience :=
       [{| company := js "Acme Corp"; title := Some (js "Engineer");
           exp_dates := Some (js "2013 - Present");
           description := js "Built pumps" |}];
     skills := [];
     languages := [];
     certifications := [] |}.

(** ** The five section kinds *)

Inductive section_kind : Type :=
| EducationSection | ExperienceSection | SkillsSection | LanguagesSection
| CertificationsSection.

Definition openers_of (k : section_kind) : list string :=
  match k with
  | EducationSection => education_openers
  | ExperienceSection => experience_openers
  | SkillsSection => skills_openers
  | LanguagesSection => languages_openers
  | CertificationsSection => certifications_openers
  end.

Definition terminators_of (k : section_kind) : list string :=
  match k with
  | EducationSection => education_terminators
  | ExperienceSection => experience_terminators
  | SkillsSection => skills_terminators
  | LanguagesSection => languages_terminators
  | CertificationsSection => certifications_terminators
  end.

(** The pattern each extractor runs to find its section. *)
Definition section_regex_of (k : section_kind) : regex :=
  match k with
  | EducationSection => educationSectionRegex
  | ExperienceSection => experienceSectionRegex
  | SkillsSection => skillsSectionRegex
  | LanguagesSection => languageSectionRegex
  | CertificationsSection => certSectionRegex
  end.

(** [w] is a keyword of [kws], letter case apart. *)
Definition keyword_ci (kws : list string) (w : jsstring) : Prop :=
  exists kw, In kw kws /\ length w = length (js kw) /\ prefix_ci (js kw) w = true.

(** Two sections: education, then experience. *)
Definition resume_two_sections : jsstring :=
  js "EDUCATION" ++ [LF] ++ js "MIT" ++ [LF] ++ js "EXPERIENCE" ++ [LF]
  ++ js "Acme Corp".

(** The closing alternatives, at one position. *)
Definition close_here (ts : list string) (st : mstate) : option mstate :=
  rmatch (alts (map lit_ci ts ++ [Assert (Eol false)])) st Some.

(** A text without any section keyword. *)
Definition plain_note : jsstring := js "Call me on Monday".

(** ** First letters of headings, for the skills filter *)

(** The text starts as one of the skills headings does: SK, TE or CO. *)
Definition skills_head (s : jsstring) : bool :=
  match s with
  | c1 :: c2 :: _ =>
      (eq_ci c1 "S" && eq_ci c2 "K") || (eq_ci c1 "T" && eq_ci c2 "E")
      || (eq_ci c1 "C" && eq_ci c2 "O")
  | _ => false
  end.

(** The text starts as one of the four filtered headings does: LA, EX, ED or CE. *)
Definition filtered_head (s : jsstring) : bool :=
  match s with
  | c1 :: c2 :: _ =>
      (eq_ci c1 "L" && eq_ci c2 "A") || (eq_ci c1 "E" && eq_ci c2 "X")
      || (eq_ci c1 "E" && eq_ci c2 "D") || (eq_ci c1 "C" && eq_ci c2 "E")
  | _ => false
  end.

(** Neither a skills separator nor white space. *)
Definition solid (c : ascii) : bool :=
  negb (skills_separator c) && negb (is_space c).

(** ** Texts from which nothing is extracted *)

(** No personal-info pattern matches and no entry of any kind is found. *)
Definition no_match_no_entry (text : jsstring) : Prop :=
  str_match nameRegex text = None
  /\ str_match emailRegex text = None
  /\ str_match phoneRegex text = None
  /\ str_match locationRegex text = None
  /\ str_match dobRegex text = None
  /\ education_entries text = Some []
  /\ experience_entries text = Some []
  /\ language_entries text = []
  /\ certification_entries text = Some [].

(** Nothing is extracted at all: the text holds no skills section either. *)
Definition nothing_extracted (text : jsstring) : Prop :=
  no_match_no_entry text /\ extracted_skills text = None.

(** A parser holding a populated profile. *)
Definition populated_parser : ResumeParser :=
  {| userData :=
       {| personalInfo := personalInfo profile_without_skills;
          education := education profile_without_skills;
          experience := experience profile_without_skills;
          skills := [js "Go"; js "Rust"];
          languages := [{| language := js "English"; proficiency := js "native" |}];
          certifications := [] |};
     missingFields := [] |}.

(** A text with a skills heading and nothing under it. *)
Definition bare_skills_heading : jsstring := js "SKILLS".

(** ** Sample decoders and CV objects *)

(** [path.extname(filePath).toLowerCase()] *)
Definition fileExt (filePath : jsstring) : jsstring :=
  toLowerCase (extname filePath).

(** Decoders that always give the same text. *)
Definition constant_decoder (text : jsstring) (filePath : jsstring)
  : unit + jsstring := inr text.

(** The CV object with no property at all. *)
Definition empty_cv : CvUtils.CvData :=
  {| CvUtils.props := ∅; CvUtils.cv_skills := None;
     CvUtils.cv_certifications := None; CvUtils.cv_education := None |}.

(** A file system holding one CV file. *)
Definition one_file_fs (path content : jsstring) : CvUtils.FileSystem :=
  {| CvUtils.files := {[path := content]}; CvUtils.dirs := ∅;
     CvUtils.now_iso := js "2024-01-01T00:00:00.000Z" |}.

(** A decoder that always fails. *)
Definition failing_decoder (filePath : jsstring) : unit + jsstring := inl tt.

(** The call stands or falls with [decode]: [result] is the throw of the
    error [decode] gives for the path, or the return of the parse of the
    text it gives. *)
Definition parsed_through {E : Type} (decode : jsstring -> E + jsstring)
           (filePath : jsstring) (p : ResumeParser)
           (result : outcome (parse_error E) ResumeParser) : Prop :=
  match decode filePath with
  | inl e => result = Thrown (DecoderFailed e)
  | inr text =>
      exists p',
        extractInformation text p = Some p'
        /\ result = Returned (identifyMissingFields p')
  end.

(** ** Skipped fields, written from the design document

    "Output: a count of filled fields and the list of skipped descriptors
    with a reason (no value, no matching option)." *)



(** ** The parser's profile, as the content script receives it *)

Definition field (v : option jsstring) : ContentScript.jsfield :=
  match v with
  | Some s => ContentScript.Text s
  | None => ContentScript.Null
  end.

(** Every property is there; what the parser left [null] is [null]. *)
Definition as_received (u : UserData) : ContentScript.Profile :=
  {| ContentScript.personalInfo :=
       Some {| ContentScript.fullName := field (fullName (personalInfo u));
               ContentScript.email := field (email (personalInfo u));
               ContentScript.phone := field (phone (personalInfo u));
               ContentScript.location := field (location (personalInfo u)) |};
     ContentScript.education :=
       Some (map (fun e =>
                    {| ContentScript.institution :=
                         ContentScript.Text (institution e);
                       ContentScript.degree := field (degree e);
                       ContentScript.edu_dates := field (edu_dates e) |})
                 (education u));
     ContentScript.experience :=
       Some (map (fun e =>
                    {| ContentScript.company := ContentScript.Text (company e);
                       ContentScript.title := field (title e);
                       ContentScript.exp_dates := field (exp_dates e);
                       ContentScript.description :=
                         ContentScript.Text (description e) |})
                 (experience u));
     ContentScript.skills := Some (skills u) |}.

(** ** Sample pages *)





(** A text input named "first_name_email". *)
Definition first_name_email_input : ContentScript.Element :=
  {| ContentScript.tagName := js "INPUT";
     ContentScript.el_name := js "first_name_email";
     ContentScript.el_id := [];
     ContentScript.el_placeholder := [];
     ContentScript.el_type := js "text";
     ContentScript.labelFor := ContentScript.NoLabel;
     ContentScript.enclosingLabel := None;
     ContentScript.previousSibling := None;
     ContentScript.formAncestors := 0;
     ContentScript.el_options := [];
     ContentScript.el_value := [];
     ContentScript.automationAnalyzed := false;
     ContentScript.fieldType := None;
     ContentScript.highlighted := None |}.

(** A setter for the sample pages: a file input refuses a value that is not
    empty, every other control takes the value as it is given (no line
    break is assigned on these pages). *)
Definition sample_set_value (e : ContentScript.Element) (v : jsstring)
  : ContentScript.completion jsstring :=
  if str_eqb (ContentScript.tagName e) (js "INPUT")
     && str_eqb (ContentScript.el_type e) (js "file")
     && negb (is_nil v)
  then ContentScript.Abrupt
  else ContentScript.Normal v.

(** ** The page, read without the monad *)

(** The first selector of [l] that resolves to a visible element. *)
Fixpoint visible_in (pg : Bot.Page) (l : list jsstring) : option Bot.Handle :=
  match l with
  | [] => None
  | s :: l' =>
      match Bot.query pg s with
      | Some h => if Bot.visible h then Some h else visible_in pg l'
      | None => visible_in pg l'
      end
  end.

(** What [checkIfStillLoggedIn] answers on a page. *)
Definition still_logged_in (pg : Bot.Page) : bool :=
  match visible_in pg Bot.loginIndicators with
  | Some _ => false
  | None =>
      match visible_in pg Bot.loggedInIndicators with
      | Some _ => true
      | None => false
      end
  end.

(** The domain matches no entry of the registry. *)
Definition unregistered (domain : jsstring) : Prop :=
  includes domain (js "linkedin") = false
  /\ includes domain (js "indeed") = false
  /\ includes domain (js "glassdoor") = false.

(** ** Sample bots *)

(** A page showing a login form field and the avatar of a signed-in user. *)
Definition signed_in_page : Bot.Page :=
  {| Bot.url := js "https://jobs.example.com/posting/1";
     Bot.query := fun s =>
       if str_eqb s (js ".user-avatar")
       then Some {| Bot.handle_id := 1; Bot.visible := true |}
       else if str_eqb s (Bot.attr_is "input" "name" "=" "username")
       then Some {| Bot.handle_id := 2; Bot.visible := false |}
       else None;
     Bot.cookies := [] |}.

Definition no_credentials : Bot.BotUserData :=
  {| Bot.linkedinCredentials := None; Bot.indeedCredentials := None;
     Bot.glassdoorCredentials := None; Bot.genericCredentials := None |}.

(** A bot that holds a saved session for jobs.example.com and no credential. *)
Definition bot_with_session : Bot.BotState :=
  {| Bot.userData := no_credentials;
     Bot.page := signed_in_page;
     Bot.loggedInSites :=
       {[ js "jobs.example.com" :=
            {| Bot.session_username := Some (js "jane");
               Bot.session_cookie := None |} ]};
     Bot.sessions_file := None;
     Bot.trace := [] |}.

(** The same bot without the saved session. *)
Definition bot_without_session : Bot.BotState :=
  {| Bot.userData := no_credentials;
     Bot.page := signed_in_page;
     Bot.loggedInSites := ∅;
     Bot.sessions_file := None;
     Bot.trace := [] |}.

(** A browser in which every action throws. *)
Definition dead_browser (a : Bot.Action) (pg : Bot.Page) : option Bot.Page := None.

(** A page showing a complete login form: an email field, a password field
    and a submit button, all visible. *)
Definition login_form_page : Bot.Page :=
  {| Bot.url := js "https://jobs.example.com/login";
     Bot.query := fun s =>
       if str_eqb s (Bot.attr_is "input" "type" "=" "email")
       then Some {| Bot.handle_id := 1; Bot.visible := true |}
       else if str_eqb s (Bot.attr_is "input" "type" "=" "password")
       then Some {| Bot.handle_id := 2; Bot.visible := true |}
       else if str_eqb s (Bot.attr_is "button" "type" "=" "submit")
       then Some {| Bot.handle_id := 3; Bot.visible := true |}
       else None;
     Bot.cookies := [] |}.

(** A bot in front of the login form, with no credential and no session. *)
Definition bot_at_login_form : Bot.BotState :=
  {| Bot.userData := no_credentials;
     Bot.page := login_form_page;
     Bot.loggedInSites := ∅;
     Bot.sessions_file := None;
     Bot.trace := [] |}.

(** The same bot with a [genericCredentials] object that has no entry. *)
Definition bot_with_empty_credentials : Bot.BotState :=
  {| Bot.userData :=
       {| Bot.linkedinCredentials := None; Bot.indeedCredentials := None;
          Bot.glassdoorCredentials := None; Bot.genericCredentials := Some ∅ |};
     Bot.page := login_form_page;
     Bot.loggedInSites := ∅;
     Bot.sessions_file := None;
     Bot.trace := [] |}.

(** ** Sample names *)

(** A profile that holds a full name and nothing else. *)
Definition named (name : jsstring) : ContentScript.Profile :=
  {| ContentScript.personalInfo :=
       Some {| ContentScript.fullName := ContentScript.Text name;
               ContentScript.email := ContentScript.Null;
               ContentScript.phone := ContentScript.Null;
               ContentScript.location := ContentScript.Null |};
     ContentScript.education := None; ContentScript.experience := None;
     ContentScript.skills := None |}.

(** No space character in [w]. *)
Definition no_blank (w : jsstring) : bool :=
  forallb (fun c => negb (ContentScript.is_blank c)) w.

(** The full name of the profile is [name]. *)
Definition has_name (u : ContentScript.Profile) (name : jsstring) : Prop :=
  exists info,
    ContentScript.personalInfo u = Some info
    /\ ContentScript.fullName info = ContentScript.Text name.

(** ** Shapes of extracted texts *)

(** A word of letters only. *)
Definition letters (w : jsstring) : bool :=
  (0 <? length w) && forallb is_alpha w.

(** [w] ends with a four-digit year. *)
Definition ends_with_year (w : jsstring) : Prop :=
  exists pre year,
    w = pre ++ year /\ length year = 4 /\ forallb is_digit year = true.

(** [piece] stands somewhere in [text]. *)
Definition piece_of (piece text : jsstring) : Prop :=
  exists pre post, text = pre ++ piece ++ post.

(** The names a ticket can have, in the order of the rules. *)
Definition ticket_names : list string :=
  ["fullName"; "email"; "phone"; "location"; "dateOfBirth"; "education";
   "completeEducationDetails"; "workExperience"; "completeWorkExperienceDetails";
   "skills"; "languages"; "references"; "workAuthorizationStatus";
   "socialMediaProfiles"]%string.

(** ** Dates of a CV *)

(** A number below 100 written with two digits. *)
Definition two_digits (n : nat) : jsstring :=
  [ascii_of_nat (48 + n / 10); ascii_of_nat (48 + n mod 10)].

(** The name of month [m], and the word undefined outside 1..12, as an
    array read out of bounds gives inside a template literal. *)
Definition month_label (m : nat) : jsstring :=
  match m with
  | 0 => js "undefined"
  | S k => match nth_error CvUtils.months k with
           | Some name => js name
           | None => js "undefined"
           end
  end.

(** A text of [n] decimal digits. *)
Definition digits (n : nat) (w : jsstring) : bool :=
  (length w =? n) && forallb is_digit w.

(** ** The backup of an import *)

(** The file [importCVJson] copies the previous user data to. *)
Definition backup_path (fs : CvUtils.FileSystem) : jsstring :=
  js "data/user_data_backup_" ++ CvUtils.dashed (CvUtils.now_iso fs) ++ js ".json".

(** ** What the analysis and the autofill may touch *)

(** The same control: tag, attributes and options. *)
Definition same_control (e e' : ContentScript.Element) : Prop :=
  ContentScript.tagName e' = ContentScript.tagName e
  /\ ContentScript.el_name e' = ContentScript.el_name e
  /\ ContentScript.el_id e' = ContentScript.el_id e
  /\ ContentScript.el_type e' = ContentScript.el_type e
  /\ ContentScript.el_options e' = ContentScript.el_options e.

(** The types the [switch] of [autoFillApplication] has a case for. *)
Definition has_case (t : ContentScript.FieldType) : bool :=
  match t with
  | ContentScript.city | ContentScript.state | ContentScript.zip => false
  | _ => true
  end.

(** An analysed input whose type has a case. *)
Definition fillable (e : ContentScript.Element) : bool :=
  ContentScript.automationAnalyzed e
  && match ContentScript.fieldType e with
     | Some t => has_case t
     | None => false
     end.

(** The input as a successful analysis leaves it when it gives it type [t]. *)
Definition analysed_as (t : ContentScript.FieldType) (e : ContentScript.Element)
  : ContentScript.Element :=
  ContentScript.with_fieldType (Some t) (ContentScript.mark_analyzed e).

(** An email input and a resume upload whose name mentions a name. *)
Definition email_input : ContentScript.Element :=
  {| ContentScript.tagName := js "INPUT";
     ContentScript.el_name := js "contact";
     ContentScript.el_id := [];
     ContentScript.el_placeholder := [];
     ContentScript.el_type := js "email";
     ContentScript.labelFor := ContentScript.NoLabel;
     ContentScript.enclosingLabel := None;
     ContentScript.previousSibling := None;
     ContentScript.formAncestors := 0;
     ContentScript.el_options := [];
     ContentScript.el_value := [];
     ContentScript.automationAnalyzed := false;
     ContentScript.fieldType := None;
     ContentScript.highlighted := None |}.

Definition resume_upload : ContentScript.Element :=
  {| ContentScript.tagName := js "INPUT";
     ContentScript.el_name := js "resume_filename";
     ContentScript.el_id := [];
     ContentScript.el_placeholder := [];
     ContentScript.el_type := js "file";
     ContentScript.labelFor := ContentScript.NoLabel;
     ContentScript.enclosingLabel := None;
     ContentScript.previousSibling := None;
     ContentScript.formAncestors := 0;
     ContentScript.el_options := [];
     ContentScript.el_value := [];
     ContentScript.automationAnalyzed := false;
     ContentScript.fieldType := None;
     ContentScript.highlighted := None |}.

(** A profile with a name and an email address. *)
Definition jane : ContentScript.Profile :=
  {| ContentScript.personalInfo :=
       Some {| ContentScript.fullName := ContentScript.Text (js "Jane Doe");
               ContentScript.email := ContentScript.Text (js "jane@example.com");
               ContentScript.phone := ContentScript.Null;
               ContentScript.location := ContentScript.Null |};
     ContentScript.education := None; ContentScript.experience := None;
     ContentScript.skills := None |}.

(** What the fill loop does to each input, throw or no throw. *)
Definition fill_rel (e e' : ContentScript.Element) : Prop :=
  e' = e \/ (fillable e = true /\ exists v, e' = ContentScript.filled v e).

(** What the classification loop does to each input, throw or no throw. *)
Definition classify_rel (e e' : ContentScript.Element) : Prop :=
  e' = e
  \/ exists t, ContentScript.classify_element e = ContentScript.Normal (Some t)
               /\ e' = ContentScript.with_fieldType (Some t) e.

(** The marking of [analyzePage], input by input. *)
Definition marking (d : ContentScript.Document) (e : ContentScript.Element)
  : ContentScript.Element :=
  if 0 <? ContentScript.forms d
  then (if 0 <? ContentScript.formAncestors e
        then ContentScript.mark_analyzed e else e)
  else ContentScript.mark_analyzed e.

(** * Properties *)

Unset Implicit Arguments.

(** ** The matcher answers only with positions the pattern allows *)

Lemma star_loop_sound (body : mstate -> (mstate -> option mstate) -> option mstate)
      (g : bool) (r : regex) :
  (forall st k res, body st k = Some res ->
                    exists st', sem r st st' /\ k st' = Some res) ->
  forall n st k res,
    star_loop body g n st k = Some res ->
    exists st', sem (Star g r) st st' /\ k st' = Some res.
Proof.
  intros Hbody n. induction n as [|n IH]; intros st k res H.
  - simpl in H. destruct g.
    + exists st. split; [constructor | exact H].
    + destruct (k st) eqn:E; [|discriminate].
      exists st. split; [constructor | congruence].
  - assert (Hagain : forall res',
      body st (fun st' => if length (after st') <? length (after st)
                          then star_loop body g n st' k else None) = Some res' ->
      exists st', sem (Star g r) st st' /\ k st' = Some res').
    { intros res' Hb. apply Hbody in Hb as (st1 & Hs1 & Hk1).
      destruct (length (after st1) <? length (after st)); [|discriminate].
      apply IH in Hk1 as (st2 & Hs2 & Hk2).
      exists st2. split; [econstructor 7; eassumption | exact Hk2]. }
    simpl in H. destruct g.
    + destruct (body st _) eqn:E.
      * apply Hagain. congruence.
      * exists st. split; [constructor | exact H].
    + destruct (k st) eqn:E.
      * exists st. split; [constructor | congruence].
      * apply Hagain. exact H.
Qed.

Lemma rmatch_sound (r : regex) :
  forall st k res,
    rmatch r st k = Some res -> exists st', sem r st st' /\ k st' = Some res.
Proof.
  induction r as [|p|r1 IH1 r2 IH2|r1 IH1 r2 IH2|g r IH|n r IH|a];
    intros st k res H; simpl in H.
  - exists st. split; [constructor | exact H].
  - destruct (after st) as [|c a] eqn:E; [discriminate|].
    destruct (p c) eqn:Ep; [|discriminate].
    exists (advance c a st). split; [constructor; assumption | exact H].
  - apply IH1 in H as (st1 & Hs1 & H). apply IH2 in H as (st2 & Hs2 & H).
    exists st2. split; [econstructor; eassumption | exact H].
  - destruct (rmatch r1 st k) eqn:E.
    + inversion H; subst. apply IH1 in E as (st1 & Hs & Hk).
      exists st1. split; [apply sem_AltL; exact Hs | exact Hk].
    + apply IH2 in H as (st1 & Hs & Hk).
      exists st1. split; [apply sem_AltR; exact Hs | exact Hk].
  - eapply star_loop_sound; [exact IH | exact H].
  - apply IH in H as (st1 & Hs & Hk).
    exists (set_cap n st st1). split; [constructor; exact Hs | exact Hk].
  - destruct (check a st) eqn:E; [|discriminate].
    exists st. split; [constructor; exact E | exact H].
Qed.

(** *** The repetition counter never runs out early *)

Lemma star_loop_ext (body : mstate -> (mstate -> option mstate) -> option mstate)
      (g : bool) :
  (forall st k1 k2, (forall s, k1 s = k2 s) -> body st k1 = body st k2) ->
  forall n st k1 k2,
    (forall s, k1 s = k2 s) -> star_loop body g n st k1 = star_loop body g n st k2.
Proof.
  intros Hbody. induction n as [|n IH]; intros st k1 k2 Hk; simpl.
  - rewrite (Hk st). reflexivity.
  - rewrite (Hk st).
    rewrite (Hbody st _ (fun st' => if length (after st') <? length (after st)
                                    then star_loop body g n st' k2 else None)).
    + reflexivity.
    + intros s. destruct (length (after s) <? length (after st)); auto.
Qed.

Lemma rmatch_ext (r : regex) :
  forall st k1 k2, (forall s, k1 s = k2 s) -> rmatch r st k1 = rmatch r st k2.
Proof.
  induction r as [|p|r1 IH1 r2 IH2|r1 IH1 r2 IH2|g r IH|n r IH|a];
    intros st k1 k2 Hk; simpl.
  - apply Hk.
  - destruct (after st) as [|c a]; [reflexivity|].
    destruct (p c); [apply Hk|reflexivity].
  - apply IH1. intros s. apply IH2. exact Hk.
  - rewrite (IH1 st k1 k2 Hk), (IH2 st k1 k2 Hk). reflexivity.
  - apply star_loop_ext; assumption.
  - apply IH. intros s. apply Hk.
  - rewrite (Hk st). reflexivity.
Qed.

Lemma star_loop_none (body : mstate -> (mstate -> option mstate) -> option mstate)
      (g : bool) :
  (forall st k1 k2, (forall s, k1 s = k2 s) -> body st k1 = body st k2) ->
  (forall st, body st (fun _ => None) = None) ->
  forall n st, star_loop body g n st (fun _ => None) = None.
Proof.
  intros Hext Hnone. induction n as [|n IH]; intros st; simpl.
  - destruct g; reflexivity.
  - rewrite (Hext st _ (fun _ => None)).
    + rewrite Hnone. destruct g; reflexivity.
    + intros s. destruct (length (after s) <? length (after st)); auto.
Qed.

Lemma rmatch_none (r : regex) : forall st, rmatch r st (fun _ => None) = None.
Proof.
  induction r as [|p|r1 IH1 r2 IH2|r1 IH1 r2 IH2|g r IH|n r IH|a];
    intros st; simpl.
  - reflexivity.
  - destruct (after st) as [|c a]; [reflexivity|]. destruct (p c); reflexivity.
  - rewrite (rmatch_ext r1 st _ (fun _ => None)); [apply IH1|].
    intros s. apply IH2.
  - rewrite IH1, IH2. reflexivity.
  - apply star_loop_none; [apply rmatch_ext|exact IH].
  - apply IH.
  - destruct (check a st); reflexivity.
Qed.

(** A counter above the number of code units left changes nothing: the
    loop started at [length (after st)] is the unbounded one. *)
Lemma star_loop_fuel (r : regex) (g : bool) (k : mstate -> option mstate) :
  forall n st,
    length (after st) <= n ->
    star_loop (rmatch r) g (S n) st k = star_loop (rmatch r) g n st k.
Proof.
  induction n as [|n IH]; intros st Hn.
  - simpl. rewrite (rmatch_ext r st _ (fun _ => None)).
    + rewrite rmatch_none. reflexivity.
    + intros s. replace (length (after s) <? length (after st)) with false;
        [reflexivity|]. symmetry. apply Nat.ltb_ge. lia.
  - change (star_loop (rmatch r) g (S (S n)) st k)
      with (if g
            then rmatch r st (fun st' =>
                   if length (after st') <? length (after st)
                   then star_loop (rmatch r) g (S n) st' k else None) <|> k st
            else k st <|> rmatch r st (fun st' =>
                   if length (after st') <? length (after st)
                   then star_loop (rmatch r) g (S n) st' k else None)).
    change (star_loop (rmatch r) g (S n) st k)
      with (if g
            then rmatch r st (fun st' =>
                   if length (after st') <? length (after st)
                   then star_loop (rmatch r) g n st' k else None) <|> k st
            else k st <|> rmatch r st (fun st' =>
                   if length (after st') <? length (after st)
                   then star_loop (rmatch r) g n st' k else None)).
    rewrite (rmatch_ext r st
               (fun st' => if length (after st') <? length (after st)
                           then star_loop (rmatch r) g (S n) st' k else None)
               (fun st' => if length (after st') <? length (after st)
                           then star_loop (rmatch r) g n st' k else None)).
    + reflexivity.
    + intros s. destruct (length (after s) <? length (after st)) eqn:E;
        [|reflexivity].
      apply Nat.ltb_lt in E. apply IH. lia.
Qed.

(** What a match consumed is what lies between its two positions. *)
Lemma sem_span r st st' :
  sem r st st' ->
  exists w, after st = w ++ after st' /\ before st' = rev w ++ before st.
Proof.
  induction 1 as [st|p c a st Ha Hp|r1 r2 st st1 st2 _ IH1 _ IH2
                  |r1 r2 st st' _ IH|r1 r2 st st' _ IH|g r st
                  |g r st st1 st2 _ IH1 _ IH2|n r st st1 _ IH|a st Ha].
  - exists []. auto.
  - exists [c]. simpl. auto.
  - destruct IH1 as (w1 & A1 & B1), IH2 as (w2 & A2 & B2).
    exists (w1 ++ w2). rewrite A1, A2, B2, B1, rev_app_distr, <- !app_assoc. auto.
  - exact IH.
  - exact IH.
  - exists []. auto.
  - destruct IH1 as (w1 & A1 & B1), IH2 as (w2 & A2 & B2).
    exists (w1 ++ w2). rewrite A1, A2, B2, B1, rev_app_distr, <- !app_assoc. auto.
  - exact IH.
  - exists []. auto.
Qed.

Lemma consumed_span st st' w :
  before st' = rev w ++ before st -> consumed st st' = w.
Proof.
  intros H. unfold consumed. rewrite H, length_app, length_rev.
  replace (length w + length (before st) - length (before st)) with (length (rev w))
    by (rewrite length_rev; lia).
  rewrite firstn_app, firstn_all, Nat.sub_diag. simpl.
  rewrite app_nil_r. apply rev_involutive.
Qed.

Lemma sem_consumed r st st' :
  sem r st st' ->
  after st = consumed st st' ++ after st'
  /\ before st' = rev (consumed st st') ++ before st.
Proof.
  intros H. destruct (sem_span _ _ _ H) as (w & A & B).
  rewrite (consumed_span _ _ _ B). auto.
Qed.

Lemma consumed_trans r1 r2 st st1 st2 :
  sem r1 st st1 -> sem r2 st1 st2 ->
  consumed st st2 = consumed st st1 ++ consumed st1 st2.
Proof.
  intros H1 H2.
  destruct (sem_consumed _ _ _ H1) as [_ B1], (sem_consumed _ _ _ H2) as [_ B2].
  apply consumed_span. rewrite B2, B1, rev_app_distr, <- app_assoc. reflexivity.
Qed.

Lemma in_all_chars (c : ascii) : In c all_chars.
Proof.
  unfold all_chars. apply in_map_iff. exists (nat_of_ascii c). split.
  - apply ascii_nat_embedding.
  - apply in_seq. pose proof (nat_ascii_bounded c). lia.
Qed.

Lemma subclass_sound p q c : subclass p q = true -> p c = true -> q c = true.
Proof.
  unfold subclass. intros H Hp.
  rewrite forallb_forall in H. specialize (H c (in_all_chars c)).
  rewrite Hp in H. exact H.
Qed.

Lemma has_char_sound q r st st' :
  sem r st st' -> has_char q r = true ->
  exists c, In c (consumed st st') /\ q c = true.
Proof.
  induction 1 as [st|p c a st Ha Hp|r1 r2 st st1 st2 H1 IH1 H2 IH2
                  |r1 r2 st st' _ IH|r1 r2 st st' _ IH|g r st
                  |g r st st1 st2 _ IH1 _ IH2|n r st st1 _ IH|a st Ha];
    simpl; intros Hq; try discriminate.
  - exists c. split.
    + rewrite (consumed_span st (advance c a st) [c]); [left; reflexivity|reflexivity].
    + eapply subclass_sound; eassumption.
  - rewrite (consumed_trans _ _ _ _ _ H1 H2). apply orb_true_iff in Hq as [Hq|Hq].
    + destruct (IH1 Hq) as (c & Hin & Hc). exists c. split; [apply in_or_app; auto|auto].
    + destruct (IH2 Hq) as (c & Hin & Hc). exists c. split; [apply in_or_app; auto|auto].
  - apply andb_true_iff in Hq as [Hq _]. auto.
  - apply andb_true_iff in Hq as [_ Hq]. auto.
  - exact (IH Hq).
Qed.

Lemma sem_untouched n r st st' :
  sem r st st' -> has_group n r = false ->
  cap_lookup n (caps st') = cap_lookup n (caps st).
Proof.
  induction 1 as [st|p c a st Ha Hp|r1 r2 st st1 st2 H1 IH1 H2 IH2
                  |r1 r2 st st' _ IH|r1 r2 st st' _ IH|g r st
                  |g r st st1 st2 _ IH1 _ IH2|m r st st1 _ IH|a st Ha];
    simpl; intros Hg; try reflexivity.
  - apply orb_false_iff in Hg as [G1 G2]. rewrite IH2, IH1; auto.
  - apply orb_false_iff in Hg as [G1 G2]. auto.
  - apply orb_false_iff in Hg as [G1 G2]. auto.
  - rewrite IH2, IH1; auto.
  - apply orb_false_iff in Hg as [G1 G2]. rewrite G1. auto.
Qed.

Lemma group_has_char_sound n q r st st' :
  sem r st st' -> group_has_char n q r = true ->
  exists w c, cap_lookup n (caps st') = Some w /\ In c w /\ q c = true.
Proof.
  induction 1 as [st|p c a st Ha Hp|r1 r2 st st1 st2 H1 IH1 H2 IH2
                  |r1 r2 st st' _ IH|r1 r2 st st' _ IH|g r st
                  |g r st st1 st2 _ IH1 _ IH2|m r st st1 H IH|a st Ha];
    simpl; intros Hq; try discriminate.
  - apply orb_true_iff in Hq as [Hq|Hq].
    + auto.
    + apply andb_true_iff in Hq as [Hq Hg]. apply negb_true_iff in Hg.
      rewrite (sem_untouched _ _ _ _ H2 Hg). auto.
  - apply andb_true_iff in Hq as [Hq _]. auto.
  - apply andb_true_iff in Hq as [_ Hq]. auto.
  - destruct (n =? m) eqn:E.
    + destruct (has_char_sound _ _ _ _ H Hq) as (c & Hin & Hc).
      exists (consumed st st1), c. auto.
    + auto.
Qed.

(** A successful search: where it started, and what it stands for. *)
Lemma search_sound r :
  forall aft bef m,
    search r bef aft = Some m ->
    exists bef' aft' st1,
      rev bef' ++ aft' = rev bef ++ aft
      /\ length bef <= length bef'
      /\ sem r (start_state bef' aft') st1
      /\ m = mk_match (start_state bef' aft') st1.
Proof.
  induction aft as [|c aft IH]; intros bef m H; simpl in H.
  - destruct (rmatch r (start_state bef []) Some) as [res|] eqn:E; [|discriminate].
    apply rmatch_sound in E as (st1 & Hs & Hk).
    injection Hk as ->. injection H as <-.
    exists bef, [], res. auto.
  - destruct (rmatch r (start_state bef (c :: aft)) Some) as [res|] eqn:E.
    + apply rmatch_sound in E as (st1 & Hs & Hk).
      injection Hk as ->. injection H as <-.
      exists bef, (c :: aft), res. auto.
    + apply IH in H as (bef' & aft' & st1 & A & B & C & D).
      exists bef', aft', st1. simpl in A, B. rewrite <- app_assoc in A.
      repeat split; auto. lia.
Qed.

(** [text.match(re)]: the text splits around the match. *)
Lemma str_match_sound r text m :
  str_match r text = Some m ->
  exists pre st0 st1,
    sem r st0 st1
    /\ caps st0 = []
    /\ text = pre ++ m_text m ++ after st1
    /\ m_index m = length pre
    /\ m_end m = length pre + length (m_text m)
    /\ m_text m = consumed st0 st1
    /\ m_caps m = caps st1.
Proof.
  intros H. apply search_sound in H as (bef & aft & st1 & A & _ & S & ->).
  exists (rev bef), (start_state bef aft), st1.
  destruct (sem_consumed _ _ _ S) as [C1 C2]. simpl in *.
  repeat split; auto.
  - rewrite <- A, C1. reflexivity.
  - rewrite length_rev. reflexivity.
  - rewrite C2, length_app, !length_rev. lia.
Qed.

(** [re.exec(text)] from [lastIndex]: the match lies at or after it. *)
Lemma exec_at_sound r text lastIndex m :
  exec_at r text lastIndex = Some m ->
  exists pre st0 st1,
    sem r st0 st1
    /\ text = pre ++ m_text m ++ after st1
    /\ lastIndex <= length pre
    /\ m_index m = length pre
    /\ m_end m = length pre + length (m_text m)
    /\ m_text m = consumed st0 st1
    /\ m_caps m = caps st1.
Proof.
  unfold exec_at. intros H.
  destruct (length text <? lastIndex) eqn:E; [discriminate|].
  apply Nat.ltb_ge in E.
  apply search_sound in H as (bef & aft & st1 & A & B & S & ->).
  exists (rev bef), (start_state bef aft), st1.
  destruct (sem_consumed _ _ _ S) as [C1 C2]. simpl in *.
  rewrite rev_involutive, firstn_skipn in A.
  rewrite length_rev, length_firstn in B.
  repeat split; auto.
  - rewrite <- A, C1. reflexivity.
  - rewrite length_rev. lia.
  - rewrite length_rev. reflexivity.
  - rewrite C2, length_app, !length_rev. lia.
Qed.

(** The [exec] loop ends for a pattern that cannot match the empty text. *)
Lemma exec_loop_total r text :
  has_char any_char r = true ->
  forall fuel lastIndex,
    length text < fuel + lastIndex ->
    exists ms, exec_loop fuel r text lastIndex = Some ms.
Proof.
  intros Hr. induction fuel as [|fuel IH]; intros lastIndex Hf.
  - simpl. destruct (exec_at r text lastIndex) eqn:E; [|eauto].
    apply exec_at_sound in E as (pre & st0 & st1 & _ & T & L & _).
    rewrite T, length_app in Hf. lia.
  - simpl. destruct (exec_at r text lastIndex) eqn:E; [|eauto].
    apply exec_at_sound in E as (pre & st0 & st1 & S & T & L & _ & En & Tx & _).
    destruct (has_char_sound _ _ _ _ S Hr) as (c & Hin & _).
    rewrite <- Tx in Hin.
    assert (0 < length (m_text j)) by (destruct (m_text j); [contradiction|simpl; lia]).
    assert (Hlt : lastIndex < m_end j) by lia.
    apply Nat.ltb_lt in Hlt. rewrite Hlt.
    destruct (IH (m_end j)) as (ms & ->).
    + rewrite T, !length_app in Hf. rewrite T, !length_app. lia.
    + simpl. eauto.
Qed.

Lemma exec_all_total r text :
  has_char any_char r = true -> exists ms, exec_all r text = Some ms.
Proof.
  intros Hr. apply exec_loop_total; [exact Hr | lia].
Qed.

(** Every match the [exec] loop yields is a match of the pattern. *)
Lemma exec_loop_sound r text :
  forall fuel lastIndex ms m,
    exec_loop fuel r text lastIndex = Some ms -> In m ms ->
    exists st0 st1, sem r st0 st1 /\ m_text m = consumed st0 st1
                    /\ m_caps m = caps st1.
Proof.
  induction fuel as [|fuel IH]; intros lastIndex ms m H Hin; simpl in H.
  - destruct (exec_at r text lastIndex); [discriminate|].
    inversion H; subst. contradiction.
  - destruct (exec_at r text lastIndex) as [m0|] eqn:E.
    + destruct (lastIndex <? m_end m0); [|discriminate].
      destruct (exec_loop fuel r text (m_end m0)) as [ms'|] eqn:E'; [|discriminate].
      simpl in H. inversion H; subst. destruct Hin as [<-|Hin].
      * apply exec_at_sound in E as (pre & st0 & st1 & S & _ & _ & _ & _ & Tx & Cp).
        eauto.
      * eapply IH; eassumption.
    + inversion H; subst. contradiction.
Qed.

(** ** [trim] *)

Lemma trim_start_keeps c w :
  In c w -> not_space c = true -> In c (trim_start w).
Proof.
  unfold not_space. induction w as [|x w IH]; intros Hin Hc; [contradiction|].
  simpl. destruct (is_space x) eqn:E; [|exact Hin].
  destruct Hin as [->|Hin]; [rewrite E in Hc; discriminate | auto].
Qed.

Lemma trim_keeps c w : In c w -> not_space c = true -> In c (trim w).
Proof.
  intros Hin Hc. unfold trim. apply in_rev. rewrite rev_involutive.
  apply trim_start_keeps; [|exact Hc].
  apply in_rev. rewrite rev_involutive.
  apply trim_start_keeps; assumption.
Qed.

Lemma trim_nonempty c w : In c w -> not_space c = true -> trim w <> [].
Proof.
  intros Hin Hc E. pose proof (trim_keeps c w Hin Hc) as H.
  rewrite E in H. contradiction.
Qed.

(** ** The parser's updates, as list equations *)

Lemma fold_push_education es :
  forall p,
    fold_left (fun q e => push_education e q) es p
    = {| userData :=
           {| personalInfo := personalInfo (userData p);
              education := education (userData p) ++ es;
              experience := experience (userData p);
              skills := skills (userData p);
              languages := languages (userData p);
              certifications := certifications (userData p) |};
         missingFields := missingFields p |}.
Proof.
  induction es as [|e es IH]; intros [[i ed ex sk la ce] mf]; simpl.
  - rewrite app_nil_r. reflexivity.
  - rewrite IH. simpl. rewrite <- app_assoc. reflexivity.
Qed.

Lemma fold_push_experience es :
  forall p,
    fold_left (fun q e => push_experience e q) es p
    = {| userData :=
           {| personalInfo := personalInfo (userData p);
              education := education (userData p);
              experience := experience (userData p) ++ es;
              skills := skills (userData p);
              languages := languages (userData p);
              certifications := certifications (userData p) |};
         missingFields := missingFields p |}.
Proof.
  induction es as [|e es IH]; intros [[i ed ex sk la ce] mf]; simpl.
  - rewrite app_nil_r. reflexivity.
  - rewrite IH. simpl. rewrite <- app_assoc. reflexivity.
Qed.

Lemma fold_push_language es :
  forall p,
    fold_left (fun q e => push_language e q) es p
    = {| userData :=
           {| personalInfo := personalInfo (userData p);
              education := education (userData p);
              experience := experience (userData p);
              skills := skills (userData p);
              languages := languages (userData p) ++ es;
              certifications := certifications (userData p) |};
         missingFields := missingFields p |}.
Proof.
  induction es as [|e es IH]; intros [[i ed ex sk la ce] mf]; simpl.
  - rewrite app_nil_r. reflexivity.
  - rewrite IH. simpl. rewrite <- app_assoc. reflexivity.
Qed.

Lemma fold_push_certification es :
  forall p,
    fold_left (fun q e => push_certification e q) es p
    = {| userData :=
           {| personalInfo := personalInfo (userData p);
              education := education (userData p);
              experience := experience (userData p);
              skills := skills (userData p);
              languages := languages (userData p);
              certifications := certifications (userData p) ++ es |};
         missingFields := missingFields p |}.
Proof.
  induction es as [|e es IH]; intros [[i ed ex sk la ce] mf]; simpl.
  - rewrite app_nil_r. reflexivity.
  - rewrite IH. simpl. rewrite <- app_assoc. reflexivity.
Qed.

(** [extractPersonalInfo] touches the personal fields only. *)
Lemma extractPersonalInfo_frame text p :
  let p' := extractPersonalInfo text p in
  education (userData p') = education (userData p)
  /\ experience (userData p') = experience (userData p)
  /\ skills (userData p') = skills (userData p)
  /\ languages (userData p') = languages (userData p)
  /\ certifications (userData p') = certifications (userData p)
  /\ missingFields p' = missingFields p.
Proof.
  unfold extractPersonalInfo.
  destruct (str_match nameRegex text), (str_match emailRegex text),
    (str_match phoneRegex text), (str_match locationRegex text),
    (str_match dobRegex text); simpl; auto 10.
Qed.

Lemma extractPersonalInfo_personalInfo text p :
  personalInfo (userData (extractPersonalInfo text p))
  = merged_personalInfo text (personalInfo (userData p)).
Proof.
  unfold extractPersonalInfo, merged_personalInfo.
  destruct p as [[[fn em ph lo db] ed ex sk la ce] mf].
  destruct (str_match nameRegex text), (str_match emailRegex text),
    (str_match phoneRegex text), (str_match locationRegex text),
    (str_match dobRegex text); reflexivity.
Qed.

Lemma extractInformation_inv text p p' :
  extractInformation text p = Some p' ->
  exists es xs cs,
    education_entries text = Some es
    /\ experience_entries text = Some xs
    /\ certification_entries text = Some cs
    /\ p' = after_pass text p es xs cs.
Proof.
  unfold extractInformation, extractEducation, extractExperience,
    extractCertifications, extractLanguages, extractSkills, after_pass.
  pose proof (extractPersonalInfo_frame text p) as F.
  pose proof (extractPersonalInfo_personalInfo text p) as I.
  destruct (extractPersonalInfo text p) as [[i0 ed0 ex0 sk0 la0 ce0] mf0].
  simpl in F, I. destruct F as (-> & -> & -> & -> & -> & ->). subst i0.
  destruct (education_entries text) as [es|]; [|discriminate].
  destruct (experience_entries text) as [xs|]; [|discriminate].
  destruct (certification_entries text) as [cs|];
    [|simpl; rewrite ?fold_push_education, ?fold_push_experience; simpl;
      destruct (extracted_skills text); discriminate].
  simpl. rewrite fold_push_education. simpl. rewrite fold_push_experience. simpl.
  intros H. exists es, xs, cs. repeat split.
  destruct (extracted_skills text) as [l|]; simpl in H;
    rewrite fold_push_language, fold_push_certification in H; simpl in H;
    injection H as <-; reflexivity.
Qed.

Lemma extractInformation_run text p es xs cs :
  education_entries text = Some es ->
  experience_entries text = Some xs ->
  certification_entries text = Some cs ->
  extractInformation text p = Some (after_pass text p es xs cs).
Proof.
  intros He Hx Hc.
  unfold extractInformation, extractEducation, extractExperience,
    extractCertifications, extractLanguages, extractSkills, after_pass.
  pose proof (extractPersonalInfo_frame text p) as F.
  pose proof (extractPersonalInfo_personalInfo text p) as I.
  destruct (extractPersonalInfo text p) as [[i0 ed0 ex0 sk0 la0 ce0] mf0].
  simpl in F, I. destruct F as (-> & -> & -> & -> & -> & ->). subst i0.
  rewrite He, Hx, Hc. simpl.
  rewrite fold_push_education. simpl. rewrite fold_push_experience. simpl.
  destruct (extracted_skills text) as [l|]; simpl;
    rewrite fold_push_language, fold_push_certification; reflexivity.
Qed.

(** ** The three entry patterns never match the empty text *)

Lemma universityRegex_solid : has_char not_space universityRegex = true.
Proof. vm_compute. reflexivity. Qed.

Lemma companyRegex_solid : has_char not_space companyRegex = true.
Proof. vm_compute. reflexivity. Qed.

Lemma certRegex_solid : group_has_char 1 not_space certRegex = true.
Proof. vm_compute. reflexivity. Qed.

Lemma universityRegex_consumes : has_char any_char universityRegex = true.
Proof. vm_compute. reflexivity. Qed.

Lemma companyRegex_consumes : has_char any_char companyRegex = true.
Proof. vm_compute. reflexivity. Qed.

Lemma certRegex_consumes : has_char any_char certRegex = true.
Proof. vm_compute. reflexivity. Qed.

Lemma education_entries_total text : exists es, education_entries text = Some es.
Proof.
  unfold education_entries.
  destruct (str_match educationSectionRegex text) as [m|]; [|eauto].
  destruct (exec_all_total universityRegex (m_text m) universityRegex_consumes) as (ms & ->).
  simpl. eauto.
Qed.

Lemma experience_entries_total text : exists xs, experience_entries text = Some xs.
Proof.
  unfold experience_entries.
  destruct (str_match experienceSectionRegex text) as [m|]; [|eauto].
  destruct (exec_all_total companyRegex (m_text m) companyRegex_consumes) as (ms & ->).
  simpl. eauto.
Qed.

Lemma certification_entries_total text :
  exists cs, certification_entries text = Some cs.
Proof.
  unfold certification_entries.
  destruct (str_match certSectionRegex text) as [m|]; [|eauto].
  destruct (exec_all_total certRegex (m_text m) certRegex_consumes) as (ms & ->).
  simpl. eauto.
Qed.

(** [extractInformation] always ends. *)
Lemma extractInformation_total text p :
  exists es xs cs,
    education_entries text = Some es
    /\ experience_entries text = Some xs
    /\ certification_entries text = Some cs
    /\ extractInformation text p = Some (after_pass text p es xs cs).
Proof.
  destruct (education_entries_total text) as (es & He).
  destruct (experience_entries_total text) as (xs & Hx).
  destruct (certification_entries_total text) as (cs & Hc).
  exists es, xs, cs. repeat split; auto using extractInformation_run.
Qed.

(** ** Primary fields of the extracted entries *)

Lemma exec_all_sound r text ms m :
  exec_all r text = Some ms -> In m ms ->
  exists st0 st1, sem r st0 st1 /\ m_text m = consumed st0 st1
                  /\ m_caps m = caps st1.
Proof. unfold exec_all. apply exec_loop_sound. Qed.

Lemma education_entries_primary text es :
  education_entries text = Some es ->
  Forall (fun e => institution e <> []) es.
Proof.
  unfold education_entries.
  destruct (str_match educationSectionRegex text) as [sec|];
    [|intros [= <-]; constructor].
  destruct (exec_all universityRegex (m_text sec)) as [ms|] eqn:E; [|discriminate].
  simpl. intros [= <-]. apply Forall_map, Forall_forall. intros m Hin.
  destruct (exec_all_sound _ _ _ _ E Hin) as (st0 & st1 & S & Tx & _).
  destruct (has_char_sound _ _ _ _ S universityRegex_solid) as (c & Hc & Hq).
  simpl. rewrite Tx. eapply trim_nonempty; eassumption.
Qed.

Lemma experience_entries_primary text xs :
  experience_entries text = Some xs ->
  Forall (fun e => company e <> []) xs.
Proof.
  unfold experience_entries.
  destruct (str_match experienceSectionRegex text) as [sec|];
    [|intros [= <-]; constructor].
  destruct (exec_all companyRegex (m_text sec)) as [ms|] eqn:E; [|discriminate].
  simpl. intros [= <-]. apply Forall_map, Forall_forall. intros m Hin.
  destruct (exec_all_sound _ _ _ _ E Hin) as (st0 & st1 & S & Tx & _).
  destruct (has_char_sound _ _ _ _ S companyRegex_solid) as (c & Hc & Hq).
  simpl. rewrite Tx. eapply trim_nonempty; eassumption.
Qed.

Lemma certification_entries_primary text cs :
  certification_entries text = Some cs ->
  Forall (fun e => cert_name e <> []) cs.
Proof.
  unfold certification_entries.
  destruct (str_match certSectionRegex text) as [sec|];
    [|intros [= <-]; constructor].
  destruct (exec_all certRegex (m_text sec)) as [ms|] eqn:E; [|discriminate].
  simpl. intros [= <-]. apply Forall_map, Forall_forall. intros m Hin.
  destruct (exec_all_sound _ _ _ _ E Hin) as (st0 & st1 & S & _ & Cp).
  destruct (group_has_char_sound _ _ _ _ _ S certRegex_solid)
    as (w & c & Hw & Hc & Hq).
  simpl. unfold group. rewrite Cp, Hw. eapply trim_nonempty; eassumption.
Qed.

Lemma commonLanguages_named :
  Forall (fun lang => js lang <> []) commonLanguages.
Proof. repeat constructor; discriminate. Qed.

Lemma language_entries_primary text :
  Forall (fun e => language e <> []) (language_entries text).
Proof.
  pose proof commonLanguages_named as N. rewrite Forall_forall in N.
  apply Forall_forall. intros e Hin. unfold language_entries in Hin.
  destruct (str_match languageSectionRegex text) as [sec|];
    apply in_flat_map in Hin as (lang & Hl & He).
  - unfold section_language in He.
    destruct (str_match (langRegex lang) (m_text sec)).
    + destruct He as [<-|[]]. simpl. auto.
    + destruct (includes (m_text sec) (js lang)); [|contradiction].
      destruct He as [<-|[]]. simpl. auto.
  - unfold document_language in He.
    destruct (includes text (js lang)); [|contradiction].
    destruct (str_match (langContextRegex lang) text); [|contradiction].
    destruct He as [<-|[]]. simpl. auto.
Qed.

(** ** Running the extraction twice *)

Lemma merged_personalInfo_idem text i :
  merged_personalInfo text (merged_personalInfo text i)
  = merged_personalInfo text i.
Proof.
  unfold merged_personalInfo. simpl.
  destruct (str_match nameRegex text), (str_match emailRegex text),
    (str_match phoneRegex text), (str_match locationRegex text),
    (str_match dobRegex text); reflexivity.
Qed.

(** C3, as the design document states it, fails: on the two-line resume
    [resume_one_school] the first pass over a fresh parser stores one
    education entry and a second pass over the same parser stores it again. *)
Lemma second_pass_duplicates_education :
  exists p1 p2,
    extractInformation resume_one_school new_ResumeParser = Some p1
    /\ extractInformation resume_one_school p1 = Some p2
    /\ length (education (userData p1)) = 1
    /\ length (education (userData p2)) = 2
    /\ p2 <> p1.
Proof.
  eexists. eexists.
  split; [vm_compute; reflexivity|].
  split; [vm_compute; reflexivity|].
  split; [reflexivity|]. split; [reflexivity|].
  intros H.
  apply (f_equal (fun p => length (education (userData p)))) in H.
  discriminate H.
Qed.

(** C3 (amended): extraction always ends, and a second pass over the same
    parser and the same text leaves the personal fields and the skills as
    the first pass set them, while each entry list (education, experience,
    languages, certifications) receives the entries of the text once more:
    after two passes it is the list before the first pass followed by the
    text's entries twice. *)
Theorem second_pass_repeats_entries (text : jsstring) (p : ResumeParser) :
  exists es xs cs p1 p2,
    education_entries text = Some es
    /\ experience_entries text = Some xs
    /\ certification_entries text = Some cs
    /\ extractInformation text p = Some p1
    /\ extractInformation text p1 = Some p2
    /\ personalInfo (userData p2) = personalInfo (userData p1)
    /\ skills (userData p2) = skills (userData p1)
    /\ education (userData p1) = education (userData p) ++ es
    /\ education (userData p2) = education (userData p1) ++ es
    /\ experience (userData p1) = experience (userData p) ++ xs
    /\ experience (userData p2) = experience (userData p1) ++ xs
    /\ languages (userData p1) = languages (userData p) ++ language_entries text
    /\ languages (userData p2) = languages (userData p1) ++ language_entries text
    /\ certifications (userData p1) = certifications (userData p) ++ cs
    /\ certifications (userData p2) = certifications (userData p1) ++ cs.
Proof.
  destruct (extractInformation_total text p) as (es & xs & cs & He & Hx & Hc & H1).
  exists es, xs, cs, (after_pass text p es xs cs),
    (after_pass text (after_pass text p es xs cs) es xs cs).
  repeat split; auto using extractInformation_run.
  - simpl. apply merged_personalInfo_idem.
  - simpl. destruct (extracted_skills text); reflexivity.
Qed.

(** ** Entries keep their primary field *)

(** C5: every entry the extraction appends has its primary identifying field:
    starting from a parser whose entries all have a non-empty institution,
    company, language name and certification name, one pass over any text
    ends and yields a parser of which the same holds; the entries the text
    contributes all have the field, so no candidate is stored without it. *)
Theorem extraction_keeps_primary_fields (text : jsstring) (p : ResumeParser) :
  has_primary_fields (userData p) ->
  exists p',
    extractInformation text p = Some p'
    /\ has_primary_fields (userData p')
    /\ (forall es, education_entries text = Some es ->
                   Forall (fun e => institution e <> []) es)
    /\ (forall xs, experience_entries text = Some xs ->
                   Forall (fun e => company e <> []) xs)
    /\ Forall (fun e => language e <> []) (language_entries text)
    /\ (forall cs, certification_entries text = Some cs ->
                   Forall (fun e => cert_name e <> []) cs).
Proof.
  intros (Hed & Hex & Hla & Hce).
  destruct (extractInformation_total text p) as (es & xs & cs & He & Hx & Hc & H1).
  exists (after_pass text p es xs cs). split; [exact H1|]. split.
  - unfold has_primary_fields. simpl. repeat split; apply Forall_app; split;
      eauto using education_entries_primary, experience_entries_primary,
        certification_entries_primary, language_entries_primary.
  - repeat split;
      eauto using education_entries_primary, experience_entries_primary,
        certification_entries_primary, language_entries_primary.
Qed.

Lemma extraction_keeps_primary_fields_witness :
  has_primary_fields (userData new_ResumeParser)
  /\ exists p',
       extractInformation resume_one_school new_ResumeParser = Some p'
       /\ has_primary_fields (userData p').
Proof.
  assert (H0 : has_primary_fields (userData new_ResumeParser))
    by (repeat split; constructor).
  split; [exact H0|].
  destruct (extraction_keeps_primary_fields resume_one_school new_ResumeParser H0)
    as (p' & H & W & _).
  exists p'. split; assumption.
Defined.

(** ** Equations of the matcher on keywords, alternatives and [[\s\S]*?] *)

Lemma skip_0 st : skip 0 st = st.
Proof. destruct st. reflexivity. Qed.

Lemma skip_S n c a st :
  after st = c :: a -> skip (S n) st = skip n (advance c a st).
Proof.
  intros E. unfold skip, advance. simpl. rewrite E. simpl.
  rewrite <- app_assoc. reflexivity.
Qed.

Lemma rmatch_Seq r1 r2 st k :
  rmatch (Seq r1 r2) st k = rmatch r1 st (fun st1 => rmatch r2 st1 k).
Proof. reflexivity. Qed.

Lemma rmatch_Assert a st k :
  rmatch (Assert a) st k = if check a st then k st else None.
Proof. reflexivity. Qed.

Lemma rmatch_keyword kw :
  forall st k,
    rmatch (seqs (map chr_ci kw)) st k
    = if prefix_ci kw (after st) then k (skip (length kw) st) else None.
Proof.
  induction kw as [|x kw IH]; intros st k.
  - simpl. rewrite skip_0. reflexivity.
  - assert (Hone : rmatch (chr_ci x) st (fun st1 => rmatch (seqs (map chr_ci kw)) st1 k)
                   = if prefix_ci (x :: kw) (after st)
                     then k (skip (length (x :: kw)) st) else None).
    { simpl. destruct (after st) as [|c a] eqn:E; [reflexivity|].
      fold (eq_ci c x). destruct (eq_ci c x); [|reflexivity].
      rewrite IH. simpl. rewrite (skip_S _ c a st E). reflexivity. }
    destruct kw as [|y kw]; [|exact Hone].
    rewrite <- Hone. simpl. destruct (after st) as [|c a]; [reflexivity|].
    destruct (ascii_eqb (canon c) (canon x)); reflexivity.
Qed.

Lemma rmatch_lit_ci (kw : string) st k :
  rmatch (lit_ci kw) st k
  = if prefix_ci (js kw) (after st) then k (skip (length (js kw)) st) else None.
Proof. apply rmatch_keyword. Qed.

Lemma rmatch_alts rs :
  forall st k, rmatch (alts rs) st k = first_success rs st k.
Proof.
  induction rs as [|r rs IH]; intros st k.
  - simpl. destruct (after st); reflexivity.
  - destruct rs as [|r' rs].
    + simpl. destruct (rmatch r st k); reflexivity.
    + change (alts (r :: r' :: rs)) with (Alt r (alts (r' :: rs))).
      simpl rmatch. rewrite IH. reflexivity.
Qed.

Lemma rmatch_lazy_any k :
  forall aft bef cp,
    rmatch lazy_any {| before := bef; after := aft; caps := cp |} k
    = lazy_scan k cp aft bef.
Proof.
  unfold lazy_any. simpl rmatch.
  induction aft as [|c a IH]; intros bef cp.
  - simpl. destruct (k _); reflexivity.
  - simpl. destruct (k _); [reflexivity|].
    unfold advance. simpl.
    replace (length a <? S (length a)) with true
      by (symmetry; apply Nat.ltb_lt; lia).
    apply IH.
Qed.

(** ** A keyword pattern tests for an occurrence of a keyword *)

Lemma first_success_keywords kws st :
  isSome (first_success (map lit_ci kws) st Some)
  = existsb (fun kw => prefix_ci (js kw) (after st)) kws.
Proof.
  induction kws as [|kw kws IH]; [reflexivity|].
  simpl. rewrite rmatch_lit_ci.
  destruct (prefix_ci (js kw) (after st)); [reflexivity|exact IH].
Qed.

Lemma existsb_orb {A} (f g : A -> bool) l :
  existsb (fun x => f x || g x) l = existsb f l || existsb g l.
Proof.
  induction l as [|x l IH]; [reflexivity|].
  simpl. rewrite IH. destruct (f x), (g x), (existsb f l), (existsb g l); reflexivity.
Qed.

Lemma existsb_false {A} (l : list A) : existsb (fun _ => false) l = false.
Proof. induction l; auto. Qed.

Lemma search_keywords kws :
  forall aft bef,
    isSome (search (alts (map lit_ci kws)) bef aft)
    = existsb (fun kw => occurs_ci (js kw) aft) kws.
Proof.
  induction aft as [|c aft IH]; intros bef.
  - simpl search. rewrite rmatch_alts.
    pose proof (first_success_keywords kws (start_state bef [])) as F.
    simpl occurs_ci. rewrite existsb_orb, existsb_false, orb_false_r.
    destruct (first_success _ _ _); exact F.
  - simpl search. rewrite rmatch_alts.
    pose proof (first_success_keywords kws (start_state bef (c :: aft))) as F.
    simpl occurs_ci. rewrite existsb_orb.
    simpl in F. rewrite <- F.
    destruct (first_success _ _ _); [reflexivity|].
    simpl. apply IH.
Qed.

Lemma test_keywords kws text :
  test (alts (map lit_ci kws)) text
  = existsb (fun kw => occurs_ci (js kw) text) kws.
Proof.
  unfold test, str_match. rewrite <- search_keywords with (bef := []).
  destruct (search _ _ _); reflexivity.
Qed.

(** On a lower-cased text, "letter case apart" is plain equality. *)
Lemma eq_ci_lower_table :
  forallb (fun k =>
    if is_lower k || ascii_eqb k " "
    then forallb (fun c =>
           Bool.eqb (eq_ci (lower_char c) k) (ascii_eqb k (lower_char c)))
           all_chars
    else true) all_chars = true.
Proof. vm_compute. reflexivity. Qed.

Lemma eq_ci_lower c k :
  is_lower k || ascii_eqb k " " = true ->
  eq_ci (lower_char c) k = ascii_eqb k (lower_char c).
Proof.
  intros Hk. pose proof eq_ci_lower_table as T.
  rewrite forallb_forall in T. specialize (T k (in_all_chars k)).
  rewrite Hk in T.
  rewrite forallb_forall in T. specialize (T c (in_all_chars c)).
  apply eqb_prop in T. exact T.
Qed.

Lemma starts_with_lower kw :
  lower_keyword kw = true ->
  forall s, starts_with kw (toLowerCase s) = prefix_ci kw (toLowerCase s).
Proof.
  induction kw as [|k kw IH]; intros Hkw s; [reflexivity|].
  simpl in Hkw. apply andb_true_iff in Hkw as [Hk Hkw].
  destruct s as [|c s]; [reflexivity|].
  simpl. rewrite (eq_ci_lower c k Hk), (IH Hkw s). reflexivity.
Qed.

Lemma includes_lower kw :
  lower_keyword kw = true ->
  forall s, includes (toLowerCase s) kw = occurs_ci kw (toLowerCase s).
Proof.
  intros Hkw s. unfold includes, indexOf. generalize 0.
  induction s as [|c s IH]; intros i.
  - pose proof (starts_with_lower kw Hkw []) as E. cbn [toLowerCase map] in E.
    cbn [toLowerCase map indexOf_from occurs_ci]. rewrite E.
    destruct (prefix_ci kw []); reflexivity.
  - pose proof (starts_with_lower kw Hkw (c :: s)) as E.
    cbn [toLowerCase map] in E.
    cbn [toLowerCase map indexOf_from occurs_ci]. rewrite E.
    destruct (prefix_ci kw (lower_char c :: map lower_char s)); [reflexivity|].
    simpl orb. apply IH.
Qed.

Lemma keyword_test kws u :
  forallb (fun kw => lower_keyword (js kw)) kws = true ->
  test (alts (map lit_ci kws)) (toLowerCase (JSON_stringify u))
  = keyword_appears kws u.
Proof.
  intros H. rewrite test_keywords. unfold keyword_appears.
  generalize (JSON_stringify u) as t. intros t.
  induction kws as [|kw kws IH]; [reflexivity|].
  cbn [forallb] in H. apply andb_true_iff in H as [Hk H].
  cbn [existsb]. rewrite (includes_lower (js kw) Hk), (IH H). reflexivity.
Qed.

(** ** [identifyMissingFields] is the rule table *)

Lemma push_if (b : bool) k p :
  (if b then push_missing k p else p)
  = {| userData := userData p;
       missingFields := missingFields p ++ ticket_if b k |}.
Proof.
  destruct b, p; unfold push_missing, ticket_if; simpl;
    rewrite ?app_nil_r; reflexivity.
Qed.

Lemma push_always k p :
  push_missing k p
  = {| userData := userData p; missingFields := missingFields p ++ [k] |}.
Proof. reflexivity. Qed.

Lemma length_zero_is_nil {A} (l : list A) : (length l =? 0) = is_nil l.
Proof. destruct l; reflexivity. Qed.

Lemma filter_nonempty_existsb {A} (f : A -> bool) l :
  (0 <? length (filter f l)) = existsb f l.
Proof.
  induction l as [|x l IH]; [reflexivity|].
  simpl. destruct (f x); [reflexivity|exact IH].
Qed.

Lemma push_section {A} (l : list A) (f : A -> bool) k1 k2 p :
  (if length l =? 0 then push_missing k1 p
   else if 0 <? length (filter f l) then push_missing k2 p else p)
  = {| userData := userData p;
       missingFields :=
         missingFields p
         ++ (if is_nil l then [k1] else ticket_if (existsb f l) k2) |}.
Proof.
  rewrite length_zero_is_nil, filter_nonempty_existsb.
  destruct (is_nil l); [reflexivity|]. apply push_if.
Qed.

Lemma push_personalInfo p :
  fold_left (fun q kv => if falsy (snd kv) then push_missing (fst kv) q else q)
            (personalInfo_entries (personalInfo (userData p))) p
  = {| userData := userData p;
       missingFields :=
         missingFields p
         ++ ticket_if (falsy (fullName (personalInfo (userData p)))) "fullName"
         ++ ticket_if (falsy (email (personalInfo (userData p)))) "email"
         ++ ticket_if (falsy (phone (personalInfo (userData p)))) "phone"
         ++ ticket_if (falsy (location (personalInfo (userData p)))) "location"
         ++ ticket_if (falsy (dateOfBirth (personalInfo (userData p))))
                      "dateOfBirth" |}.
Proof.
  destruct p as [[[fn em ph lo db] ed ex sk la ce] mf].
  unfold personalInfo_entries. cbn [fold_left fst snd userData personalInfo
    fullName email phone location dateOfBirth missingFields].
  destruct (falsy fn), (falsy em), (falsy ph), (falsy lo), (falsy db);
    unfold push_missing, ticket_if; simpl; rewrite <- ?app_assoc, ?app_nil_r;
    reflexivity.
Qed.

Lemma identifyMissingFields_eq p :
  identifyMissingFields p
  = {| userData := userData p;
       missingFields := missingFields p ++ rule_table (userData p) |}.
Proof.
  unfold identifyMissingFields.
  change authorizationRegex with (alts (map lit_ci authorization_keywords)).
  change socialRegex with (alts (map lit_ci social_keywords)).
  cbv zeta.
  rewrite !keyword_test by reflexivity.
  rewrite push_personalInfo. cbn [userData missingFields].
  rewrite (push_section (education (userData p))). cbn [userData missingFields].
  rewrite (push_section (experience (userData p))). cbn [userData missingFields].
  rewrite !length_zero_is_nil.
  rewrite (push_if (is_nil (skills (userData p)))). cbn [userData missingFields].
  rewrite (push_if (is_nil (languages (userData p)))). cbn [userData missingFields].
  rewrite (push_always "references"). cbn [userData missingFields].
  rewrite (push_if (negb (keyword_appears authorization_keywords (userData p)))).
  cbn [userData missingFields].
  rewrite push_if. cbn [userData missingFields].
  unfold rule_table, education_incomplete, experience_incomplete.
  rewrite <- !app_assoc. reflexivity.
Qed.

(** C1: for a fixed profile the completeness analysis is a function of the
    profile, and its tickets are those of the documented rule table, in the
    documented order: personal attributes (fullName, email, phone, location,
    dateOfBirth), education / completeEducationDetails, workExperience /
    completeWorkExperienceDetails, skills, languages, the unconditional
    references, workAuthorizationStatus unless one of its keywords appears in
    the serialized profile, socialMediaProfiles unless one of its keywords
    does.  The tickets are appended to those the parser already holds (none
    for a new parser) and the profile is left as it is.  For a profile with
    empty skills and languages, everything else populated and no keyword of
    either family, the tickets of a new parser are exactly skills, languages,
    references, workAuthorizationStatus, socialMediaProfiles. *)
Theorem missing_fields_follow_rule_table (u : UserData) :
  (forall mf,
     identifyMissingFields {| userData := u; missingFields := mf |}
     = {| userData := u; missingFields := mf ++ rule_table u |})
  /\ missingFields (identifyMissingFields {| userData := u; missingFields := [] |})
     = rule_table u
  /\ (only_skills_and_languages_missing u ->
      missingFields (identifyMissingFields {| userData := u; missingFields := [] |})
      = ["skills"; "languages"; "references"; "workAuthorizationStatus";
         "socialMediaProfiles"]%string).
Proof.
  split; [|split].
  - intros mf. apply identifyMissingFields_eq.
  - rewrite identifyMissingFields_eq. reflexivity.
  - intros (Hfn & Hem & Hph & Hlo & Hdb & Hed & Hed' & Hex & Hex' & Hsk & Hla
            & Hau & Hso).
    rewrite identifyMissingFields_eq. cbn [missingFields userData app].
    unfold rule_table.
    rewrite Hfn, Hem, Hph, Hlo, Hdb, Hed', Hex', Hsk, Hla, Hau, Hso.
    destruct (education u); [contradiction|].
    destruct (experience u); [contradiction|].
    reflexivity.
Qed.

Lemma missing_fields_follow_rule_table_witness :
  only_skills_and_languages_missing profile_without_skills
  /\ missingFields
       (identifyMissingFields
          {| userData := profile_without_skills; missingFields := [] |})
     = ["skills"; "languages"; "references"; "workAuthorizationStatus";
        "socialMediaProfiles"]%string.
Proof.
  assert (H : only_skills_and_languages_missing profile_without_skills).
  { unfold only_skills_and_languages_missing.
    repeat split; try reflexivity; try discriminate. }
  split; [exact H|].
  apply (proj2 (proj2 (missing_fields_follow_rule_table profile_without_skills))).
  exact H.
Defined.

(** ** The section patterns compute the segmenter *)

Lemma first_success_app l1 l2 st k :
  first_success (l1 ++ l2) st k
  = first_success l1 st k <|> first_success l2 st k.
Proof.
  induction l1 as [|r l1 IH]; simpl.
  - destruct (first_success l2 st k); reflexivity.
  - destruct (rmatch r st k); [reflexivity|exact IH].
Qed.

(** With a continuation that cannot fail, the first keyword standing at the
    position is the one taken. *)
Lemma first_success_keyword kws st k :
  (forall st1, isSome (k st1) = true) ->
  first_success (map lit_ci kws) st k
  = match first_prefix_ci kws (after st) with
    | Some kw => k (skip (length (js kw)) st)
    | None => None
    end.
Proof.
  intros Hk. unfold first_prefix_ci.
  induction kws as [|kw kws IH]; [reflexivity|].
  simpl. rewrite rmatch_lit_ci.
  destruct (prefix_ci (js kw) (after st)); [|exact IH].
  specialize (Hk (skip (length (js kw)) st)).
  destruct (k (skip (length (js kw)) st)); [reflexivity|discriminate].
Qed.

Lemma prefix_ci_length kw :
  forall s, prefix_ci kw s = true -> length kw <= length s.
Proof.
  induction kw as [|k kw IH]; intros s H; simpl; [lia|].
  destruct s as [|c s]; [discriminate|].
  simpl in H. apply andb_true_iff in H as [_ H]. apply IH in H. simpl. lia.
Qed.

Lemma first_prefix_ci_some kws s kw :
  first_prefix_ci kws s = Some kw ->
  In kw kws /\ prefix_ci (js kw) s = true.
Proof. unfold first_prefix_ci. intros H. apply find_some in H. exact H. Qed.

Lemma close_here_eq ts st :
  close_here ts st
  = match first_prefix_ci ts (after st) with
    | Some t => Some (skip (length (js t)) st)
    | None => match after st with [] => Some st | _ :: _ => None end
    end.
Proof.
  unfold close_here. rewrite rmatch_alts, first_success_app.
  rewrite first_success_keyword by reflexivity.
  destruct (first_prefix_ci ts (after st)); [reflexivity|].
  simpl. destruct (after st); reflexivity.
Qed.

Lemma lazy_scan_close ts cp :
  forall aft bef,
    lazy_scan (close_here ts) cp aft bef
    = Some {| before := rev (scan_close ts aft) ++ bef;
              after := skipn (length (scan_close ts aft)) aft;
              caps := cp |}.
Proof.
  induction aft as [|c a IH]; intros bef.
  - simpl lazy_scan. rewrite close_here_eq. simpl after. simpl scan_close.
    destruct (first_prefix_ci ts []) as [t|] eqn:E; [|reflexivity].
    apply first_prefix_ci_some in E as [_ E]. apply prefix_ci_length in E.
    simpl in E. assert (length (js t) = 0) as -> by lia. reflexivity.
  - simpl lazy_scan. rewrite close_here_eq. simpl after. simpl scan_close.
    destruct (first_prefix_ci ts (c :: a)) as [t|] eqn:E.
    + apply first_prefix_ci_some in E as [_ E]. apply prefix_ci_length in E.
      unfold skip. simpl before. simpl after. simpl caps.
      rewrite length_firstn, Nat.min_l by exact E. reflexivity.
    + rewrite IH. simpl. rewrite <- app_assoc. reflexivity.
Qed.

Lemma rmatch_section os ts bef aft cp :
  rmatch (section_regex os ts) {| before := bef; after := aft; caps := cp |} Some
  = match first_prefix_ci os aft with
    | Some o =>
        let w := firstn (length (js o)) aft
                 ++ scan_close ts (skipn (length (js o)) aft) in
        Some {| before := rev w ++ bef;
                after := skipn (length w) aft;
                caps := cp |}
    | None => None
    end.
Proof.
  unfold section_regex.
  change (seqs [alts (map lit_ci os); lazy_any;
                alts (map lit_ci ts ++ [Assert (Eol false)])])
    with (Seq (alts (map lit_ci os))
              (Seq lazy_any (alts (map lit_ci ts ++ [Assert (Eol false)])))).
  rewrite rmatch_Seq, rmatch_alts.
  assert (Hk : forall st1,
    rmatch (Seq lazy_any (alts (map lit_ci ts ++ [Assert (Eol false)]))) st1 Some
    = lazy_scan (close_here ts) (caps st1) (after st1) (before st1)).
  { intros [b a c]. rewrite rmatch_Seq. apply (rmatch_lazy_any (close_here ts)). }
  rewrite first_success_keyword.
  - simpl after. destruct (first_prefix_ci os aft) as [o|] eqn:E; [|reflexivity].
    apply first_prefix_ci_some in E as [_ E]. apply prefix_ci_length in E.
    rewrite Hk, lazy_scan_close. unfold skip. simpl before. simpl after. simpl caps.
    cbv zeta. rewrite rev_app_distr, <- app_assoc.
    rewrite length_app, length_firstn, Nat.min_l by exact E.
    rewrite Nat.add_comm, <- skipn_skipn. reflexivity.
  - intros st1. rewrite Hk, lazy_scan_close. reflexivity.
Qed.

Lemma search_eq r bef aft :
  search r bef aft
  = match rmatch r (start_state bef aft) Some with
    | Some st1 => Some (mk_match (start_state bef aft) st1)
    | None =>
        match aft with
        | [] => None
        | c :: aft' => search r (c :: bef) aft'
        end
    end.
Proof. destruct aft; reflexivity. Qed.

Lemma search_section os ts :
  forall aft bef,
    option_map m_text (search (section_regex os ts) bef aft) = segment os ts aft.
Proof.
  assert (Hc : forall bef aft w,
    consumed (start_state bef aft)
             {| before := rev w ++ bef; after := skipn (length w) aft; caps := [] |}
    = w).
  { intros. apply consumed_span. reflexivity. }
  induction aft as [|c aft IH]; intros bef.
  - rewrite search_eq. unfold start_state at 1. rewrite rmatch_section.
    cbn [segment]. destruct (first_prefix_ci os []); [|reflexivity].
    cbv zeta. cbn [option_map mk_match m_text]. rewrite Hc. reflexivity.
  - rewrite search_eq. unfold start_state at 1. rewrite rmatch_section.
    cbn [segment]. destruct (first_prefix_ci os (c :: aft)); [|apply IH].
    cbv zeta. cbn [option_map mk_match m_text]. rewrite Hc. reflexivity.
Qed.

(** The capture of a section pattern is the segmenter's. *)
Lemma capture_segment os ts text :
  capture (section_regex os ts) text = segment os ts text.
Proof. unfold capture, str_match. apply search_section. Qed.

(** ** What the segmenter captures *)

Lemma prefix_ci_firstn kw :
  forall s, prefix_ci kw s = true -> prefix_ci kw (firstn (length kw) s) = true.
Proof.
  induction kw as [|k kw IH]; intros s H; [reflexivity|].
  destruct s as [|c s]; [discriminate|].
  simpl in *. apply andb_true_iff in H as [H1 H2].
  rewrite H1. simpl. apply IH. exact H2.
Qed.

Lemma keyword_ci_firstn kws kw s :
  In kw kws -> prefix_ci (js kw) s = true ->
  keyword_ci kws (firstn (length (js kw)) s).
Proof.
  intros Hin Hp. exists kw. repeat split; [exact Hin| |].
  - rewrite length_firstn. apply Nat.min_l, prefix_ci_length. exact Hp.
  - apply prefix_ci_firstn. exact Hp.
Qed.

(** The closing scan stops at the first closing keyword, keeps it, and takes
    nothing after it; without one it runs to the end. *)
Lemma scan_close_shape ts :
  forall s,
    exists body close post,
      s = body ++ close ++ post
      /\ scan_close ts s = body ++ close
      /\ (keyword_ci ts close \/ (close = [] /\ post = []))
      /\ (forall b1 b2, body = b1 ++ b2 -> b2 <> [] ->
                        first_prefix_ci ts (b2 ++ close ++ post) = None).
Proof.
  induction s as [|c s IH].
  - simpl scan_close. destruct (first_prefix_ci ts []) as [t|] eqn:E.
    + apply first_prefix_ci_some in E as [Hin Hp].
      exists [], (firstn (length (js t)) []), (skipn (length (js t)) []).
      repeat split.
      * simpl. rewrite firstn_skipn. reflexivity.
      * left. apply keyword_ci_firstn; assumption.
      * intros b1 b2 Hb Hn. destruct b1, b2; try discriminate. congruence.
    + exists [], [], []. repeat split; auto.
      intros b1 b2 Hb Hn. destruct b1, b2; try discriminate. congruence.
  - simpl scan_close. destruct (first_prefix_ci ts (c :: s)) as [t|] eqn:E.
    + apply first_prefix_ci_some in E as [Hin Hp].
      exists [], (firstn (length (js t)) (c :: s)), (skipn (length (js t)) (c :: s)).
      repeat split.
      * simpl app. rewrite firstn_skipn. reflexivity.
      * left. apply keyword_ci_firstn; assumption.
      * intros b1 b2 Hb Hn. destruct b1, b2; try discriminate. congruence.
    + destruct IH as (body & close & post & Hs & Hsc & Hcl & Hmin).
      exists (c :: body), close, post. repeat split.
      * simpl. rewrite <- Hs. reflexivity.
      * simpl. rewrite Hsc. reflexivity.
      * exact Hcl.
      * intros b1 b2 Hb Hn. destruct b1 as [|x b1].
        -- simpl in Hb. subst b2. simpl. rewrite <- Hs. exact E.
        -- simpl in Hb. injection Hb as -> Hb. apply (Hmin b1 b2 Hb Hn).
Qed.

(** The segmenter anchors at the first opening keyword of the text. *)
Lemma segment_some os ts :
  forall text c,
    segment os ts text = Some c ->
    exists pre o rest,
      text = pre ++ rest
      /\ In o os /\ prefix_ci (js o) rest = true
      /\ c = firstn (length (js o)) rest
             ++ scan_close ts (skipn (length (js o)) rest)
      /\ (forall p1 p2, pre = p1 ++ p2 -> p2 <> [] ->
                        first_prefix_ci os (p2 ++ rest) = None).
Proof.
  assert (Hhere : forall text o c,
    first_prefix_ci os text = Some o ->
    Some (firstn (length (js o)) text
          ++ scan_close ts (skipn (length (js o)) text)) = Some c ->
    exists pre o' rest,
      text = pre ++ rest
      /\ In o' os /\ prefix_ci (js o') rest = true
      /\ c = firstn (length (js o')) rest
             ++ scan_close ts (skipn (length (js o')) rest)
      /\ (forall p1 p2, pre = p1 ++ p2 -> p2 <> [] ->
                        first_prefix_ci os (p2 ++ rest) = None)).
  { intros text o c E H. injection H as <-.
    apply first_prefix_ci_some in E as [Hin Hp].
    exists [], o, text. repeat split; auto.
    intros p1 p2 Hb Hn. destruct p1, p2; try discriminate. congruence. }
  induction text as [|x text IH]; intros c H; simpl segment in H.
  - destruct (first_prefix_ci os []) as [o|] eqn:E; [|discriminate].
    eapply Hhere; eassumption.
  - destruct (first_prefix_ci os (x :: text)) as [o|] eqn:E.
    + eapply Hhere; eassumption.
    + apply IH in H as (pre & o & rest & Ht & Hin & Hp & Hc & Hmin).
      exists (x :: pre), o, rest. repeat split; auto.
      * simpl. rewrite Ht. reflexivity.
      * intros p1 p2 Hb Hn. destruct p1 as [|y p1].
        -- simpl in Hb. subst p2. simpl. rewrite <- Ht. exact E.
        -- simpl in Hb. injection Hb as -> Hb. apply (Hmin p1 p2 Hb Hn).
Qed.

Lemma segment_none os ts :
  forall text,
    (forall o, In o os -> occurs_ci (js o) text = false) ->
    segment os ts text = None.
Proof.
  induction text as [|x text IH]; intros H; simpl segment.
  - destruct (first_prefix_ci os []) as [o|] eqn:E; [|reflexivity].
    apply first_prefix_ci_some in E as [Hin Hp].
    specialize (H o Hin). simpl in H. rewrite Hp in H. discriminate.
  - destruct (first_prefix_ci os (x :: text)) as [o|] eqn:E.
    + apply first_prefix_ci_some in E as [Hin Hp].
      specialize (H o Hin). simpl in H. rewrite Hp in H. discriminate.
    + apply IH. intros o Hin. specialize (H o Hin). simpl in H.
      apply orb_false_iff in H as [_ H]. exact H.
Qed.

Lemma section_regex_of_eq k :
  section_regex_of k = section_regex (openers_of k) (terminators_of k).
Proof. destruct k; reflexivity. Qed.

Lemma openers_recognized k o : In o (openers_of k) -> In o all_openers.
Proof.
  unfold all_openers. intros H.
  destruct k; simpl in H; repeat (apply in_or_app; (left; exact H) || right);
    exact H.
Qed.

Lemma no_heading_no_capture text k :
  has_heading text = false -> capture (section_regex_of k) text = None.
Proof.
  intros H. rewrite section_regex_of_eq, capture_segment.
  apply segment_none. intros o Hin.
  unfold has_heading in H.
  destruct (occurs_ci (js o) text) eqn:E; [|reflexivity].
  assert (existsb (fun kw => occurs_ci (js kw) text) all_openers = true).
  { apply existsb_exists. exists o. split; [eapply openers_recognized; eassumption|exact E]. }
  congruence.
Qed.

Lemma capture_none r text : capture r text = None -> str_match r text = None.
Proof. unfold capture. destruct (str_match r text); [discriminate|reflexivity]. Qed.

(** C2, as the design document states it, fails in its second half: on
    [resume_two_sections] the text captured for the education section holds
    the line EXPERIENCE, the heading line of the next section. *)
Lemma education_capture_holds_next_heading :
  capture educationSectionRegex resume_two_sections
  = Some (js "EDUCATION" ++ [LF] ++ js "MIT" ++ [LF] ++ js "EXPERIENCE")
  /\ In (js "EXPERIENCE") (lines resume_two_sections)
  /\ keyword_ci experience_openers (js "EXPERIENCE")
  /\ In (js "EXPERIENCE")
        (lines (js "EDUCATION" ++ [LF] ++ js "MIT" ++ [LF] ++ js "EXPERIENCE")).
Proof.
  split; [vm_compute; reflexivity|].
  split; [vm_compute; tauto|].
  split; [|vm_compute; tauto].
  exists "EXPERIENCE"%string. repeat split. left. reflexivity.
Qed.

(** C2 (amended): a text in which no opening keyword occurs (letter case
    apart) has no section capture of any of the five kinds and yields no
    education, experience, skills or certification entries.  When a section
    is captured, the capture starts at the first opening keyword of its kind
    in the text and runs through the first closing keyword of its pattern
    that follows, that keyword included, or to the end of the text when none
    follows: the boundary includes the closing keyword and nothing after it. *)
Theorem section_capture_boundary (text : jsstring) :
  (has_heading text = false ->
   (forall k, capture (section_regex_of k) text = None)
   /\ education_entries text = Some []
   /\ experience_entries text = Some []
   /\ extracted_skills text = None
   /\ certification_entries text = Some [])
  /\ (forall k c,
        capture (section_regex_of k) text = Some c ->
        exists pre heading body close post,
          text = pre ++ heading ++ body ++ close ++ post
          /\ c = heading ++ body ++ close
          /\ keyword_ci (openers_of k) heading
          /\ (keyword_ci (terminators_of k) close \/ (close = [] /\ post = []))
          /\ (forall p1 p2, pre = p1 ++ p2 -> p2 <> [] ->
                first_prefix_ci (openers_of k)
                                (p2 ++ heading ++ body ++ close ++ post) = None)
          /\ (forall b1 b2, body = b1 ++ b2 -> b2 <> [] ->
                first_prefix_ci (terminators_of k) (b2 ++ close ++ post) = None)).
Proof.
  split.
  - intros H.
    pose proof (fun k => capture_none _ _ (no_heading_no_capture text k H)) as N.
    split; [intros k; apply no_heading_no_capture; exact H|].
    unfold education_entries, experience_entries, extracted_skills,
      certification_entries.
    pose proof (N EducationSection) as N1. pose proof (N ExperienceSection) as N2.
    pose proof (N SkillsSection) as N3. pose proof (N CertificationsSection) as N4.
    cbn [section_regex_of] in N1, N2, N3, N4.
    rewrite N1, N2, N3, N4. auto.
  - intros k c H. rewrite section_regex_of_eq, capture_segment in H.
    apply segment_some in H as (pre & o & rest & Ht & Hin & Hp & Hc & Hfirst).
    destruct (scan_close_shape (terminators_of k) (skipn (length (js o)) rest))
      as (body & close & post & Hs & Hsc & Hcl & Hmin).
    assert (Hrest : rest = firstn (length (js o)) rest ++ body ++ close ++ post)
      by (rewrite <- Hs, firstn_skipn; reflexivity).
    exists pre, (firstn (length (js o)) rest), body, close, post.
    repeat split.
    + rewrite <- Hrest. exact Ht.
    + rewrite Hc, Hsc. reflexivity.
    + apply keyword_ci_firstn; assumption.
    + exact Hcl.
    + intros p1 p2 Hb Hn. rewrite <- Hrest. apply (Hfirst p1 p2 Hb Hn).
    + exact Hmin.
Qed.

Lemma section_capture_boundary_witness :
  (has_heading plain_note = false
   /\ forall k, capture (section_regex_of k) plain_note = None)
  /\ (capture (section_regex_of EducationSection) resume_two_sections
      = Some (js "EDUCATION" ++ [LF] ++ js "MIT" ++ [LF] ++ js "EXPERIENCE")
      /\ exists pre heading body close post,
           resume_two_sections = pre ++ heading ++ body ++ close ++ post
           /\ js "EDUCATION" ++ [LF] ++ js "MIT" ++ [LF] ++ js "EXPERIENCE"
              = heading ++ body ++ close
           /\ keyword_ci (openers_of EducationSection) heading
           /\ (keyword_ci (terminators_of EducationSection) close
               \/ (close = [] /\ post = []))).
Proof.
  assert (H0 : has_heading plain_note = false) by reflexivity.
  assert (H1 : capture (section_regex_of EducationSection) resume_two_sections
               = Some (js "EDUCATION" ++ [LF] ++ js "MIT" ++ [LF] ++ js "EXPERIENCE"))
    by (vm_compute; reflexivity).
  split.
  - split; [exact H0|].
    exact (proj1 (proj1 (section_capture_boundary plain_note) H0)).
  - split; [exact H1|].
    destruct (proj2 (section_capture_boundary resume_two_sections)
                    EducationSection _ H1)
      as (pre & heading & body & close & post & A & B & C & D & _).
    exists pre, heading, body, close, post. auto.
Defined.

(** ** A skills section always yields a skill *)

Lemma heading_letters_solid :
  forallb (fun c =>
    if existsb (eq_ci c) (js "SKTECO") then solid c else true) all_chars = true.
Proof. vm_compute. reflexivity. Qed.

Lemma heading_letter_solid c k :
  In k (js "SKTECO") -> eq_ci c k = true -> solid c = true.
Proof.
  intros Hk Hc. pose proof heading_letters_solid as T.
  rewrite forallb_forall in T. specialize (T c (in_all_chars c)).
  assert (E : existsb (eq_ci c) (js "SKTECO") = true)
    by (apply existsb_exists; exists k; auto).
  rewrite E in T. exact T.
Qed.

(** A code unit equal to [a], letter case apart, is equal to [b] exactly
    when [a] is. *)
Lemma eq_ci_both c a b :
  eq_ci c a = true -> eq_ci c b = ascii_eqb (canon a) (canon b).
Proof.
  unfold eq_ci, ascii_eqb. intros H. apply Nat.eqb_eq in H. rewrite H.
  reflexivity.
Qed.

Lemma skills_head_facts c1 c2 t :
  skills_head (c1 :: c2 :: t) = true ->
  solid c1 = true /\ solid c2 = true /\ filtered_head (c1 :: c2 :: t) = false.
Proof.
  unfold skills_head, filtered_head. intros H.
  apply orb_true_iff in H as [H|H]; [apply orb_true_iff in H as [H|H]|];
    apply andb_true_iff in H as [H1 H2];
    (split; [eapply heading_letter_solid; [|exact H1]; simpl; tauto|]);
    (split; [eapply heading_letter_solid; [|exact H2]; simpl; tauto|]);
    rewrite !(eq_ci_both c1 _ _ H1), !(eq_ci_both c2 _ _ H2); reflexivity.
Qed.

Lemma skills_opener_head o rest x :
  In o skills_openers -> prefix_ci (js o) rest = true ->
  skills_head (firstn (length (js o)) rest ++ x) = true.
Proof.
  intros Hin Hp.
  destruct rest as [|c1 [|c2 rest]];
    [destruct Hin as [<-|[<-|[<-|[]]]]; discriminate
    |destruct Hin as [<-|[<-|[<-|[]]]]; simpl in Hp;
     rewrite andb_false_r in Hp; discriminate|].
  destruct Hin as [<-|[<-|[<-|[]]]]; simpl in Hp;
    apply andb_true_iff in Hp as [H1 Hp]; apply andb_true_iff in Hp as [H2 _];
    simpl; rewrite H1, H2; simpl; rewrite ?orb_true_r; reflexivity.
Qed.

Lemma split_on_head sep :
  forall s cur, exists t rest, split_on sep cur s = (rev cur ++ t) :: rest.
Proof.
  induction s as [|c s IH]; intros cur; simpl.
  - exists [], []. rewrite app_nil_r. reflexivity.
  - destruct (sep c).
    + exists [], (split_on sep [] s). rewrite app_nil_r. reflexivity.
    + destruct (IH (c :: cur)) as (t & rest & ->).
      exists (c :: t), rest. simpl. rewrite <- app_assoc. reflexivity.
Qed.

Lemma trim_start_tail c1 c2 :
  is_space c2 = false ->
  forall x, exists y, trim_start (x ++ [c2; c1]) = y ++ [c2; c1].
Proof.
  intros H2. induction x as [|a x IH]; simpl.
  - rewrite H2. exists []. reflexivity.
  - destruct (is_space a); [exact IH|].
    exists (a :: x). reflexivity.
Qed.

Lemma trim_head c1 c2 t :
  is_space c1 = false -> is_space c2 = false ->
  exists t', trim (c1 :: c2 :: t) = c1 :: c2 :: t'.
Proof.
  intros H1 H2. unfold trim. simpl trim_start at 2. rewrite H1.
  simpl rev at 2. rewrite <- app_assoc. simpl app at 2.
  destruct (trim_start_tail c1 c2 H2 (rev t)) as (y & ->).
  exists (rev y). rewrite rev_app_distr. reflexivity.
Qed.

Lemma first_success_prefix kws st k res :
  first_success (map lit_ci kws) st k = Some res ->
  exists kw, In kw kws /\ prefix_ci (js kw) (after st) = true.
Proof.
  induction kws as [|kw kws IH]; [discriminate|].
  simpl. rewrite rmatch_lit_ci.
  destruct (prefix_ci (js kw) (after st)) eqn:E.
  - intros _. exists kw. auto.
  - intros H. apply IH in H as (kw' & Hin & Hp). exists kw'. auto.
Qed.

(** A pattern anchored by [^] only matches at the start of the text. *)
Lemma search_anchored r :
  forall aft bef,
    bef <> [] -> search (Seq (Assert (Bol false)) r) bef aft = None.
Proof.
  induction aft as [|c aft IH]; intros bef Hb;
    rewrite search_eq, rmatch_Seq, rmatch_Assert;
    destruct bef as [|b bef]; try contradiction;
    cbn [check start_state before andb].
  - reflexivity.
  - apply IH. discriminate.
Qed.

Lemma headingOnly_head s :
  test headingOnlyRegex s = true -> filtered_head s = true.
Proof.
  unfold test, str_match, headingOnlyRegex.
  change (seqs [Assert (Bol false);
                alts (map lit_ci ["LANGUAGES"; "EXPERIENCE"; "EDUCATION";
                                  "CERTIFICATIONS"]%string);
                Assert (Eol false)])
    with (Seq (Assert (Bol false))
              (Seq (alts (map lit_ci ["LANGUAGES"; "EXPERIENCE"; "EDUCATION";
                                      "CERTIFICATIONS"]%string))
                   (Assert (Eol false)))).
  rewrite search_eq.
  destruct (rmatch _ (start_state [] s) Some) as [res|] eqn:E.
  - intros _. rewrite rmatch_Seq, rmatch_Assert in E.
    cbn [check start_state before] in E. cbv beta in E.
    rewrite rmatch_Seq, rmatch_alts in E.
    apply first_success_prefix in E as (kw & Hin & Hp). simpl after in Hp.
    destruct s as [|c1 [|c2 s]];
      [destruct Hin as [<-|[<-|[<-|[<-|[]]]]]; discriminate
      |destruct Hin as [<-|[<-|[<-|[<-|[]]]]]; simpl in Hp;
       rewrite andb_false_r in Hp; discriminate|].
    destruct Hin as [<-|[<-|[<-|[<-|[]]]]]; simpl in Hp;
      apply andb_true_iff in Hp as [H1 Hp]; apply andb_true_iff in Hp as [H2 _];
      simpl; rewrite H1, H2; simpl; rewrite ?orb_true_r; reflexivity.
  - destruct s as [|c s]; [discriminate|].
    rewrite search_anchored by discriminate. discriminate.
Qed.

Lemma dedup_nonempty x l : dedup (x :: l) <> [].
Proof. unfold dedup. simpl. discriminate. Qed.

Lemma skillsList_nonempty sec :
  skills_head sec = true -> skillsList sec <> [].
Proof.
  intros H. destruct sec as [|c1 [|c2 t]]; try discriminate.
  destruct (skills_head_facts c1 c2 t H) as (S1 & S2 & _).
  unfold solid in S1, S2.
  apply andb_true_iff in S1 as [P1 W1]. apply andb_true_iff in S2 as [P2 W2].
  apply negb_true_iff in P1, W1, P2, W2.
  unfold skillsList, split. simpl split_on. rewrite P1, P2.
  destruct (split_on_head skills_separator t [c2; c1]) as (tok & rest & ->).
  simpl rev. simpl app. simpl map.
  destruct (trim_head c1 c2 tok W1 W2) as (tok' & ->).
  simpl filter.
  assert (Hh : skills_head (c1 :: c2 :: tok') = true) by exact H.
  destruct (skills_head_facts c1 c2 tok' Hh) as (_ & _ & F).
  destruct (test headingOnlyRegex (c1 :: c2 :: tok')) eqn:E.
  - apply headingOnly_head in E. congruence.
  - simpl. discriminate.
Qed.

Lemma extracted_skills_nonempty text l :
  extracted_skills text = Some l -> l <> [].
Proof.
  unfold extracted_skills.
  destruct (str_match skillsSectionRegex text) as [m|] eqn:E; [|discriminate].
  intros [= <-].
  assert (Hc : capture skillsSectionRegex text = Some (m_text m))
    by (unfold capture; rewrite E; reflexivity).
  change skillsSectionRegex with (section_regex skills_openers skills_terminators) in Hc.
  rewrite capture_segment in Hc.
  apply segment_some in Hc as (pre & o & rest & _ & Hin & Hp & Hc & _).
  pose proof (skills_opener_head o rest
                (scan_close skills_terminators (skipn (length (js o)) rest))
                Hin Hp) as Hh.
  rewrite <- Hc in Hh. apply skillsList_nonempty in Hh.
  destruct (skillsList (m_text m)) as [|x l]; [contradiction|].
  apply dedup_nonempty.
Qed.

(** ** Extraction never empties a populated field *)

Lemma group_nonfalsy r n text m :
  group_has_char n any_char r = true ->
  str_match r text = Some m -> falsy (group n m) = false.
Proof.
  intros Hr H.
  apply str_match_sound in H as (pre & st0 & st1 & S & _ & _ & _ & _ & _ & Cp).
  destruct (group_has_char_sound n any_char r st0 st1 S Hr) as (w & c & Hw & Hin & _).
  unfold group. rewrite Cp, Hw. destruct w; [contradiction|reflexivity].
Qed.

Lemma text_nonfalsy r text m :
  has_char any_char r = true ->
  str_match r text = Some m -> falsy (Some (m_text m)) = false.
Proof.
  intros Hr H.
  apply str_match_sound in H as (pre & st0 & st1 & S & _ & _ & _ & _ & Tx & _).
  destruct (has_char_sound any_char r st0 st1 S Hr) as (c & Hin & _).
  rewrite Tx. destruct (consumed st0 st1); [contradiction|reflexivity].
Qed.

Lemma falsy_js_or a b :
  falsy a = false \/ falsy b = false -> falsy (js_or a b) = false.
Proof.
  destruct a as [[|c s]|]; simpl; intros [H|H]; try discriminate; auto.
Qed.

Lemma sem_Alt_inv r1 r2 st st' :
  sem (Alt r1 r2) st st' -> sem r1 st st' \/ sem r2 st st'.
Proof. intros H. inversion H; subst; auto. Qed.

Lemma location_nonfalsy text m :
  str_match locationRegex text = Some m ->
  falsy (js_or (group 1 m) (group 2 m)) = false.
Proof.
  intros H.
  apply str_match_sound in H as (pre & st0 & st1 & S & _ & _ & _ & _ & _ & Cp).
  unfold locationRegex in S. apply sem_Alt_inv in S as [S|S];
    apply falsy_js_or; [left|right];
    [apply (group_has_char_sound 1 any_char) in S; [|vm_compute; reflexivity]
    |apply (group_has_char_sound 2 any_char) in S; [|vm_compute; reflexivity]];
    destruct S as (w & c & Hw & Hin & _); unfold group; rewrite Cp, Hw;
    destruct w; try contradiction; reflexivity.
Qed.

Lemma merged_personalInfo_keeps text i :
  (falsy (fullName i) = false ->
   falsy (fullName (merged_personalInfo text i)) = false)
  /\ (falsy (email i) = false ->
      falsy (email (merged_personalInfo text i)) = false)
  /\ (falsy (phone i) = false ->
      falsy (phone (merged_personalInfo text i)) = false)
  /\ (falsy (location i) = false ->
      falsy (location (merged_personalInfo text i)) = false)
  /\ (falsy (dateOfBirth i) = false ->
      falsy (dateOfBirth (merged_personalInfo text i)) = false).
Proof.
  unfold merged_personalInfo. simpl. repeat split; intros H.
  - destruct (str_match nameRegex text) eqn:E; [|exact H].
    eapply group_nonfalsy; [|exact E]. vm_compute. reflexivity.
  - destruct (str_match emailRegex text) eqn:E; [|exact H].
    eapply text_nonfalsy; [|exact E]. vm_compute. reflexivity.
  - destruct (str_match phoneRegex text) eqn:E; [|exact H].
    eapply text_nonfalsy; [|exact E]. vm_compute. reflexivity.
  - destruct (str_match locationRegex text) eqn:E; [|exact H].
    apply location_nonfalsy with (text := text). exact E.
  - destruct (str_match dobRegex text) eqn:E; [|exact H].
    eapply group_nonfalsy; [|exact E]. vm_compute. reflexivity.
Qed.

Lemma merged_personalInfo_empty text i :
  str_match nameRegex text = None -> str_match emailRegex text = None ->
  str_match phoneRegex text = None -> str_match locationRegex text = None ->
  str_match dobRegex text = None ->
  merged_personalInfo text i = i.
Proof.
  unfold merged_personalInfo. intros -> -> -> -> ->. destruct i. reflexivity.
Qed.

(** C4, as the design document states it, fails in its last part.  The text
    "SKILLS" is an empty fragment in its sense: no personal-info pattern
    matches, no entry is found, and the skills section is the heading alone,
    with zero skills under it.  Yet the pass stores the heading as a skill:
    the list the populated parser held, Go and Rust, is not left intact. *)
Lemma empty_skills_section_replaces_skills :
  no_match_no_entry bare_skills_heading
  /\ capture skillsSectionRegex bare_skills_heading = Some (js "SKILLS")
  /\ skills (userData populated_parser) = [js "Go"; js "Rust"]
  /\ exists p',
       extractInformation bare_skills_heading populated_parser = Some p'
       /\ skills (userData p') = [js "SKILLS"]
       /\ skills (userData p') <> skills (userData populated_parser).
Proof.
  split; [unfold no_match_no_entry; repeat split; vm_compute; reflexivity|].
  split; [vm_compute; reflexivity|]. split; [reflexivity|].
  eexists. split; [vm_compute; reflexivity|].
  split; [reflexivity|]. simpl. discriminate.
Qed.

(** C4 (amended): merging an extraction result never overwrites a populated
    field with null or empty.  One pass over any text ends; every personal
    field that was populated before is populated after; a non-empty skills
    list stays non-empty (a skills section always yields at least one skill,
    so the assignment in [extractSkills] cannot store an empty list); the
    entry lists are only appended to.  A text from which nothing is
    extracted and which holds no skills section leaves the parser, its
    skills list included, exactly as it was.  A text that holds a skills
    section replaces the stored list by the skills of that section, whatever
    the list was. *)
Theorem extraction_never_empties (text : jsstring) (p : ResumeParser) :
  exists p',
    extractInformation text p = Some p'
    /\ (let i := personalInfo (userData p) in
        let i' := personalInfo (userData p') in
        (falsy (fullName i) = false -> falsy (fullName i') = false)
        /\ (falsy (email i) = false -> falsy (email i') = false)
        /\ (falsy (phone i) = false -> falsy (phone i') = false)
        /\ (falsy (location i) = false -> falsy (location i') = false)
        /\ (falsy (dateOfBirth i) = false -> falsy (dateOfBirth i') = false))
    /\ (skills (userData p) <> [] -> skills (userData p') <> [])
    /\ (forall l, extracted_skills text = Some l -> l <> [])
    /\ (exists es, education (userData p') = education (userData p) ++ es)
    /\ (exists xs, experience (userData p') = experience (userData p) ++ xs)
    /\ (exists ls, languages (userData p') = languages (userData p) ++ ls)
    /\ (exists cs, certifications (userData p')
                   = certifications (userData p) ++ cs)
    /\ (nothing_extracted text -> p' = p)
    /\ (forall l, extracted_skills text = Some l -> skills (userData p') = l).
Proof.
  destruct (extractInformation_total text p) as (es & xs & cs & He & Hx & Hc & H1).
  exists (after_pass text p es xs cs). split; [exact H1|].
  split; [cbv zeta; simpl; apply merged_personalInfo_keeps|].
  split.
  { simpl. intros Hs. destruct (extracted_skills text) as [l|] eqn:E; [|exact Hs].
    eapply extracted_skills_nonempty. exact E. }
  split; [intros l; apply extracted_skills_nonempty|].
  split; [exists es; reflexivity|]. split; [exists xs; reflexivity|].
  split; [exists (language_entries text); reflexivity|].
  split; [exists cs; reflexivity|].
  split.
  - intros ((N1 & N2 & N3 & N4 & N5 & E1 & E2 & E4 & E5) & Hs).
    rewrite E1 in He. rewrite E2 in Hx. rewrite E5 in Hc.
    injection He as <-. injection Hx as <-. injection Hc as <-.
    unfold after_pass. rewrite E4, !app_nil_r.
    rewrite (merged_personalInfo_empty text _ N1 N2 N3 N4 N5).
    rewrite Hs. destruct p as [[i ed ex sk la ce] mf]. reflexivity.
  - intros l E. simpl. rewrite E. reflexivity.
Qed.

Lemma extraction_never_empties_witness :
  nothing_extracted plain_note
  /\ extractInformation plain_note populated_parser = Some populated_parser
  /\ skills (userData populated_parser) = [js "Go"; js "Rust"].
Proof.
  assert (H : nothing_extracted plain_note).
  { unfold nothing_extracted, no_match_no_entry.
    repeat split; vm_compute; reflexivity. }
  split; [exact H|].
  destruct (extraction_never_empties plain_note populated_parser)
    as (p' & Hrun & _ & _ & _ & _ & _ & _ & _ & Hsame & _).
  rewrite (Hsame H) in Hrun. split; [exact Hrun|reflexivity].
Defined.

(** A skills heading with nothing under it is itself taken for a skill and
    replaces the stored list. *)
Remark bare_heading_replaces_skills :
  exists p',
    extractInformation bare_skills_heading populated_parser = Some p'
    /\ skills (userData p') = [js "SKILLS"].
Proof. eexists. split; vm_compute; reflexivity. Qed.

(** ** Unsupported formats *)

Lemma ascii_eqb_eq a b : ascii_eqb a b = true <-> a = b.
Proof.
  unfold ascii_eqb, code. rewrite Nat.eqb_eq. split; [|intros ->; reflexivity].
  intros H. rewrite <- (ascii_nat_embedding a), <- (ascii_nat_embedding b), H.
  reflexivity.
Qed.

Lemma str_eqb_eq a : forall b, str_eqb a b = true <-> a = b.
Proof.
  induction a as [|x a IH]; intros [|y b]; simpl; split; try discriminate; auto.
  - intros H. apply andb_true_iff in H as [H1 H2].
    apply ascii_eqb_eq in H1. apply IH in H2. congruence.
  - intros [= -> ->]. apply andb_true_iff. split.
    + apply ascii_eqb_eq. reflexivity.
    + apply IH. reflexivity.
Qed.

Lemma str_eqb_neq a b : a <> b -> str_eqb a b = false.
Proof.
  intros H. destruct (str_eqb a b) eqn:E; [|reflexivity].
  apply str_eqb_eq in E. contradiction.
Qed.

(** C9: parsing a file whose extension (as [path.extname] gives it, letter
    case apart) is none of .pdf, .docx, .txt throws the unsupported-format
    error and returns nothing.  For .pdf the call stands or falls with the
    pdf decoder, for .docx with the docx decoder, for .txt with the reading
    of the file: it throws the error of that decoder when it has one, and
    returns the parse of the text that decoder gave otherwise; in neither
    case does it throw the unsupported-format error. *)
Theorem unsupported_format_is_fatal
        (DecodeError : Type)
        (pdf_text docx_text txt_text : jsstring -> DecodeError + jsstring)
        (filePath : jsstring) (p : ResumeParser) :
  let result := parseResume pdf_text docx_text txt_text filePath p in
  (fileExt filePath <> js ".pdf" -> fileExt filePath <> js ".docx" ->
   fileExt filePath <> js ".txt" ->
   result = Thrown (UnsupportedFileFormat DecodeError))
  /\ (fileExt filePath = js ".pdf" -> parsed_through pdf_text filePath p result)
  /\ (fileExt filePath = js ".docx" -> parsed_through docx_text filePath p result)
  /\ (fileExt filePath = js ".txt" -> parsed_through txt_text filePath p result)
  /\ (fileExt filePath = js ".pdf" \/ fileExt filePath = js ".docx"
      \/ fileExt filePath = js ".txt" ->
      result <> Thrown (UnsupportedFileFormat DecodeError)).
Proof.
  assert (Hthrough : forall decode,
    parsed_through decode filePath p
      (match decode filePath
             return outcome (parse_error DecodeError) ResumeParser with
       | inl e => Thrown (DecoderFailed e)
       | inr text =>
           match extractInformation text p with
           | Some p' => Returned (identifyMissingFields p')
           | None => Diverges
           end
       end)).
  { intros decode. unfold parsed_through.
    destruct (decode filePath) as [e|text]; [reflexivity|].
    destruct (extractInformation_total text p) as (es & xs & cs & _ & _ & _ & E).
    rewrite E. eauto. }
  assert (Hno : forall decode : jsstring -> DecodeError + jsstring,
    match decode filePath
          return outcome (parse_error DecodeError) ResumeParser with
    | inl e => Thrown (DecoderFailed e)
    | inr text =>
        match extractInformation text p with
        | Some p' => Returned (identifyMissingFields p')
        | None => Diverges
        end
    end <> Thrown (UnsupportedFileFormat DecodeError)).
  { intros decode. destruct (decode filePath) as [e|text]; [discriminate|].
    destruct (extractInformation text p); discriminate. }
  cbv zeta. unfold parseResume, select_decoder. fold (fileExt filePath).
  split; [|split; [|split; [|split]]].
  - intros N1 N2 N3.
    rewrite (str_eqb_neq _ _ N1), (str_eqb_neq _ _ N2), (str_eqb_neq _ _ N3).
    reflexivity.
  - intros ->. apply Hthrough.
  - intros ->. apply Hthrough.
  - intros ->. apply Hthrough.
  - intros [-> | [-> | ->]]; apply Hno.
Qed.

Lemma unsupported_format_is_fatal_witness :
  (fileExt (js "cv/resume.odt") = js ".odt"
   /\ parseResume (constant_decoder plain_note) (constant_decoder plain_note)
                  (constant_decoder plain_note) (js "cv/resume.odt")
                  new_ResumeParser
      = Thrown (UnsupportedFileFormat unit))
  /\ (fileExt (js "cv/Resume.TXT") = js ".txt"
      /\ parsed_through (constant_decoder plain_note) (js "cv/Resume.TXT")
                        new_ResumeParser
                        (parseResume failing_decoder failing_decoder
                                     (constant_decoder plain_note)
                                     (js "cv/Resume.TXT") new_ResumeParser))
  /\ (fileExt (js "cv/resume.pdf") = js ".pdf"
      /\ parseResume failing_decoder (constant_decoder plain_note)
                     (constant_decoder plain_note) (js "cv/resume.pdf")
                     new_ResumeParser
         = Thrown (DecoderFailed tt)).
Proof.
  split; [|split].
  - split; [reflexivity|].
    apply (proj1 (unsupported_format_is_fatal unit
                    (constant_decoder plain_note) (constant_decoder plain_note)
                    (constant_decoder plain_note) (js "cv/resume.odt")
                    new_ResumeParser)); vm_compute; discriminate.
  - assert (H : fileExt (js "cv/Resume.TXT") = js ".txt") by reflexivity.
    split; [exact H|].
    apply (proj1 (proj2 (proj2 (proj2 (unsupported_format_is_fatal unit
                    failing_decoder failing_decoder
                    (constant_decoder plain_note) (js "cv/Resume.TXT")
                    new_ResumeParser)))) H).
  - assert (H : fileExt (js "cv/resume.pdf") = js ".pdf") by reflexivity.
    split; [exact H|].
    apply (proj1 (proj2 (unsupported_format_is_fatal unit
                    failing_decoder (constant_decoder plain_note)
                    (constant_decoder plain_note) (js "cv/resume.pdf")
                    new_ResumeParser)) H).
Defined.

(** ** CV import *)

(** C10: the CV-JSON import never analyses completeness.  Whenever the file
    can be read and parsed, [importCVJson] returns the converted user data
    together with an empty [missingFields]; whatever it returns has an empty
    [missingFields]; otherwise it throws.  The converted data plays no part:
    the empty CV object, whose conversion has no email, no education and no
    language, is reported with no missing field either. *)
Theorem import_reports_no_missing_fields
        (parse_cv : jsstring -> option CvUtils.CvData)
        (stringify_cv : CvUtils.CvUserData -> jsstring)
        (jsonFilePath : jsstring) (fs : CvUtils.FileSystem) :
  (forall content cv,
     CvUtils.files fs !! jsonFilePath = Some content ->
     parse_cv content = Some cv ->
     exists fs',
       CvUtils.importCVJson parse_cv stringify_cv jsonFilePath fs
       = (Returned {| CvUtils.res_userData := CvUtils.convertToUserData cv;
                      CvUtils.res_missingFields := [] |}, fs'))
  /\ (forall r fs',
        CvUtils.importCVJson parse_cv stringify_cv jsonFilePath fs
        = (Returned r, fs') ->
        CvUtils.res_missingFields r = [])
  /\ fst (CvUtils.importCVJson parse_cv stringify_cv jsonFilePath fs) <> Diverges.
Proof.
  unfold CvUtils.importCVJson. repeat split.
  - intros content cv -> ->. eexists. reflexivity.
  - intros r fs'. destruct (CvUtils.files fs !! jsonFilePath) as [content|];
      [|discriminate].
    destruct (parse_cv content) as [cv|]; [|discriminate].
    intros [= <- _]. reflexivity.
  - destruct (CvUtils.files fs !! jsonFilePath) as [content|]; [|discriminate].
    destruct (parse_cv content) as [cv|]; discriminate.
Qed.

Lemma import_reports_no_missing_fields_witness :
  CvUtils.cv_email (CvUtils.cvu_personalInfo (CvUtils.convertToUserData empty_cv))
  = None
  /\ CvUtils.cvu_education (CvUtils.convertToUserData empty_cv) = []
  /\ CvUtils.cvu_languages (CvUtils.convertToUserData empty_cv) = []
  /\ exists fs',
       CvUtils.importCVJson (fun _ => Some empty_cv) (fun _ => js "{}")
                            (js "cv.json") (one_file_fs (js "cv.json") (js "{}"))
       = (Returned {| CvUtils.res_userData := CvUtils.convertToUserData empty_cv;
                      CvUtils.res_missingFields := [] |}, fs').
Proof.
  split; [reflexivity|]. split; [reflexivity|]. split; [reflexivity|].
  apply (proj1 (import_reports_no_missing_fields
                  (fun _ => Some empty_cv) (fun _ => js "{}")
                  (js "cv.json") (one_file_fs (js "cv.json") (js "{}")))
           (js "{}") empty_cv).
  - apply lookup_singleton_eq.
  - reflexivity.
Defined.

(** ** Autofill *)







(** ** Classification *)



(** ** Authentication *)

Lemma first_visible_eq l b :
  Bot.first_visible l b = (Some (visible_in (Bot.page b) l), b).
Proof.
  induction l as [|s l IH]; [reflexivity|].
  simpl. unfold mbind, Bot.M_bind, Bot.mbind, Bot.page_query, Bot.get. simpl.
  destruct (Bot.query (Bot.page b) s) as [h|]; [|exact IH].
  destruct (Bot.visible h); [reflexivity|exact IH].
Qed.

Lemma checkIfStillLoggedIn_eq b :
  Bot.checkIfStillLoggedIn b = (Some (still_logged_in (Bot.page b)), b).
Proof.
  unfold Bot.checkIfStillLoggedIn, still_logged_in, mbind, Bot.M_bind, Bot.mbind.
  rewrite first_visible_eq.
  destruct (visible_in (Bot.page b) Bot.loginIndicators); [reflexivity|].
  rewrite first_visible_eq.
  destruct (visible_in (Bot.page b) Bot.loggedInIndicators); reflexivity.
Qed.

Lemma handleGenericLogin_no_credential respond domain b :
  Bot.generic_credential domain b = None ->
  Bot.handleGenericLogin respond domain b = (Some false, b).
Proof.
  intros Hc.
  unfold Bot.handleGenericLogin, Bot.try_catch, mbind, Bot.M_bind, Bot.mbind.
  rewrite !first_visible_eq.
  unfold Bot.generic_flow.
  destruct (visible_in (Bot.page b) Bot.usernameSelectors); [|reflexivity].
  destruct (visible_in (Bot.page b) Bot.passwordSelectors); [|reflexivity].
  destruct (visible_in (Bot.page b) Bot.submitSelectors); [|reflexivity].
  unfold mbind, Bot.M_bind, Bot.mbind, Bot.get. rewrite Hc. reflexivity.
Qed.

Lemma handleGenericLogin_missing_element respond domain b :
  visible_in (Bot.page b) Bot.usernameSelectors = None
  \/ visible_in (Bot.page b) Bot.passwordSelectors = None
  \/ visible_in (Bot.page b) Bot.submitSelectors = None ->
  Bot.handleGenericLogin respond domain b = (Some false, b).
Proof.
  intros H.
  unfold Bot.handleGenericLogin, Bot.try_catch, mbind, Bot.M_bind, Bot.mbind.
  rewrite !first_visible_eq.
  unfold Bot.generic_flow.
  destruct H as [-> | [-> | ->]].
  - reflexivity.
  - destruct (visible_in (Bot.page b) Bot.usernameSelectors); reflexivity.
  - destruct (visible_in (Bot.page b) Bot.usernameSelectors);
      [destruct (visible_in (Bot.page b) Bot.passwordSelectors)|]; reflexivity.
Qed.

(** C8, as the design document states it, fails: a bot that holds a saved
    session for jobs.example.com (no registry match, no credential of any
    kind) on a page showing a signed-in marker is authenticated. *)
Lemma saved_session_authenticates :
  unregistered (js "jobs.example.com")
  /\ Bot.generic_credential (js "jobs.example.com") bot_with_session = None
  /\ Bot.authenticate dead_browser (js "jobs.example.com") bot_with_session
     = (Some true, bot_with_session)
  /\ Bot.handleAuthentication dead_browser
       (fun _ => Some (js "jobs.example.com"))
       (js "https://jobs.example.com/posting/1") bot_with_session
     = (Some true, bot_with_session).
Proof.
  assert (Hs : Bot.loggedInSites bot_with_session !! js "jobs.example.com"
               = Some {| Bot.session_username := Some (js "jane");
                         Bot.session_cookie := None |})
    by apply lookup_singleton_eq.
  assert (Ha : Bot.authenticate dead_browser (js "jobs.example.com")
                 bot_with_session = (Some true, bot_with_session)).
  { unfold Bot.authenticate, mbind, Bot.M_bind, Bot.mbind, Bot.get.
    rewrite Hs. rewrite bool_decide_eq_true_2 by eauto.
    rewrite checkIfStillLoggedIn_eq. reflexivity. }
  repeat split; try reflexivity; exact Ha.
Qed.

(** C8 (amended): for a domain that matches no entry of the registry, for
    which [genericCredentials[domain]] is undefined (the object is missing,
    or it has no entry for the domain and the domain is not the name of a
    member it inherits, such as constructor), and for which no saved session
    is still valid (none is stored, or the page does not show the bot signed
    in), authentication ends in failure and nothing is done to the page: the
    bot, its action trace included, is what it was, so no element is
    filled.  The generic flow fails in the same way, with no action at all,
    as soon as one of the username, password or submit elements does not
    resolve to a visible element. *)
Theorem unregistered_domain_fails
        (respond : Bot.Action -> Bot.Page -> option Bot.Page)
        (domain : jsstring) (b : Bot.BotState) :
  (unregistered domain ->
   Bot.generic_credential domain b = None ->
   Bot.loggedInSites b !! domain = None
   \/ still_logged_in (Bot.page b) = false ->
   Bot.authenticate respond domain b = (Some false, b)
   /\ forall hostname u,
        hostname u = Some domain ->
        Bot.handleAuthentication respond hostname u b = (Some false, b))
  /\ (visible_in (Bot.page b) Bot.usernameSelectors = None
      \/ visible_in (Bot.page b) Bot.passwordSelectors = None
      \/ visible_in (Bot.page b) Bot.submitSelectors = None ->
      Bot.handleGenericLogin respond domain b = (Some false, b)).
Proof.
  split; [|apply handleGenericLogin_missing_element].
  intros (H1 & H2 & H3) Hc Hs.
  assert (Ha : Bot.authenticate respond domain b = (Some false, b)).
  { unfold Bot.authenticate, mbind, Bot.M_bind, Bot.mbind, Bot.get.
    assert (Hstill :
      (if bool_decide (is_Some (Bot.loggedInSites b !! domain))
       then Bot.checkIfStillLoggedIn else Bot.ret false) b = (Some false, b)).
    { destruct Hs as [Hs|Hs].
      - rewrite Hs. rewrite bool_decide_eq_false_2; [reflexivity|].
        intros [x Hx]. discriminate.
      - destruct (bool_decide _); [|reflexivity].
        rewrite checkIfStillLoggedIn_eq, Hs. reflexivity. }
    destruct (bool_decide (is_Some (Bot.loggedInSites b !! domain)));
      rewrite Hstill; rewrite H1, H2, H3;
      apply handleGenericLogin_no_credential; exact Hc. }
  split; [exact Ha|].
  intros hostname u Hu. unfold Bot.handleAuthentication. rewrite Hu. exact Ha.
Qed.

Lemma unregistered_domain_fails_witness :
  unregistered (js "jobs.example.com")
  /\ Bot.generic_credential (js "jobs.example.com") bot_at_login_form = None
  /\ Bot.loggedInSites bot_at_login_form !! js "jobs.example.com" = None
  /\ (visible_in login_form_page Bot.usernameSelectors <> None
      /\ visible_in login_form_page Bot.passwordSelectors <> None
      /\ visible_in login_form_page Bot.submitSelectors <> None)
  /\ Bot.authenticate dead_browser (js "jobs.example.com") bot_at_login_form
     = (Some false, bot_at_login_form)
  /\ Bot.handleGenericLogin dead_browser (js "jobs.example.com")
                            bot_without_session
     = (Some false, bot_without_session).
Proof.
  assert (H1 : unregistered (js "jobs.example.com")) by (repeat split).
  assert (H2 : Bot.generic_credential (js "jobs.example.com") bot_at_login_form
               = None) by reflexivity.
  assert (H3 : Bot.loggedInSites bot_at_login_form !! js "jobs.example.com"
               = None) by apply lookup_empty.
  split; [exact H1|]. split; [exact H2|]. split; [exact H3|].
  split; [repeat split; vm_compute; discriminate|]. split.
  - apply (proj1 (proj1 (unregistered_domain_fails dead_browser
                           (js "jobs.example.com") bot_at_login_form)
                        H1 H2 (or_introl H3))).
  - apply (proj2 (unregistered_domain_fails dead_browser
                    (js "jobs.example.com") bot_without_session)).
    left. reflexivity.
Defined.

(** ** Further properties of the code *)

(** X1. Extraction ends on every text and every parser: each of the three
    [exec] loops (education, experience, certifications) runs a pattern
    that cannot match the empty string, so [lastIndex] moves forward on
    every round. *)
Theorem extraction_always_returns (text : jsstring) (p : ResumeParser) :
  exists p', extractInformation text p = Some p'.
Proof.
  destruct (extractInformation_total text p) as (es & xs & cs & _ & _ & _ & H).
  eexists. exact H.
Qed.

(** X2. Each of the five section patterns computes the segmenter: the capture
    starts at the first opening keyword of the kind, letter case apart, and
    runs through the first closing keyword that follows or to the end of the
    text. *)
Theorem section_pattern_is_segmenter (k : section_kind) (text : jsstring) :
  capture (section_regex_of k) text
  = segment (openers_of k) (terminators_of k) text.
Proof. rewrite section_regex_of_eq. apply capture_segment. Qed.

(** X3. The two keyword rules of the completeness analysis are substring
    tests: the pattern is found in the lower-cased serialisation of the
    profile exactly when one of its keywords occurs in it. *)
Theorem keyword_rules_are_substring_tests (u : UserData) :
  test authorizationRegex (toLowerCase (JSON_stringify u))
  = keyword_appears authorization_keywords u
  /\ test socialRegex (toLowerCase (JSON_stringify u))
     = keyword_appears social_keywords u.
Proof.
  split.
  - change authorizationRegex with (alts (map lit_ci authorization_keywords)).
    apply keyword_test. vm_compute. reflexivity.
  - change socialRegex with (alts (map lit_ci social_keywords)).
    apply keyword_test. vm_compute. reflexivity.
Qed.

Lemma split_single_token sep :
  forall s cur,
    forallb (fun c => negb (sep c)) s = true ->
    split_on sep cur s = [rev cur ++ s].
Proof.
  induction s as [|c s IH]; intros cur H; simpl.
  - rewrite app_nil_r. reflexivity.
  - simpl in H. apply andb_true_iff in H as [Hc H].
    apply negb_true_iff in Hc. rewrite Hc, IH by exact H.
    simpl. rewrite <- app_assoc. reflexivity.
Qed.

Lemma split_on_first sep c :
  forall a cur rest,
    forallb (fun x => negb (sep x)) a = true -> sep c = true ->
    split_on sep cur (a ++ c :: rest) = (rev cur ++ a) :: split_on sep [] rest.
Proof.
  induction a as [|x a IH]; intros cur rest Ha Hc; simpl.
  - rewrite Hc, app_nil_r. reflexivity.
  - simpl in Ha. apply andb_true_iff in Ha as [Hx Ha].
    apply negb_true_iff in Hx. rewrite Hx, IH by assumption.
    simpl. rewrite <- app_assoc. reflexivity.
Qed.

Lemma split_on_nonempty sep : forall s cur, split_on sep cur s <> [].
Proof.
  induction s as [|c s IH]; intros cur; simpl; [discriminate|].
  destruct (sep c); [discriminate|apply IH].
Qed.

Lemma split_on_last sep c b :
  forallb (fun x => negb (sep x)) b = true -> sep c = true ->
  forall pre cur,
    last (map Some (split_on sep cur (pre ++ c :: b))) None = Some b.
Proof.
  intros Hb Hc. induction pre as [|x pre IH]; intros cur.
  - simpl. rewrite Hc. rewrite (split_single_token sep b [] Hb). reflexivity.
  - simpl. destruct (sep x).
    + specialize (IH []).
      destruct (split_on sep [] (pre ++ c :: b)) eqn:E;
        [exfalso; eapply split_on_nonempty; exact E|].
      exact IH.
    + apply IH.
Qed.

Lemma computed_firstName u input first rest :
  has_name u (first ++ " "%char :: rest) ->
  no_blank first = true ->
  ContentScript.computed_value u input ContentScript.firstName
  = ContentScript.Normal (Some first).
Proof.
  intros (info & Hi & Hn) Hf.
  unfold ContentScript.computed_value, ContentScript.personal. rewrite Hi, Hn.
  assert (E : hd_error (split ContentScript.is_blank (first ++ " "%char :: rest))
              = Some first).
  { unfold split.
    rewrite (split_on_first ContentScript.is_blank " " first [] rest Hf eq_refl).
    reflexivity. }
  rewrite <- E. destruct first; reflexivity.
Qed.

Lemma computed_lastName u input pre last :
  has_name u (pre ++ " "%char :: last) ->
  no_blank last = true ->
  ContentScript.computed_value u input ContentScript.lastName
  = ContentScript.Normal (Some last).
Proof.
  intros (info & Hi & Hn) Hl.
  unfold ContentScript.computed_value, ContentScript.personal. rewrite Hi, Hn.
  rewrite <- (split_on_last ContentScript.is_blank " " last Hl eq_refl pre []).
  destruct pre; reflexivity.
Qed.

(** X4. The first-name value is the text of the full name before its first
    space, and the last-name value the text after its last space, however
    many spaces the name holds; a name without a space gives itself for
    both.  (A name that starts or ends with a space gives the empty value
    there, which is not filled.) *)
Theorem name_split_first_and_last
        (u : ContentScript.Profile) (input : ContentScript.Element)
        (name : jsstring) :
  has_name u name ->
  (forall first rest,
      name = first ++ " "%char :: rest -> no_blank first = true ->
      ContentScript.computed_value u input ContentScript.firstName
      = ContentScript.Normal (Some first))
  /\ (forall pre last,
         name = pre ++ " "%char :: last -> no_blank last = true ->
         ContentScript.computed_value u input ContentScript.lastName
         = ContentScript.Normal (Some last))
  /\ (name <> [] -> no_blank name = true ->
      ContentScript.computed_value u input ContentScript.firstName
      = ContentScript.Normal (Some name)
      /\ ContentScript.computed_value u input ContentScript.lastName
         = ContentScript.Normal (Some name)).
Proof.
  intros Hn. split; [|split].
  - intros first rest E Hf. subst name. eapply computed_firstName; eassumption.
  - intros pre last E Hl. subst name. eapply computed_lastName; eassumption.
  - intros Hne Hs. destruct Hn as (info & Hi & Hn).
    unfold ContentScript.computed_value, ContentScript.personal. rewrite Hi, Hn.
    destruct name as [|c s]; [contradiction|].
    unfold split. rewrite split_single_token by exact Hs.
    split; reflexivity.
Qed.

Lemma name_split_first_and_last_witness :
  ContentScript.computed_value (named (js "Juan Carlos de Borbon"))
                               first_name_email_input ContentScript.firstName
  = ContentScript.Normal (Some (js "Juan"))
  /\ ContentScript.computed_value (named (js "Juan Carlos de Borbon"))
                                  first_name_email_input ContentScript.lastName
     = ContentScript.Normal (Some (js "Borbon"))
  /\ ContentScript.computed_value (named (js "Cher")) first_name_email_input
                                  ContentScript.lastName
     = ContentScript.Normal (Some (js "Cher")).
Proof.
  assert (H : forall name, has_name (named name) name).
  { intros name. eexists. split; reflexivity. }
  split; [|split].
  - apply (proj1 (name_split_first_and_last (named (js "Juan Carlos de Borbon"))
                    first_name_email_input (js "Juan Carlos de Borbon") (H _))
             (js "Juan") (js "Carlos de Borbon")); reflexivity.
  - apply (proj1 (proj2 (name_split_first_and_last
                    (named (js "Juan Carlos de Borbon"))
                    first_name_email_input (js "Juan Carlos de Borbon") (H _)))
             (js "Juan Carlos de") (js "Borbon")); reflexivity.
  - apply (proj2 (proj2 (name_split_first_and_last (named (js "Cher"))
                    first_name_email_input (js "Cher") (H _)))).
    + discriminate.
    + reflexivity.
Defined.

(** X5. The probe of a saved session answers "not logged in" whenever a
    login control is visible, and also when neither a login control nor a
    marker of a signed-in user is visible; it never touches the page. *)
Theorem session_probe_defaults_to_invalid (b : Bot.BotState) :
  (visible_in (Bot.page b) Bot.loginIndicators <> None
   \/ visible_in (Bot.page b) Bot.loggedInIndicators = None) ->
  Bot.checkIfStillLoggedIn b = (Some false, b).
Proof.
  intros H. rewrite checkIfStillLoggedIn_eq. unfold still_logged_in.
  destruct (visible_in (Bot.page b) Bot.loginIndicators) as [h|];
    [reflexivity|].
  destruct H as [H|H]; [contradiction|]. rewrite H. reflexivity.
Qed.

Lemma session_probe_defaults_to_invalid_witness :
  Bot.checkIfStillLoggedIn
    {| Bot.userData := no_credentials;
       Bot.page := {| Bot.url := []; Bot.query := fun _ => None;
                      Bot.cookies := [] |};
       Bot.loggedInSites := ∅; Bot.sessions_file := None; Bot.trace := [] |}
  = (Some false,
     {| Bot.userData := no_credentials;
        Bot.page := {| Bot.url := []; Bot.query := fun _ => None;
                       Bot.cookies := [] |};
        Bot.loggedInSites := ∅; Bot.sessions_file := None; Bot.trace := [] |}).
Proof.
  apply (session_probe_defaults_to_invalid
           {| Bot.userData := no_credentials;
              Bot.page := {| Bot.url := []; Bot.query := fun _ => None;
                             Bot.cookies := [] |};
              Bot.loggedInSites := ∅; Bot.sessions_file := None;
              Bot.trace := [] |}).
  right. reflexivity.
Defined.

Lemma trim_start_suffix s : exists pre, s = pre ++ trim_start s.
Proof.
  induction s as [|c s [pre IH]]; [exists []; reflexivity|].
  simpl. destruct (is_space c).
  - exists (c :: pre). simpl. rewrite <- IH. reflexivity.
  - exists []. reflexivity.
Qed.

Lemma trim_start_head s : hd_error (trim_start s) = None
                          \/ exists c, hd_error (trim_start s) = Some c
                                       /\ is_space c = false.
Proof.
  induction s as [|c s IH]; [left; reflexivity|].
  simpl. destruct (is_space c) eqn:E; [exact IH|].
  right. exists c. split; [reflexivity|exact E].
Qed.

Lemma trim_start_fixed s :
  (forall c, hd_error s = Some c -> is_space c = false) -> trim_start s = s.
Proof.
  destruct s as [|c s]; [reflexivity|].
  intros H. simpl. rewrite (H c eq_refl). reflexivity.
Qed.

Lemma trim_start_twice s : trim_start (trim_start s) = trim_start s.
Proof.
  apply trim_start_fixed. intros c Hc.
  destruct (trim_start_head s) as [H|(c' & H & Hs)]; congruence.
Qed.

Lemma trim_idempotent s : trim (trim s) = trim s.
Proof.
  unfold trim.
  set (t := trim_start s). set (u := trim_start (rev t)).
  assert (Hfix : trim_start (rev u) = rev u).
  { apply trim_start_fixed. intros c Hc.
    destruct (trim_start_suffix (rev t)) as [pre Hpre]. fold u in Hpre.
    assert (Ht : t = rev u ++ rev pre).
    { rewrite <- rev_app_distr, <- Hpre, rev_involutive. reflexivity. }
    destruct (rev u) as [|x ru]; [discriminate|].
    simpl in Hc. injection Hc as ->.
    destruct (trim_start_head s) as [H|(c' & H & Hs)]; fold t in H;
      rewrite Ht in H; simpl in H; congruence. }
  rewrite Hfix, rev_involutive. unfold u. rewrite trim_start_twice.
  reflexivity.
Qed.

Lemma dedup_acc_fresh :
  forall l seen x,
    In x (dedup_acc seen l) -> In x l /\ ~ In x seen.
Proof.
  induction l as [|y l IH]; intros seen x H; simpl in H; [contradiction|].
  destruct (existsb (str_eqb y) seen) eqn:E.
  - apply IH in H as [H1 H2]. split; [right; exact H1|exact H2].
  - destruct H as [<-|H].
    + split; [left; reflexivity|].
      intros Hin. assert (existsb (str_eqb y) seen = true); [|congruence].
      apply existsb_exists. exists y. split; [exact Hin|].
      apply str_eqb_eq. reflexivity.
    + apply IH in H as [H1 H2]. split; [right; exact H1|].
      intros Hin. apply H2. right. exact Hin.
Qed.

Lemma dedup_acc_NoDup :
  forall l seen, NoDup (dedup_acc seen l).
Proof.
  induction l as [|y l IH]; intros seen; simpl; [constructor|].
  destruct (existsb (str_eqb y) seen); [apply IH|].
  constructor; [|apply IH].
  intros Hin. apply dedup_acc_fresh in Hin as [_ Hin].
  apply Hin. left. reflexivity.
Qed.

(** X6. The skills list that a pass stores holds no skill twice, and every
    stored skill is a trimmed, non-empty piece of the skills section. *)
Theorem stored_skills_are_distinct (text : jsstring) :
  match extracted_skills text with
  | Some l =>
      NoDup l
      /\ forall skill, In skill l -> skill <> [] /\ trim skill = skill
  | None => True
  end.
Proof.
  unfold extracted_skills.
  destruct (str_match skillsSectionRegex text) as [m|]; [|exact I].
  split; [apply dedup_acc_NoDup|].
  intros skill Hin. apply dedup_acc_fresh in Hin as [Hin _].
  unfold skillsList in Hin. apply filter_In in Hin as [Hin Hf].
  apply andb_true_iff in Hf as [Hlen _].
  apply in_map_iff in Hin as (piece & <- & _).
  split.
  - intros E. rewrite E in Hlen. discriminate.
  - apply trim_idempotent.
Qed.

(** ** The shape of a match *)

Lemma sem_Seq_inv r1 r2 st st2 :
  sem (Seq r1 r2) st st2 ->
  exists st1, sem r1 st st1 /\ sem r2 st1 st2
              /\ consumed st st2 = consumed st st1 ++ consumed st1 st2.
Proof.
  intros H. inversion H; subst. eexists. repeat split; try eassumption.
  eapply consumed_trans; eassumption.
Qed.

Lemma sem_Chr_inv p st st' :
  sem (Chr p) st st' -> exists c, consumed st st' = [c] /\ p c = true.
Proof.
  intros H. pose proof (sem_consumed _ _ _ H) as [Ha _].
  inversion H; subst. exists c. split; [|assumption].
  rewrite H1 in Ha. simpl in Ha.
  assert (length (consumed st (advance c a st)) = 1) as Hl.
  { apply (f_equal (@length _)) in Ha. rewrite length_app in Ha. simpl in Ha. lia. }
  destruct (consumed st (advance c a st)) as [|x [|y l]]; try discriminate.
  simpl in Ha. congruence.
Qed.

Lemma sem_Star_class g p st st' :
  sem (Star g (Chr p)) st st' -> forallb p (consumed st st') = true.
Proof.
  intros H. remember (Star g (Chr p)) as r eqn:Er.
  induction H; try discriminate.
  - rewrite (consumed_span st st [] eq_refl). reflexivity.
  - injection Er as -> ->.
    rewrite (consumed_trans _ _ _ _ _ H H0).
    rewrite forallb_app. apply andb_true_iff. split; [|apply IHsem2; reflexivity].
    destruct (sem_Chr_inv _ _ _ H) as (c & -> & Hc). simpl. rewrite Hc. reflexivity.
Qed.

Lemma sem_plus_class p st st' :
  sem (plus (Chr p)) st st' ->
  consumed st st' <> [] /\ forallb p (consumed st st') = true.
Proof.
  intros H. apply sem_Seq_inv in H as (st1 & H1 & H2 & ->).
  destruct (sem_Chr_inv _ _ _ H1) as (c & -> & Hc).
  split; [discriminate|]. simpl. rewrite Hc. simpl.
  eapply sem_Star_class. exact H2.
Qed.

Lemma sem_Group_inv n r st st' :
  sem (Group n r) st st' ->
  exists st1, sem r st st1 /\ st' = set_cap n st st1
              /\ consumed st st' = consumed st st1
              /\ cap_lookup n (caps st') = Some (consumed st st1).
Proof.
  intros H. inversion H; subst. eexists. split; [eassumption|].
  split; [reflexivity|]. split; [reflexivity|].
  simpl. rewrite Nat.eqb_refl. reflexivity.
Qed.

Lemma sem_Assert_inv a st st' : sem (Assert a) st st' -> st' = st /\ check a st = true.
Proof. intros H. inversion H; subst. split; [reflexivity|assumption]. Qed.

Lemma sem_Eps_inv st st' : sem Eps st st' -> st' = st.
Proof. intros H. inversion H; subst. reflexivity. Qed.

Lemma consumed_refl st : consumed st st = [].
Proof. apply (consumed_span st st []). reflexivity. Qed.

(** Four digits. *)
Lemma sem_repn4_digit st st' :
  sem (repn 4 digit) st st' ->
  length (consumed st st') = 4 /\ forallb is_digit (consumed st st') = true.
Proof.
  intros H. simpl in H.
  apply sem_Seq_inv in H as (s1 & H1 & H & ->).
  apply sem_Seq_inv in H as (s2 & H2 & H & ->).
  apply sem_Seq_inv in H as (s3 & H3 & H & ->).
  apply sem_Seq_inv in H as (s4 & H4 & H & ->).
  apply sem_Eps_inv in H as ->. rewrite consumed_refl.
  destruct (sem_Chr_inv _ _ _ H1) as (c1 & -> & Hc1).
  destruct (sem_Chr_inv _ _ _ H2) as (c2 & -> & Hc2).
  destruct (sem_Chr_inv _ _ _ H3) as (c3 & -> & Hc3).
  destruct (sem_Chr_inv _ _ _ H4) as (c4 & -> & Hc4).
  simpl. rewrite Hc1, Hc2, Hc3, Hc4. split; reflexivity.
Qed.

(** The shape of a name match. *)
Lemma nameRegex_shape text m :
  str_match nameRegex text = Some m ->
  exists first last,
    group 1 m = Some (first ++ " "%char :: last)
    /\ letters first = true /\ letters last = true.
Proof.
  intros H. apply str_match_sound in H
    as (pre & st0 & st1 & S & _ & _ & _ & _ & _ & Cp).
  unfold nameRegex in S. cbn [seqs] in S.
  apply sem_Seq_inv in S as (sa & Ha & S & _).
  apply sem_Assert_inv in Ha as [-> _].
  apply sem_Group_inv in S as (sb & S & _ & _ & Hcap).
  unfold group. rewrite Cp, Hcap.
  apply sem_Seq_inv in S as (s1 & H1 & S & ->).
  apply sem_Seq_inv in S as (s2 & H2 & S & ->).
  apply sem_Seq_inv in S as (s3 & H3 & S & ->).
  apply sem_Seq_inv in S as (s4 & H4 & H5 & ->).
  destruct (sem_Chr_inv _ _ _ H1) as (u1 & -> & Hu1).
  destruct (sem_plus_class _ _ _ H2) as (Hn2 & Hl2).
  destruct (sem_Chr_inv _ _ _ H3) as (sp & -> & Hsp).
  destruct (sem_Chr_inv _ _ _ H4) as (u2 & -> & Hu2).
  destruct (sem_plus_class _ _ _ H5) as (Hn5 & Hl5).
  apply ascii_eqb_eq in Hsp. subst sp.
  exists (u1 :: consumed s1 s2), (u2 :: consumed s4 sb).
  split; [reflexivity|].
  assert (Hup : forall c, is_upper c = true -> is_alpha c = true).
  { intros c Hc. unfold is_alpha. rewrite Hc. reflexivity. }
  assert (Hlo : forall l, forallb is_lower l = true -> forallb is_alpha l = true).
  { intros l Hl. apply forallb_forall. intros c Hin.
    rewrite forallb_forall in Hl. specialize (Hl c Hin).
    unfold is_alpha. rewrite Hl. apply orb_true_r. }
  unfold letters. simpl. rewrite (Hup _ Hu1), (Hup _ Hu2), (Hlo _ Hl2), (Hlo _ Hl5).
  split; reflexivity.
Qed.

Lemma letters_no_blank w :
  letters w = true ->
  w <> [] /\ forallb (fun c => negb (ContentScript.is_blank c)) w = true.
Proof.
  unfold letters. intros H. apply andb_true_iff in H as [Hl Hw].
  split; [intros ->; discriminate|].
  apply forallb_forall. intros c Hin. rewrite forallb_forall in Hw.
  specialize (Hw c Hin). unfold ContentScript.is_blank.
  destruct (ascii_eqb c " ") eqn:E; [|reflexivity].
  apply ascii_eqb_eq in E. subst c. discriminate.
Qed.



(** ** From the parsed name to the form *)

(** X8. The name a pass stores is two words of letters with one space
    between them, and the content script splits it back into them: the
    first-name value is the first word and the last-name value the second. *)
Theorem parsed_name_fills_first_and_last
        (text : jsstring) (p p' : ResumeParser) (input : ContentScript.Element) :
  extractInformation text p = Some p' ->
  str_match nameRegex text <> None ->
  exists first last,
    fullName (personalInfo (userData p')) = Some (first ++ " "%char :: last)
    /\ letters first = true /\ letters last = true
    /\ ContentScript.computed_value (as_received (userData p')) input
                                    ContentScript.firstName
       = ContentScript.Normal (Some first)
    /\ ContentScript.computed_value (as_received (userData p')) input
                                    ContentScript.lastName
       = ContentScript.Normal (Some last).
Proof.
  intros Hrun Hm.
  apply extractInformation_inv in Hrun as (es & xs & cs & _ & _ & _ & ->).
  destruct (str_match nameRegex text) as [m|] eqn:E; [|contradiction].
  destruct (nameRegex_shape text m E) as (first & last & Hg & Hf & Hl).
  exists first, last.
  assert (Hname : fullName (personalInfo (userData
                    (after_pass text p es xs cs))) = Some (first ++ " "%char :: last)).
  { simpl. rewrite E. exact Hg. }
  assert (Hhas : has_name (as_received (userData (after_pass text p es xs cs)))
                          (first ++ " "%char :: last)).
  { eexists. split; [reflexivity|]. cbn [ContentScript.fullName].
    rewrite Hname. reflexivity. }
  destruct (letters_no_blank _ Hf) as [_ Hbf].
  destruct (letters_no_blank _ Hl) as [_ Hbl].
  repeat split; try assumption.
  - eapply computed_firstName; eassumption.
  - eapply computed_lastName; eassumption.
Qed.

Lemma parsed_name_fills_first_and_last_witness :
  exists first last,
    fullName (personalInfo (userData
      (after_pass (js "Jane Doe") new_ResumeParser [] [] [])))
    = Some (first ++ " "%char :: last)
    /\ letters first = true /\ letters last = true
    /\ ContentScript.computed_value
         (as_received (userData (after_pass (js "Jane Doe") new_ResumeParser [] [] [])))
         first_name_email_input ContentScript.firstName
       = ContentScript.Normal (Some first)
    /\ ContentScript.computed_value
         (as_received (userData (after_pass (js "Jane Doe") new_ResumeParser [] [] [])))
         first_name_email_input ContentScript.lastName
       = ContentScript.Normal (Some last).
Proof.
  apply (parsed_name_fills_first_and_last (js "Jane Doe") new_ResumeParser).
  - vm_compute. reflexivity.
  - vm_compute. discriminate.
Defined.

(** ** Where a trimmed text ends *)

Lemma trim_start_app pre y :
  (forall c, hd_error y = Some c -> is_space c = false) ->
  trim_start (pre ++ y) = trim_start pre ++ y.
Proof.
  intros Hy. induction pre as [|c pre IH]; simpl.
  - apply trim_start_fixed. exact Hy.
  - destruct (is_space c); [exact IH|reflexivity].
Qed.

Lemma trim_keeps_end pre y :
  y <> [] -> forallb not_space y = true ->
  trim (pre ++ y) = trim_start pre ++ y.
Proof.
  intros Hne Hy. unfold trim.
  assert (Hhd : forall c, hd_error y = Some c -> is_space c = false).
  { destruct y as [|x y]; [contradiction|]. intros c [= <-].
    simpl in Hy. apply andb_true_iff in Hy as [Hx _].
    apply negb_true_iff in Hx. exact Hx. }
  rewrite (trim_start_app pre y Hhd), rev_app_distr.
  rewrite trim_start_fixed.
  - rewrite <- rev_app_distr, rev_involutive. reflexivity.
  - intros c Hc.
    assert (Hin : In c (rev y)).
    { destruct (rev y) as [|x r] eqn:E.
      - apply (f_equal (@rev _)) in E. rewrite rev_involutive in E.
        subst y. contradiction.
      - simpl in Hc. injection Hc as ->. left. reflexivity. }
    apply in_rev in Hin. rewrite forallb_forall in Hy.
    specialize (Hy c Hin). apply negb_true_iff in Hy. exact Hy.
Qed.

Lemma digits_not_space y : forallb is_digit y = true -> forallb not_space y = true.
Proof.
  intros H. apply forallb_forall. intros c Hin. rewrite forallb_forall in H.
  specialize (H c Hin). revert H.
  assert (T : forallb (fun c => implb (is_digit c) (not_space c)) all_chars = true)
    by (vm_compute; reflexivity).
  rewrite forallb_forall in T. specialize (T c (in_all_chars c)).
  intros H. rewrite H in T. exact T.
Qed.

(** Every match of the university pattern ends with four digits. *)
Lemma universityRegex_ends_with_year st0 st1 :
  sem universityRegex st0 st1 -> ends_with_year (consumed st0 st1).
Proof.
  intros S. unfold universityRegex in S. cbn [seqs] in S.
  apply sem_Seq_inv in S as (s1 & H1 & S & ->).
  apply sem_Seq_inv in S as (s2 & H2 & H3 & ->).
  destruct (sem_repn4_digit _ _ H3) as [Hl Hd].
  exists (consumed st0 s1 ++ consumed s1 s2), (consumed s2 st1).
  rewrite <- app_assoc. repeat split; assumption.
Qed.

(** X9. The institution of an education entry is the whole match of the
    university pattern, trimmed: it runs through the first four-digit number
    that follows the school's name, and so always ends with a year. *)
Theorem institution_ends_with_year (text : jsstring) (es : list EducationEntry) :
  education_entries text = Some es ->
  Forall (fun e => ends_with_year (institution e)) es.
Proof.
  unfold education_entries.
  destruct (str_match educationSectionRegex text) as [sec|];
    [|intros [= <-]; constructor].
  destruct (exec_all universityRegex (m_text sec)) as [ms|] eqn:E; [|discriminate].
  simpl. intros [= <-]. apply Forall_map, Forall_forall. intros m Hin.
  destruct (exec_all_sound _ _ _ _ E Hin) as (st0 & st1 & S & Tx & _).
  destruct (universityRegex_ends_with_year _ _ S) as (pre & year & Hw & Hl & Hd).
  simpl. rewrite Tx, Hw.
  exists (trim_start pre), year. split; [|split; assumption].
  apply trim_keeps_end; [|apply digits_not_space; exact Hd].
  intros ->. discriminate.
Qed.

Lemma institution_ends_with_year_witness :
  Forall (fun e => ends_with_year (institution e))
         [{| institution := js "College 2010"; degree := None;
             edu_dates := Some (js "2010"); gpa := None |}].
Proof.
  apply (institution_ends_with_year resume_one_school).
  vm_compute. reflexivity.
Defined.

(** ** Contact fields *)

Lemma sem_repn_class p : forall n st st',
  sem (repn n (Chr p)) st st' ->
  length (consumed st st') = n /\ forallb p (consumed st st') = true.
Proof.
  induction n as [|n IH]; intros st st' H; simpl in H.
  - apply sem_Eps_inv in H as ->. rewrite consumed_refl. split; reflexivity.
  - apply sem_Seq_inv in H as (s1 & H1 & H2 & ->).
    destruct (sem_Chr_inv _ _ _ H1) as (c & -> & Hc).
    destruct (IH _ _ H2) as [Hl Hp]. simpl. rewrite Hl, Hc, Hp.
    split; reflexivity.
Qed.

Lemma count_app (p : ascii -> bool) a b :
  length (filter p (a ++ b)) = length (filter p a) + length (filter p b).
Proof. rewrite filter_app, length_app. reflexivity. Qed.

Lemma count_all (p : ascii -> bool) w :
  forallb p w = true -> length (filter p w) = length w.
Proof.
  induction w as [|c w IH]; [reflexivity|]. simpl. intros H.
  apply andb_true_iff in H as [Hc H]. rewrite Hc. simpl. rewrite IH by exact H.
  reflexivity.
Qed.

(** Every match of the phone pattern holds ten digits or more. *)
Lemma phoneRegex_ten_digits st0 st1 :
  sem phoneRegex st0 st1 -> 10 <= length (filter is_digit (consumed st0 st1)).
Proof.
  intros S. unfold phoneRegex in S. cbn [seqs] in S.
  apply sem_Seq_inv in S as (s1 & _ & S & ->).
  apply sem_Seq_inv in S as (s2 & _ & S & ->).
  apply sem_Seq_inv in S as (s3 & _ & S & ->).
  apply sem_Seq_inv in S as (s4 & H4 & S & ->).
  apply sem_Seq_inv in S as (s5 & _ & S & ->).
  apply sem_Seq_inv in S as (s6 & _ & S & ->).
  apply sem_Seq_inv in S as (s7 & H7 & S & ->).
  apply sem_Seq_inv in S as (s8 & _ & S & ->).
  apply sem_Seq_inv in S as (s9 & H9 & _ & ->).
  destruct (sem_repn_class _ _ _ _ H4) as [L4 D4].
  destruct (sem_repn_class _ _ _ _ H7) as [L7 D7].
  destruct (sem_repn_class _ _ _ _ H9) as [L9 D9].
  rewrite !count_app.
  rewrite (count_all _ _ D4), (count_all _ _ D7), (count_all _ _ D9). lia.
Qed.

Lemma str_match_piece r text m :
  str_match r text = Some m -> piece_of (m_text m) text.
Proof.
  intros H. apply str_match_sound in H as (pre & st0 & st1 & _ & _ & E & _).
  exists pre, (after st1). exact E.
Qed.

(** X10. The email and the phone number a pass stores are pieces of the text;
    the email holds an at sign and a dot, the phone number ten digits or
    more.  Without a match the field keeps the value it had. *)
Theorem stored_contacts_are_pieces_of_the_text
        (text : jsstring) (p p' : ResumeParser) :
  extractInformation text p = Some p' ->
  (email (personalInfo (userData p')) = email (personalInfo (userData p))
   \/ exists e, email (personalInfo (userData p')) = Some e
                /\ piece_of e text /\ In "@"%char e /\ In "."%char e)
  /\ (phone (personalInfo (userData p')) = phone (personalInfo (userData p))
      \/ exists n, phone (personalInfo (userData p')) = Some n
                   /\ piece_of n text /\ 10 <= length (filter is_digit n)).
Proof.
  intros Hrun.
  apply extractInformation_inv in Hrun as (es & xs & cs & _ & _ & _ & ->).
  simpl. split.
  - destruct (str_match emailRegex text) as [m|] eqn:E; [right|left; reflexivity].
    exists (m_text m). split; [reflexivity|].
    split; [eapply str_match_piece; exact E|].
    apply str_match_sound in E as (pre & st0 & st1 & S & _ & _ & _ & _ & Tx & _).
    rewrite Tx. split.
    + destruct (has_char_sound (fun c => ascii_eqb c "@") _ _ _ S)
        as (c & Hin & Hc); [vm_compute; reflexivity|].
      apply ascii_eqb_eq in Hc. subst c. exact Hin.
    + destruct (has_char_sound (fun c => ascii_eqb c ".") _ _ _ S)
        as (c & Hin & Hc); [vm_compute; reflexivity|].
      apply ascii_eqb_eq in Hc. subst c. exact Hin.
  - destruct (str_match phoneRegex text) as [m|] eqn:E; [right|left; reflexivity].
    exists (m_text m). split; [reflexivity|].
    split; [eapply str_match_piece; exact E|].
    apply str_match_sound in E as (pre & st0 & st1 & S & _ & _ & _ & _ & Tx & _).
    rewrite Tx. apply phoneRegex_ten_digits. exact S.
Qed.

Lemma stored_contacts_are_pieces_of_the_text_witness :
  (email (personalInfo (userData
     (after_pass (js "jane@example.com 555-123-4567") new_ResumeParser [] [] [])))
   = None
   \/ exists e,
        email (personalInfo (userData
          (after_pass (js "jane@example.com 555-123-4567") new_ResumeParser [] [] [])))
        = Some e
        /\ piece_of e (js "jane@example.com 555-123-4567")
        /\ In "@"%char e /\ In "."%char e)
  /\ (phone (personalInfo (userData
        (after_pass (js "jane@example.com 555-123-4567") new_ResumeParser [] [] [])))
      = None
      \/ exists n,
           phone (personalInfo (userData
             (after_pass (js "jane@example.com 555-123-4567") new_ResumeParser [] [] [])))
           = Some n
           /\ piece_of n (js "jane@example.com 555-123-4567")
           /\ 10 <= length (filter is_digit n)).
Proof.
  apply (stored_contacts_are_pieces_of_the_text
           (js "jane@example.com 555-123-4567") new_ResumeParser).
  vm_compute. reflexivity.
Defined.

(** ** Languages *)

Lemma flat_map_pick {A B C : Type} (f : A -> list B) (g : B -> C) (h : A -> C) :
  (forall x, map g (f x) = [] \/ map g (f x) = [h x]) ->
  forall l,
    (forall y, In y (map g (flat_map f l)) -> In y (map h l))
    /\ (NoDup (map h l) -> NoDup (map g (flat_map f l))).
Proof.
  intros Hf. induction l as [|x l [IHin IHnd]]; simpl.
  - split; [tauto|intros _; constructor].
  - rewrite map_app. split.
    + intros y Hy. apply in_app_or in Hy as [Hy|Hy].
      * destruct (Hf x) as [E|E]; rewrite E in Hy; [contradiction|].
        destruct Hy as [<-|[]]. left. reflexivity.
      * right. apply IHin. exact Hy.
    + intros Hnd. inversion Hnd as [|? ? Hx Hl]; subst.
      destruct (Hf x) as [E|E]; rewrite E; simpl; [apply IHnd; exact Hl|].
      constructor; [|apply IHnd; exact Hl].
      intros Hy. apply Hx. apply IHin. exact Hy.
Qed.

Lemma commonLanguages_distinct : NoDup (map js commonLanguages).
Proof.
  unfold commonLanguages. simpl.
  repeat (constructor; [simpl; intuition discriminate|]). constructor.
Qed.

(** X11. One pass lists a language at most once, whichever branch finds it,
    and in the order of the fixed vocabulary. *)
Theorem languages_of_a_pass_are_distinct (text : jsstring) :
  NoDup (map language (language_entries text))
  /\ length (language_entries text) <= length commonLanguages.
Proof.
  assert (Hs : forall t lang,
    map language (section_language t lang) = []
    \/ map language (section_language t lang) = [js lang]).
  { intros t lang. unfold section_language.
    destruct (str_match (langRegex lang) t); [right; reflexivity|].
    destruct (includes t (js lang)); [right|left]; reflexivity. }
  assert (Hd : forall t lang,
    map language (document_language t lang) = []
    \/ map language (document_language t lang) = [js lang]).
  { intros t lang. unfold document_language.
    destruct (includes t (js lang)); [|left; reflexivity].
    destruct (str_match (langContextRegex lang) t); [right|left]; reflexivity. }
  assert (Hlen : forall (f : string -> list LanguageEntry) l,
    (forall x, map language (f x) = [] \/ map language (f x) = [js x]) ->
    length (flat_map f l) <= length l).
  { intros f l Hf. induction l as [|x l IH]; [reflexivity|].
    simpl. rewrite length_app.
    assert (length (f x) <= 1).
    { destruct (Hf x) as [E|E]; apply (f_equal (@length _)) in E;
        rewrite length_map in E; simpl in E; lia. }
    lia. }
  unfold language_entries.
  destruct (str_match languageSectionRegex text) as [m|]; split.
  - apply (flat_map_pick _ language js (Hs (m_text m))), commonLanguages_distinct.
  - apply Hlen, Hs.
  - apply (flat_map_pick _ language js (Hd text)), commonLanguages_distinct.
  - apply Hlen, Hd.
Qed.

(** ** The tickets of the completeness analysis *)

Lemma sublist_In_NoDup (l k : list string) :
  l `sublist_of` k ->
  (forall x, In x l -> In x k) /\ (NoDup k -> NoDup l).
Proof.
  induction 1 as [|x l k Hs [IHin IHnd]|x l k Hs [IHin IHnd]].
  - split; [tauto|intros _; constructor].
  - split.
    + intros y [<-|Hy]; [left; reflexivity|right; apply IHin; exact Hy].
    + intros Hnd. inversion Hnd as [|? ? Hx Hk]; subst.
      constructor; [|apply IHnd; exact Hk].
      intros Hin. apply Hx, IHin, Hin.
  - split.
    + intros y Hy. right. apply IHin. exact Hy.
    + intros Hnd. inversion Hnd; subst. apply IHnd. assumption.
Qed.

Lemma ticket_if_sublist b k : ticket_if b k `sublist_of` [k].
Proof. destruct b; simpl; repeat constructor. Qed.

Lemma rule_table_sublist u : rule_table u `sublist_of` ticket_names.
Proof.
  unfold rule_table.
  change ticket_names
    with (["fullName"%string] ++ ["email"%string] ++ ["phone"%string]
          ++ ["location"%string] ++ ["dateOfBirth"%string]
          ++ ["education"%string; "completeEducationDetails"%string]
          ++ ["workExperience"%string; "completeWorkExperienceDetails"%string]
          ++ ["skills"%string] ++ ["languages"%string] ++ ["references"%string]
          ++ ["workAuthorizationStatus"%string] ++ ["socialMediaProfiles"%string])%list.
  repeat (apply sublist_app; [try apply ticket_if_sublist|]);
    try apply ticket_if_sublist.
  - destruct (is_nil (education u)); [repeat constructor|].
    apply sublist_cons, ticket_if_sublist.
  - destruct (is_nil (experience u)); [repeat constructor|].
    apply sublist_cons, ticket_if_sublist.
  - reflexivity.
Qed.

Lemma ticket_names_distinct : NoDup ticket_names.
Proof.
  unfold ticket_names.
  repeat (constructor; [simpl; intuition discriminate|]). constructor.
Qed.

(** X12. The list a parse reports holds no ticket twice, only tickets of the
    fourteen known names, and always the ticket for references: it is never
    empty. *)
Theorem tickets_are_distinct_and_never_empty (p : ResumeParser) :
  missingFields p = [] ->
  NoDup (missingFields (identifyMissingFields p))
  /\ (forall t, In t (missingFields (identifyMissingFields p)) -> In t ticket_names)
  /\ In "references"%string (missingFields (identifyMissingFields p)).
Proof.
  intros Hm. rewrite identifyMissingFields_eq. simpl. rewrite Hm. simpl.
  destruct (sublist_In_NoDup _ _ (rule_table_sublist (userData p))) as [Hin Hnd].
  split; [apply Hnd, ticket_names_distinct|]. split; [exact Hin|].
  unfold rule_table. rewrite !in_app_iff. do 9 right. left. left. reflexivity.
Qed.

Lemma tickets_are_distinct_and_never_empty_witness :
  NoDup (missingFields (identifyMissingFields new_ResumeParser))
  /\ (forall t, In t (missingFields (identifyMissingFields new_ResumeParser)) ->
                In t ticket_names)
  /\ In "references"%string (missingFields (identifyMissingFields new_ResumeParser)).
Proof. apply (tickets_are_distinct_and_never_empty new_ResumeParser). reflexivity. Defined.

(** ** A skills heading anywhere in the text *)

Lemma segment_occurs os ts :
  forall text,
    existsb (fun kw => occurs_ci (js kw) text) os = true ->
    segment os ts text <> None.
Proof.
  induction text as [|c text IH]; intros H; simpl segment.
  - destruct (first_prefix_ci os []) eqn:E; [discriminate|].
    exfalso. apply existsb_exists in H as (kw & Hin & Hk).
    simpl in Hk. rewrite orb_false_r in Hk.
    unfold first_prefix_ci in E.
    pose proof (find_none _ _ E kw Hin) as N. simpl in N. congruence.
  - destruct (first_prefix_ci os (c :: text)) eqn:E; [discriminate|].
    apply IH. apply existsb_exists in H as (kw & Hin & Hk).
    apply existsb_exists. exists kw. split; [exact Hin|].
    unfold first_prefix_ci in E.
    pose proof (find_none _ _ E kw Hin) as N. simpl in N.
    simpl in Hk. rewrite N in Hk. exact Hk.
Qed.

Lemma In_ticket_if x b k : In x (ticket_if b k) -> x = k /\ b = true.
Proof. destruct b; simpl; [intros [<-|[]]; split; reflexivity|tauto]. Qed.

Lemma skills_ticket u : In "skills"%string (rule_table u) -> skills u = [].
Proof.
  unfold rule_table. rewrite !in_app_iff.
  intros H.
  repeat match goal with
         | H : _ \/ _ |- _ => destruct H as [H|H]
         end;
    try (apply In_ticket_if in H as [H _]; discriminate H).
  - destruct (is_nil (education u));
      [destruct H as [H|[]]; discriminate H
      |apply In_ticket_if in H as [H _]; discriminate H].
  - destruct (is_nil (experience u));
      [destruct H as [H|[]]; discriminate H
      |apply In_ticket_if in H as [H _]; discriminate H].
  - apply In_ticket_if in H as [_ H]. destruct (skills u); [reflexivity|discriminate].
  - destruct H as [H|[]]; discriminate H.
Qed.

(** X13. When one of the skills headings occurs anywhere in the text, letter
    case apart, the pass stores a skills list that is not empty (the heading
    itself when nothing else is found), and the analysis that follows does
    not report skills as missing. *)
Theorem skills_heading_suppresses_the_ticket
        (text : jsstring) (p p' : ResumeParser) :
  extractInformation text p = Some p' ->
  existsb (fun kw => occurs_ci (js kw) text) skills_openers = true ->
  missingFields p = [] ->
  skills (userData p') <> []
  /\ ~ In "skills"%string (missingFields (identifyMissingFields p')).
Proof.
  intros Hrun Hocc Hm.
  apply extractInformation_inv in Hrun as (es & xs & cs & _ & _ & _ & ->).
  assert (Hsk : skills (userData (after_pass text p es xs cs)) <> []).
  { simpl. destruct (extracted_skills text) as [l|] eqn:E.
    - eapply extracted_skills_nonempty. exact E.
    - exfalso. unfold extracted_skills in E.
      destruct (str_match skillsSectionRegex text) as [m|] eqn:Em; [discriminate|].
      apply (segment_occurs skills_openers skills_terminators text Hocc).
      rewrite <- capture_segment. unfold capture.
      change (section_regex skills_openers skills_terminators)
        with skillsSectionRegex.
      rewrite Em. reflexivity. }
  split; [exact Hsk|].
  rewrite identifyMissingFields_eq. simpl missingFields. rewrite Hm. simpl.
  intros Hin. apply Hsk. apply skills_ticket. exact Hin.
Qed.

Lemma skills_heading_suppresses_the_ticket_witness :
  skills (userData (after_pass bare_skills_heading new_ResumeParser [] [] [])) <> []
  /\ ~ In "skills"%string
       (missingFields (identifyMissingFields
          (after_pass bare_skills_heading new_ResumeParser [] [] []))).
Proof.
  apply (skills_heading_suppresses_the_ticket bare_skills_heading new_ResumeParser).
  - vm_compute. reflexivity.
  - vm_compute. reflexivity.
  - reflexivity.
Defined.

(** ** Display dates *)

Lemma test_needs_char q r text :
  has_char q r = true ->
  forallb (fun c => negb (q c)) text = true ->
  test r text = false.
Proof.
  intros Hr Ht. unfold test.
  destruct (str_match r text) as [m|] eqn:E; [|reflexivity].
  exfalso.
  apply str_match_sound in E as (pre & st0 & st1 & S & _ & Etx & _ & _ & Tx & _).
  destruct (has_char_sound _ _ _ _ S Hr) as (c & Hin & Hq).
  rewrite forallb_forall in Ht.
  assert (In c text) as Hc.
  { rewrite Etx, Tx. apply in_or_app. right. apply in_or_app. left. exact Hin. }
  specialize (Ht c Hc). rewrite Hq in Ht. discriminate.
Qed.

Lemma month_name_two_digits m :
  m < 100 -> CvUtils.month_name (two_digits m) = month_label m.
Proof.
  intros Hm.
  assert (T : forallb (fun m => str_eqb (CvUtils.month_name (two_digits m))
                                        (month_label m)) (seq 0 100) = true)
    by (vm_compute; reflexivity).
  rewrite forallb_forall in T. apply str_eqb_eq, T, in_seq. lia.
Qed.

Lemma two_digits_digits m : m < 100 -> digits 2 (two_digits m) = true.
Proof.
  intros Hm.
  assert (T : forallb (fun m => digits 2 (two_digits m)) (seq 0 100) = true)
    by (vm_compute; reflexivity).
  rewrite forallb_forall in T. apply T, in_seq. lia.
Qed.

Lemma digits_inv n w : digits n w = true -> length w = n /\ forallb is_digit w = true.
Proof.
  unfold digits. intros H. apply andb_true_iff in H as [H1 H2].
  apply Nat.eqb_eq in H1. split; assumption.
Qed.

Lemma digits_split (sep : ascii) w :
  is_digit sep = false -> forallb is_digit w = true ->
  forallb (fun x => negb (ascii_eqb x sep)) w = true.
Proof.
  intros Hs Hw. apply forallb_forall. intros c Hin.
  rewrite forallb_forall in Hw. specialize (Hw c Hin).
  destruct (ascii_eqb c sep) eqn:E; [|reflexivity].
  apply ascii_eqb_eq in E. subst c. congruence.
Qed.

Lemma slash_date_matches dd mm yyyy :
  digits 2 dd = true -> digits 2 mm = true -> digits 4 yyyy = true ->
  test CvUtils.slash_date (dd ++ "/"%char :: mm ++ "/"%char :: yyyy) = true.
Proof.
  intros Hd Hm Hy.
  apply digits_inv in Hd as [Ld Dd], Hm as [Lm Dm], Hy as [Ly Dy].
  destruct dd as [|d1 [|d2 [|]]]; try discriminate.
  destruct mm as [|m1 [|m2 [|]]]; try discriminate.
  destruct yyyy as [|y1 [|y2 [|y3 [|y4 [|]]]]]; try discriminate.
  simpl in Dd, Dm, Dy.
  repeat match goal with
         | H : _ && _ = true |- _ => apply andb_true_iff in H as [? H]
         end.
  unfold test, str_match. cbn.
  repeat match goal with
         | H : is_digit _ = true |- _ => rewrite H; clear H
         end.
  reflexivity.
Qed.

Lemma dash_date_matches mm yyyy :
  digits 2 mm = true -> digits 4 yyyy = true ->
  test CvUtils.dash_date (yyyy ++ "-"%char :: mm) = true.
Proof.
  intros Hm Hy.
  apply digits_inv in Hm as [Lm Dm], Hy as [Ly Dy].
  destruct mm as [|m1 [|m2 [|]]]; try discriminate.
  destruct yyyy as [|y1 [|y2 [|y3 [|y4 [|]]]]]; try discriminate.
  simpl in Dm, Dy.
  repeat match goal with
         | H : _ && _ = true |- _ => apply andb_true_iff in H as [? H]
         end.
  unfold test, str_match. cbn.
  repeat match goal with
         | H : is_digit _ = true |- _ => rewrite H; clear H
         end.
  reflexivity.
Qed.

Lemma formatDisplayDate_slash d :
  d <> [] -> test CvUtils.slash_date d = true ->
  CvUtils.formatDisplayDate (Some d)
  = match split (fun x => ascii_eqb x "/") d with
    | _ :: month :: year :: _ => CvUtils.month_name month ++ js " " ++ year
    | _ => d
    end.
Proof.
  intros Hne Ht. destruct d as [|c s]; [contradiction|].
  unfold CvUtils.formatDisplayDate. cbv zeta. rewrite Ht. reflexivity.
Qed.

Lemma formatDisplayDate_dash d :
  d <> [] -> test CvUtils.slash_date d = false ->
  test CvUtils.dash_date d = true ->
  CvUtils.formatDisplayDate (Some d)
  = match split (fun x => ascii_eqb x "-") d with
    | year :: month :: _ => CvUtils.month_name month ++ js " " ++ year
    | _ => d
    end.
Proof.
  intros Hne Hs Ht. destruct d as [|c s]; [contradiction|].
  unfold CvUtils.formatDisplayDate. cbv zeta. rewrite Hs, Ht. reflexivity.
Qed.

Lemma formatDisplayDate_other d :
  test CvUtils.slash_date d = false -> test CvUtils.dash_date d = false ->
  CvUtils.formatDisplayDate (Some d) = d.
Proof.
  intros Hs Ht. destruct d as [|c s]; [reflexivity|].
  unfold CvUtils.formatDisplayDate. cbv zeta. rewrite Hs, Ht. reflexivity.
Qed.

(** X14. A date written DD/MM/YYYY or YYYY-MM is displayed as the name of
    its month and the year.  A month outside 01..12 reads the month table
    out of bounds: the display then starts with the word undefined. *)
Theorem display_date_names_the_month (dd yyyy : jsstring) (m : nat) :
  digits 2 dd = true -> digits 4 yyyy = true -> m < 100 ->
  CvUtils.formatDisplayDate (Some (dd ++ "/"%char :: two_digits m ++ "/"%char :: yyyy))
  = month_label m ++ " "%char :: yyyy
  /\ CvUtils.formatDisplayDate (Some (yyyy ++ "-"%char :: two_digits m))
     = month_label m ++ " "%char :: yyyy.
Proof.
  intros Hd Hy Hm.
  pose proof (two_digits_digits m Hm) as Hmm.
  pose proof (month_name_two_digits m Hm) as Hname.
  destruct (digits_inv _ _ Hd) as [Ld Dd].
  destruct (digits_inv _ _ Hy) as [Ly Dy].
  destruct (digits_inv _ _ Hmm) as [Lm Dm].
  split.
  - rewrite formatDisplayDate_slash;
      [|destruct dd; discriminate|apply slash_date_matches; assumption].
    unfold split.
    rewrite (split_on_first _ "/" dd [] _
               (digits_split "/" _ eq_refl Dd) eq_refl).
    rewrite (split_on_first _ "/" (two_digits m) [] _
               (digits_split "/" _ eq_refl Dm) eq_refl).
    rewrite (split_single_token _ yyyy [] (digits_split "/" _ eq_refl Dy)).
    cbn [rev app]. rewrite Hname. reflexivity.
  - rewrite formatDisplayDate_dash;
      [|destruct yyyy; discriminate| |apply dash_date_matches; assumption].
    + unfold split.
      rewrite (split_on_first _ "-" yyyy [] _
                 (digits_split "-" _ eq_refl Dy) eq_refl).
      rewrite (split_single_token _ (two_digits m) []
                 (digits_split "-" _ eq_refl Dm)).
      cbn [rev app]. rewrite Hname. reflexivity.
    + apply (test_needs_char (fun x => ascii_eqb x "/")); [vm_compute; reflexivity|].
      rewrite forallb_app. apply andb_true_iff. split.
      * apply (digits_split "/" _ eq_refl Dy).
      * cbn [forallb]. apply (digits_split "/" _ eq_refl Dm).
Qed.

Lemma display_date_names_the_month_witness :
  CvUtils.formatDisplayDate (Some (js "17/05/2020")) = js "May 2020"
  /\ CvUtils.formatDisplayDate (Some (js "2020-13")) = js "undefined 2020".
Proof.
  split.
  - apply (proj1 (display_date_names_the_month (js "17") (js "2020") 5
                   eq_refl eq_refl ltac:(lia))).
  - apply (proj2 (display_date_names_the_month (js "17") (js "2020") 13
                   eq_refl eq_refl ltac:(lia))).
Defined.

(** X15. A date without any digit ("Present", "ongoing") is displayed as it
    is, and a missing or empty date as the empty string. *)
Theorem display_date_without_digits_is_kept (d : jsstring) :
  forallb (fun c => negb (is_digit c)) d = true ->
  CvUtils.formatDisplayDate (Some d) = d
  /\ CvUtils.formatDisplayDate None = [].
Proof.
  intros H. split; [|reflexivity].
  apply formatDisplayDate_other;
    apply (test_needs_char is_digit); try exact H; vm_compute; reflexivity.
Qed.

Lemma display_date_without_digits_is_kept_witness :
  CvUtils.formatDisplayDate (Some (js "Present")) = js "Present"
  /\ CvUtils.formatDisplayDate None = [].
Proof. apply (display_date_without_digits_is_kept (js "Present")). reflexivity. Defined.

(** ** A domain named like an inherited member *)

Lemma any_present_eq l b :
  exists r, Bot.any_present l b = (Some r, b).
Proof.
  induction l as [|s l IH]; [exists false; reflexivity|].
  simpl. unfold mbind, Bot.M_bind, Bot.mbind, Bot.page_query, Bot.get. simpl.
  destruct (Bot.query (Bot.page b) s); [exists true; reflexivity|exact IH].
Qed.

(** X16. The credential check reads [genericCredentials[domain]] on a parsed
    JSON object, so a domain that bears the name of an inherited member
    (constructor, __proto__, toString, ...) passes it without any credential
    being registered: in front of a complete, visible login form the bot
    goes on and fills the username field, with [undefined]. *)
Theorem inherited_member_passes_for_a_credential
        (respond : Bot.Action -> Bot.Page -> option Bot.Page)
        (domain : jsstring) (b : Bot.BotState)
        (m : gmap jsstring Bot.Credential) (uf pf sb : Bot.Handle) :
  Bot.genericCredentials (Bot.userData b) = Some m ->
  m !! domain = None ->
  In domain (map js Bot.inherited_members) ->
  visible_in (Bot.page b) Bot.usernameSelectors = Some uf ->
  visible_in (Bot.page b) Bot.passwordSelectors = Some pf ->
  visible_in (Bot.page b) Bot.submitSelectors = Some sb ->
  Bot.generic_credential domain b
  = Some {| Bot.login_username := None; Bot.login_password := None |}
  /\ exists r b' rest,
       Bot.handleGenericLogin respond domain b = (Some r, b')
       /\ Bot.trace b' = Bot.trace b ++ Bot.FillElement uf None :: rest.
Proof.
  intros Hg Hm Hin Hu Hp Hs.
  assert (Hc : Bot.generic_credential domain b
               = Some {| Bot.login_username := None; Bot.login_password := None |}).
  { unfold Bot.generic_credential. rewrite Hg, Hm.
    replace (existsb (fun k => str_eqb domain (js k)) Bot.inherited_members)
      with true; [reflexivity|].
    symmetry. apply existsb_exists. apply in_map_iff in Hin as (k & <- & Hk).
    exists k. split; [exact Hk|]. apply str_eqb_eq. reflexivity. }
  split; [exact Hc|].
  unfold Bot.handleGenericLogin, Bot.try_catch, mbind, Bot.M_bind, Bot.mbind.
  rewrite !first_visible_eq, Hu, Hp, Hs.
  unfold Bot.generic_flow, mbind, Bot.M_bind, Bot.mbind, Bot.get.
  rewrite Hc. cbn [Bot.login_username Bot.login_password].
  unfold Bot.act at 1.
  destruct (respond (Bot.FillElement uf None) (Bot.page b)) as [p1|];
    [|do 3 eexists; split; [reflexivity|]; simpl; reflexivity].
  unfold Bot.act at 1. cbn [Bot.page Bot.trace Bot.userData Bot.loggedInSites
                             Bot.sessions_file].
  destruct (respond (Bot.FillElement pf None) p1) as [p2|];
    [|do 3 eexists; split; [reflexivity|]; simpl;
      rewrite <- app_assoc; reflexivity].
  unfold Bot.act at 1. cbn [Bot.page Bot.trace Bot.userData Bot.loggedInSites
                             Bot.sessions_file].
  destruct (respond (Bot.ClickElement sb) p2) as [p3|];
    [|do 3 eexists; split; [reflexivity|]; simpl;
      rewrite <- !app_assoc; reflexivity].
  unfold Bot.act at 1. cbn [Bot.page Bot.trace Bot.userData Bot.loggedInSites
                             Bot.sessions_file].
  destruct (respond Bot.WaitForLoadState p3) as [p4|];
    [|do 3 eexists; split; [reflexivity|]; simpl;
      rewrite <- !app_assoc; reflexivity].
  unfold Bot.checkLoginRequirement.
  match goal with
  | |- context [Bot.any_present Bot.loginSelectors ?st] =>
      destruct (any_present_eq Bot.loginSelectors st) as (present & ->)
  end.
  destruct present.
  - do 3 eexists. split; [reflexivity|]. simpl.
    rewrite <- !app_assoc. reflexivity.
  - do 3 eexists. split; [reflexivity|]. simpl.
    rewrite <- !app_assoc. reflexivity.
Qed.

Lemma inherited_member_passes_for_a_credential_witness :
  Bot.generic_credential (js "constructor") bot_with_empty_credentials
  = Some {| Bot.login_username := None; Bot.login_password := None |}
  /\ exists r b' rest,
       Bot.handleGenericLogin dead_browser (js "constructor")
                              bot_with_empty_credentials = (Some r, b')
       /\ Bot.trace b'
          = Bot.trace bot_with_empty_credentials
            ++ Bot.FillElement {| Bot.handle_id := 1; Bot.visible := true |} None
               :: rest.
Proof.
  apply (inherited_member_passes_for_a_credential
           dead_browser (js "constructor") bot_with_empty_credentials ∅
           {| Bot.handle_id := 1; Bot.visible := true |}
           {| Bot.handle_id := 2; Bot.visible := true |}
           {| Bot.handle_id := 3; Bot.visible := true |}).
  - reflexivity.
  - apply lookup_empty.
  - left. reflexivity.
  - reflexivity.
  - reflexivity.
  - reflexivity.
Defined.

(** ** The converted CV *)

Lemma truthy_inv v : CvUtils.truthy v = true -> exists c s, v = Some (c :: s).
Proof. destruct v as [[|c s]|]; try discriminate. eauto. Qed.

Lemma experience_round_shape cv i :
  CvUtils.experience_round cv i = []
  \/ exists e, CvUtils.experience_round cv i = [e]
               /\ company e <> [] /\ falsy (title e) = false
               /\ falsy (exp_dates e) = false.
Proof.
  unfold CvUtils.experience_round. cbv zeta.
  destruct (CvUtils.truthy (CvUtils.prop cv (CvUtils.indexed_key "employer_name" i)))
    eqn:E1; [|left; reflexivity].
  destruct (CvUtils.truthy (CvUtils.prop cv (CvUtils.indexed_key "role_title" i)))
    eqn:E2; [|left; reflexivity].
  right. eexists. split; [reflexivity|].
  apply truthy_inv in E1 as (c1 & s1 & ->). apply truthy_inv in E2 as (c2 & s2 & ->).
  cbn [company title exp_dates CvUtils.tmpl falsy].
  split; [discriminate|]. split; [reflexivity|].
  destruct (CvUtils.formatDisplayDate _); reflexivity.
Qed.

Lemma language_of_shape cv k level :
  CvUtils.language_of cv k level = []
  \/ exists e, CvUtils.language_of cv k level = [e] /\ language e <> []
               /\ proficiency e = js level.
Proof.
  unfold CvUtils.language_of.
  destruct (CvUtils.prop cv k) as [[|c s]|]; try (left; reflexivity).
  right. eexists. split; [reflexivity|]. split; [discriminate|reflexivity].
Qed.

(** X17. Whatever the CV object holds, the profile made of it has at most five
    experience entries, each with a company, a title and dates, so none is
    one the completeness analysis would call incomplete; at most three
    languages, each with a name; the same credentials for the three sites,
    with a password that is never empty; and a full name that always holds a
    space, the two names being pasted even when they are missing. *)
Theorem converted_profile_is_well_formed (cv : CvUtils.CvData) :
  let u := CvUtils.convertToUserData cv in
  length (CvUtils.cvu_experience u) <= 5
  /\ Forall (fun e => company e <> [] /\ experience_incomplete e = false)
            (CvUtils.cvu_experience u)
  /\ length (CvUtils.cvu_languages u) <= 3
  /\ Forall (fun e => language e <> []) (CvUtils.cvu_languages u)
  /\ CvUtils.password (CvUtils.linkedinCredentials u) <> []
  /\ CvUtils.indeedCredentials u = CvUtils.linkedinCredentials u
  /\ CvUtils.glassdoorCredentials u = CvUtils.linkedinCredentials u
  /\ In " "%char (CvUtils.cv_fullName (CvUtils.cvu_personalInfo u)).
Proof.
  cbv zeta. unfold CvUtils.convertToUserData.
  cbn [CvUtils.cvu_experience CvUtils.cvu_languages CvUtils.linkedinCredentials
       CvUtils.indeedCredentials CvUtils.glassdoorCredentials
       CvUtils.cvu_personalInfo CvUtils.cv_fullName].
  assert (Hlen : forall l, length (flat_map (CvUtils.experience_round cv) l)
                           <= length l).
  { induction l as [|i l IH]; [reflexivity|]. simpl. rewrite length_app.
    destruct (experience_round_shape cv i) as [->|(e & -> & _)]; simpl; lia. }
  split; [apply (Hlen [1; 2; 3; 4; 5])|].
  split.
  { apply Forall_forall. intros e Hin. apply in_flat_map in Hin as (i & _ & Hin).
    destruct (experience_round_shape cv i) as [E|(e' & E & H1 & H2 & H3)];
      rewrite E in Hin; [contradiction|].
    destruct Hin as [<-|[]]. split; [exact H1|].
    unfold experience_incomplete. rewrite H2, H3. reflexivity. }
  split.
  { rewrite !length_app.
    destruct (language_of_shape cv "native_language" "Native") as [->|(e1 & -> & _)];
    destruct (language_of_shape cv "fluent_language" "Fluent") as [->|(e2 & -> & _)];
    destruct (str_eqb _ _);
    try (destruct (language_of_shape cv "professional_language" "Professional")
          as [->|(e3 & -> & _)]);
    simpl; lia. }
  split.
  { rewrite !Forall_app. repeat split.
    - destruct (language_of_shape cv "native_language" "Native")
        as [->|(e & -> & H & _)]; repeat constructor; exact H.
    - destruct (language_of_shape cv "fluent_language" "Fluent")
        as [->|(e & -> & H & _)]; repeat constructor; exact H.
    - destruct (str_eqb _ _); [constructor|].
      destruct (language_of_shape cv "professional_language" "Professional")
        as [->|(e & -> & H & _)]; repeat constructor; exact H. }
  split.
  { unfold CvUtils.placeholder_credentials. cbn [CvUtils.password].
    destruct (CvUtils.prop cv "password") as [[|c s]|]; discriminate. }
  split; [reflexivity|]. split; [reflexivity|].
  apply in_or_app. right. left. reflexivity.
Qed.

(** ** The files of an import *)

Lemma backup_is_another_file fs : backup_path fs <> CvUtils.userDataPath.
Proof. unfold backup_path, CvUtils.userDataPath. simpl. discriminate. Qed.

(** X18. An import that fails (the file cannot be read, or is not JSON)
    leaves every file as it was.  An import that succeeds writes the
    converted profile to data/user_data.json; the profile that file held
    before, if any, is kept under the backup name; the data directory
    exists afterwards; every other file is as it was. *)
Theorem import_keeps_the_previous_profile
        (parse_cv : jsstring -> option CvUtils.CvData)
        (stringify_cv : CvUtils.CvUserData -> jsstring)
        (jsonFilePath : jsstring) (fs : CvUtils.FileSystem) :
  match CvUtils.importCVJson parse_cv stringify_cv jsonFilePath fs with
  | (Returned r, fs') =>
      CvUtils.files fs' !! CvUtils.userDataPath
      = Some (stringify_cv (CvUtils.res_userData r))
      /\ (forall old,
            CvUtils.files fs !! CvUtils.userDataPath = Some old ->
            CvUtils.files fs' !! backup_path fs = Some old)
      /\ (forall q,
            q <> CvUtils.userDataPath -> q <> backup_path fs ->
            CvUtils.files fs' !! q = CvUtils.files fs !! q)
      /\ js "data" ∈ CvUtils.dirs fs'
  | (Thrown _, fs') => fs' = fs
  | (Diverges, _) => False
  end.
Proof.
  unfold CvUtils.importCVJson.
  destruct (CvUtils.files fs !! jsonFilePath) as [content|]; [|reflexivity].
  destruct (parse_cv content) as [cv|]; [|reflexivity].
  cbv zeta. fold (backup_path fs).
  pose proof (backup_is_another_file fs) as Hb.
  destruct (CvUtils.files fs !! CvUtils.userDataPath) as [old|] eqn:Eold;
    cbn [CvUtils.files CvUtils.dirs CvUtils.now_iso CvUtils.res_userData].
  - split; [apply lookup_insert_eq|]. split; [|split].
    + intros old' [= <-]. rewrite lookup_insert_ne by congruence.
      apply lookup_insert_eq.
    + intros q H1 H2. rewrite !lookup_insert_ne by congruence. reflexivity.
    + apply elem_of_union_r, elem_of_singleton. reflexivity.
  - split; [apply lookup_insert_eq|]. split; [|split].
    + intros old' [=].
    + intros q H1 H2. rewrite lookup_insert_ne by congruence. reflexivity.
    + apply elem_of_union_r, elem_of_singleton. reflexivity.
Qed.

(** ** What the analysis and the autofill touch *)

Lemma Forall2_nth_error {A B} (R : A -> B -> Prop) l l' :
  Forall2 R l l' ->
  forall i x, nth_error l i = Some x ->
              exists y, nth_error l' i = Some y /\ R x y.
Proof.
  induction 1 as [|a b l l' Hab _ IH]; intros [|i] x Hx; try discriminate.
  - injection Hx as <-. exists b. split; [reflexivity|exact Hab].
  - apply IH. exact Hx.
Qed.

Lemma Forall2_same {A} (R : A -> A -> Prop) (l : list A) :
  (forall x, R x x) -> Forall2 R l l.
Proof. intros H. induction l; constructor; auto. Qed.

(** A round of the fill loop leaves the input as it is, or fills it. *)
Lemma fill_one_inv set_value u e e' c :
  ContentScript.fill_one set_value u e = ContentScript.Normal (e', c) ->
  (e' = e /\ c = false)
  \/ (exists v t, e' = ContentScript.filled v e /\ c = true
                  /\ ContentScript.fieldType e = Some t /\ has_case t = true).
Proof.
  unfold ContentScript.fill_one.
  destruct (ContentScript.fieldType e) as [t|] eqn:Et;
    [|intros [= <- <-]; left; split; reflexivity].
  destruct (ContentScript.computed_value u e t) as [[[|c0 s]|]|] eqn:Ev;
    try discriminate;
    try (intros [= <- <-]; left; split; reflexivity).
  assert (Hc : has_case t = true)
    by (destruct t; try reflexivity; simpl in Ev; discriminate).
  destruct (str_eqb (ContentScript.tagName e) (js "SELECT")).
  - destruct (ContentScript.find_option _ _) as [o|].
    + intros [= <- <-]. right. exists (ContentScript.opt_value o), t.
      repeat split; assumption || reflexivity.
    + intros [= <- <-]. left. split; reflexivity.
  - destruct (set_value e (c0 :: s)) as [v|]; [|discriminate].
    intros [= <- <-]. right. exists v, t. repeat split; assumption || reflexivity.
Qed.

Lemma fill_each_rel set_value u :
  forall l n, Forall2 fill_rel l (fst (ContentScript.fill_each set_value u l n)).
Proof.
  induction l as [|e l IH]; intros n; [constructor|].
  simpl. destruct (ContentScript.automationAnalyzed e) eqn:Ha.
  - destruct (ContentScript.fill_one set_value u e) as [[e' c]|] eqn:E1.
    + specialize (IH (if c then S n else n)).
      destruct (ContentScript.fill_each set_value u l _) as [l' r].
      constructor; [|exact IH].
      apply fill_one_inv in E1 as [[-> _]|(v & t & -> & _ & Et & Hc)];
        [left; reflexivity|].
      right. split; [|eauto]. unfold fillable. rewrite Ha, Et. exact Hc.
    + apply Forall2_same. intros x. left. reflexivity.
  - specialize (IH n).
    destruct (ContentScript.fill_each set_value u l n) as [l' r].
    constructor; [left; reflexivity|exact IH].
Qed.

Lemma fill_each_count set_value u :
  forall l n m,
    snd (ContentScript.fill_each set_value u l n) = ContentScript.Normal m ->
    n <= m <= n + length (filter fillable l).
Proof.
  induction l as [|e l IH]; intros n m.
  - simpl. intros [= <-]. lia.
  - simpl. unfold fillable at 1.
    destruct (ContentScript.automationAnalyzed e) eqn:Ha.
    + destruct (ContentScript.fill_one set_value u e) as [[e' c]|] eqn:E1;
        [|discriminate].
      specialize (IH (if c then S n else n) m).
      destruct (ContentScript.fill_each set_value u l _) as [l' r].
      intros Hr. specialize (IH Hr).
      apply fill_one_inv in E1 as [[_ ->]|(v & t & _ & -> & Et & Hc)].
      * destruct (_ && _); simpl; lia.
      * rewrite Et, Hc. simpl. lia.
    + specialize (IH n m).
      destruct (ContentScript.fill_each set_value u l n) as [l' r].
      intros Hr. specialize (IH Hr). simpl. lia.
Qed.

(** When the loop returns, every analysed input went through its round. *)
Lemma fill_each_nth set_value u :
  forall l n l' m i e,
    ContentScript.fill_each set_value u l n = (l', ContentScript.Normal m) ->
    nth_error l i = Some e ->
    ContentScript.automationAnalyzed e = true ->
    exists e' c,
      ContentScript.fill_one set_value u e = ContentScript.Normal (e', c)
      /\ nth_error l' i = Some e' /\ (c = true -> n < m).
Proof.
  induction l as [|x l IH]; intros n l' m i e Hf Hi Ha; [destruct i; discriminate|].
  simpl in Hf. destruct i as [|i].
  - injection Hi as ->. rewrite Ha in Hf.
    destruct (ContentScript.fill_one set_value u e) as [[e' c]|]; [|discriminate].
    pose proof (fill_each_count set_value u l (if c then S n else n)) as Hc.
    destruct (ContentScript.fill_each set_value u l _) as [l'' r].
    injection Hf as <- ->. exists e', c. split; [reflexivity|].
    split; [reflexivity|]. intros ->. specialize (Hc m eq_refl). lia.
  - simpl in Hi. destruct (ContentScript.automationAnalyzed x).
    + destruct (ContentScript.fill_one set_value u x) as [[x' c]|]; [|discriminate].
      specialize (IH (if c then S n else n)).
      destruct (ContentScript.fill_each set_value u l _) as [l'' r].
      injection Hf as <- ->.
      destruct (IH l'' m i e eq_refl Hi Ha) as (e' & c' & H1 & H2 & H3).
      exists e', c'. split; [exact H1|]. split; [exact H2|].
      intros Hc. specialize (H3 Hc). destruct c; lia.
    + specialize (IH n).
      destruct (ContentScript.fill_each set_value u l n) as [l'' r].
      injection Hf as <- ->.
      destruct (IH l'' m i e eq_refl Hi Ha) as (e' & c' & H1 & H2 & H3).
      exists e', c'. split; [exact H1|]. split; [exact H2|exact H3].
Qed.

(** The loop over two stretches of inputs. *)
Lemma fill_each_app set_value u l2 :
  forall l1 n,
    ContentScript.fill_each set_value u (l1 ++ l2) n
    = match ContentScript.fill_each set_value u l1 n with
      | (l1', ContentScript.Normal m) =>
          let '(l2', r) := ContentScript.fill_each set_value u l2 m in
          (l1' ++ l2', r)
      | (l1', ContentScript.Abrupt) => (l1' ++ l2, ContentScript.Abrupt)
      end.
Proof.
  induction l1 as [|x l1 IH]; intros n.
  - simpl. destruct (ContentScript.fill_each set_value u l2 n). reflexivity.
  - simpl. destruct (ContentScript.automationAnalyzed x).
    + destruct (ContentScript.fill_one set_value u x) as [[x' c]|]; [|reflexivity].
      rewrite IH.
      destruct (ContentScript.fill_each set_value u l1 _) as [l1' [m|]].
      * destruct (ContentScript.fill_each set_value u l2 m). reflexivity.
      * reflexivity.
    + rewrite IH.
      destruct (ContentScript.fill_each set_value u l1 n) as [l1' [m|]].
      * destruct (ContentScript.fill_each set_value u l2 m). reflexivity.
      * reflexivity.
Qed.

Lemma flag_upload_keeps e :
  same_control e (ContentScript.flag_upload e)
  /\ ContentScript.el_value (ContentScript.flag_upload e) = ContentScript.el_value e
  /\ ContentScript.automationAnalyzed (ContentScript.flag_upload e)
     = ContentScript.automationAnalyzed e
  /\ ContentScript.fieldType (ContentScript.flag_upload e)
     = ContentScript.fieldType e.
Proof.
  unfold same_control, ContentScript.flag_upload.
  destruct (_ && _); repeat split; reflexivity.
Qed.

Lemma classify_each_rel :
  forall l, Forall2 classify_rel l (fst (ContentScript.classify_each l)).
Proof.
  induction l as [|e l IH]; [constructor|].
  simpl. destruct (ContentScript.classify_element e) as [t|] eqn:Et.
  - destruct (ContentScript.classify_each l) as [l' r]. simpl in *.
    constructor; [|exact IH].
    destruct t as [t|]; [right; eauto|left; reflexivity].
  - apply Forall2_same. intros x. left. reflexivity.
Qed.

Lemma classify_each_nth :
  forall l l' i e t,
    ContentScript.classify_each l = (l', ContentScript.Normal tt) ->
    nth_error l i = Some e ->
    ContentScript.classify_element e = ContentScript.Normal (Some t) ->
    nth_error l' i = Some (ContentScript.with_fieldType (Some t) e).
Proof.
  induction l as [|x l IH]; intros l' i e t Hc Hi He; [destruct i; discriminate|].
  simpl in Hc. destruct i as [|i].
  - injection Hi as ->. rewrite He in Hc.
    destruct (ContentScript.classify_each l) as [l'' r].
    injection Hc as <- _. reflexivity.
  - simpl in Hi.
    destruct (ContentScript.classify_element x) as [tx|]; [|discriminate].
    destruct (ContentScript.classify_each l) as [l'' r] eqn:El.
    injection Hc as <- ->. simpl. apply (IH l'' i e t eq_refl Hi He).
Qed.

Lemma classify_element_marked e :
  ContentScript.classify_element (ContentScript.mark_analyzed e)
  = ContentScript.classify_element e.
Proof. reflexivity. Qed.

Lemma analyzePage_inputs d :
  ContentScript.inputs (fst (ContentScript.analyzePage d))
  = fst (ContentScript.classify_each (map (marking d) (ContentScript.inputs d)))
  /\ ContentScript.forms (fst (ContentScript.analyzePage d)) = ContentScript.forms d
  /\ (snd (ContentScript.analyzePage d) <> ContentScript.AnalyzeError ->
      snd (ContentScript.classify_each (map (marking d) (ContentScript.inputs d)))
      = ContentScript.Normal tt).
Proof.
  unfold ContentScript.analyzePage, ContentScript.createFormMappings. cbv zeta.
  cbn [ContentScript.inputs ContentScript.forms].
  replace (if 0 <? ContentScript.forms d
           then map (fun e => if 0 <? ContentScript.formAncestors e
                              then ContentScript.mark_analyzed e else e)
                    (ContentScript.inputs d)
           else map ContentScript.mark_analyzed (ContentScript.inputs d))
    with (map (marking d) (ContentScript.inputs d)).
  2:{ unfold marking. destruct (0 <? ContentScript.forms d); reflexivity. }
  destruct (ContentScript.classify_each _) as [l [[]|]]; simpl;
    repeat split; try reflexivity. intros H. contradiction.
Qed.

Lemma autofill_inputs set_value u d :
  ContentScript.forms (fst (ContentScript.autoFillApplication set_value u d))
  = ContentScript.forms d
  /\ Forall2 (fun e e' => same_control e e'
                /\ ContentScript.automationAnalyzed e'
                   = ContentScript.automationAnalyzed e
                /\ ContentScript.fieldType e' = ContentScript.fieldType e
                /\ (fillable e = false ->
                    ContentScript.el_value e' = ContentScript.el_value e))
             (ContentScript.inputs d)
             (ContentScript.inputs
                (fst (ContentScript.autoFillApplication set_value u d))).
Proof.
  unfold ContentScript.autoFillApplication.
  pose proof (fill_each_rel set_value u (ContentScript.inputs d) 0) as H.
  assert (Hk : forall e e', fill_rel e e' ->
             same_control e e'
             /\ ContentScript.automationAnalyzed e'
                = ContentScript.automationAnalyzed e
             /\ ContentScript.fieldType e' = ContentScript.fieldType e
             /\ (fillable e = false ->
                 ContentScript.el_value e' = ContentScript.el_value e)).
  { intros e e' [->|(Hf & v & ->)].
    - unfold same_control. repeat split; reflexivity.
    - unfold same_control. repeat split; try reflexivity. congruence. }
  destruct (ContentScript.fill_each set_value u (ContentScript.inputs d) 0)
    as [l [m|]]; simpl in *; (split; [reflexivity|]).
  - induction H as [|e e' l0 l0' He _ IH]; simpl; constructor; [|exact IH].
    apply Hk in He as ((H1 & H2 & H3 & H4 & H5) & H6 & H7 & H8).
    destruct (flag_upload_keeps e') as ((G1 & G2 & G3 & G4 & G5) & G6 & G7 & G8).
    unfold same_control. repeat split; try congruence.
    intros Hf. rewrite G6. apply H8. exact Hf.
  - induction H as [|e e' l0 l0' He _ IH]; constructor; [|exact IH].
    apply Hk. exact He.
Qed.

Lemma marking_marking d e : marking d (marking d e) = marking d e.
Proof.
  unfold marking. destruct (0 <? ContentScript.forms d); [|reflexivity].
  destruct (0 <? ContentScript.formAncestors e) eqn:E; [|rewrite E; reflexivity].
  simpl. rewrite E. reflexivity.
Qed.

Lemma marking_typed d t e :
  marking d (ContentScript.with_fieldType t (marking d e))
  = ContentScript.with_fieldType t (marking d e).
Proof.
  unfold marking. destruct (0 <? ContentScript.forms d); [|reflexivity].
  destruct (0 <? ContentScript.formAncestors e) eqn:E; simpl; rewrite E;
    reflexivity.
Qed.

Lemma classify_element_marking d e :
  ContentScript.classify_element (marking d e) = ContentScript.classify_element e.
Proof.
  unfold marking. destruct (0 <? ContentScript.forms d); [|reflexivity].
  destruct (0 <? ContentScript.formAncestors e); reflexivity.
Qed.

Lemma classify_each_again d :
  forall l,
    ContentScript.classify_each
      (map (marking d) (fst (ContentScript.classify_each (map (marking d) l))))
    = ContentScript.classify_each (map (marking d) l).
Proof.
  induction l as [|e l IH]; [reflexivity|].
  simpl. destruct (ContentScript.classify_element (marking d e)) as [t|] eqn:Et.
  - destruct (ContentScript.classify_each (map (marking d) l)) as [l' r] eqn:El.
    simpl in *. destruct t as [t|].
    + rewrite marking_typed.
      change (ContentScript.classify_element
                (ContentScript.with_fieldType (Some t) (marking d e)))
        with (ContentScript.classify_element (marking d e)).
      rewrite Et, IH. reflexivity.
    + rewrite marking_marking, Et, IH. reflexivity.
  - simpl. rewrite marking_marking, Et. f_equal. f_equal.
    rewrite map_map. apply map_ext. intros x. apply marking_marking.
Qed.

(** X19. Autofill touches nothing but the value and the highlight of the
    inputs it may fill.  Whatever the profile and the browser's setter, and
    whether the call returns or fails: the page keeps its forms and its
    inputs, in their order, each with its tag, attributes, options and
    analysis marks; an input that was not analysed, or that has no type, or
    whose type is city, state or zip (types the analysis gives but the fill
    has no case for) keeps its value; and the count returned is at most the
    number of analysed inputs with a type that has a case. *)
Theorem autofill_touches_only_fillable_inputs
        (set_value : ContentScript.Element -> jsstring
                     -> ContentScript.completion jsstring)
        (userData : ContentScript.Profile) (d : ContentScript.Document) :
  let result := ContentScript.autoFillApplication set_value userData d in
  ContentScript.forms (fst result) = ContentScript.forms d
  /\ Forall2 (fun e e' =>
                same_control e e'
                /\ ContentScript.automationAnalyzed e'
                   = ContentScript.automationAnalyzed e
                /\ ContentScript.fieldType e' = ContentScript.fieldType e
                /\ (fillable e = false ->
                    ContentScript.el_value e' = ContentScript.el_value e))
             (ContentScript.inputs d) (ContentScript.inputs (fst result))
  /\ forall n, snd result = ContentScript.Filled n ->
               n <= length (filter fillable (ContentScript.inputs d)).
Proof.
  cbv zeta. destruct (autofill_inputs set_value userData d) as (H1 & H2).
  split; [exact H1|]. split; [exact H2|].
  intros n. unfold ContentScript.autoFillApplication.
  pose proof (fill_each_count set_value userData (ContentScript.inputs d) 0) as Hc.
  destruct (ContentScript.fill_each set_value userData (ContentScript.inputs d) 0)
    as [l [m|]]; simpl; [|discriminate].
  intros [= <-]. specialize (Hc m eq_refl). lia.
Qed.

(** X20. A fill that fails part-way is not undone.  When the setter refuses
    the value of an analysed input (as a browser does for a file input whose
    name made the analysis take it for a name field), the call reports a
    failure; the inputs before it stay as the loop filled them; that input
    and every later one are left as they were; and no upload field is
    highlighted, the second loop never being reached. *)
Theorem failed_fill_keeps_earlier_fills
        (set_value : ContentScript.Element -> jsstring
                     -> ContentScript.completion jsstring)
        (userData : ContentScript.Profile) (f : nat)
        (l1 l1' l2 : list ContentScript.Element) (n : nat)
        (e : ContentScript.Element) (t : ContentScript.FieldType)
        (v : jsstring) :
  ContentScript.fill_each set_value userData l1 0 = (l1', ContentScript.Normal n) ->
  ContentScript.automationAnalyzed e = true ->
  ContentScript.fieldType e = Some t ->
  ContentScript.computed_value userData e t = ContentScript.Normal (Some v) ->
  v <> [] ->
  str_eqb (ContentScript.tagName e) (js "SELECT") = false ->
  set_value e v = ContentScript.Abrupt ->
  ContentScript.autoFillApplication
    set_value userData
    {| ContentScript.forms := f; ContentScript.inputs := l1 ++ e :: l2 |}
  = ({| ContentScript.forms := f; ContentScript.inputs := l1' ++ e :: l2 |},
     ContentScript.AutofillError).
Proof.
  intros H1 Ha Ht Hv Hne Hs Hset.
  unfold ContentScript.autoFillApplication. cbn [ContentScript.inputs ContentScript.forms].
  rewrite fill_each_app, H1. simpl. rewrite Ha.
  unfold ContentScript.fill_one. rewrite Ht, Hv.
  destruct v as [|c s]; [contradiction|]. rewrite Hs, Hset. reflexivity.
Qed.

Lemma failed_fill_keeps_earlier_fills_witness :
  let page :=
    {| ContentScript.forms := 0;
       ContentScript.inputs :=
         [analysed_as ContentScript.emailField email_input;
          analysed_as ContentScript.fullNameField resume_upload;
          analysed_as ContentScript.firstName first_name_email_input] |} in
  ContentScript.autoFillApplication sample_set_value jane page
  = ({| ContentScript.forms := 0;
        ContentScript.inputs :=
          [ContentScript.filled (js "jane@example.com")
             (analysed_as ContentScript.emailField email_input);
           analysed_as ContentScript.fullNameField resume_upload;
           analysed_as ContentScript.firstName first_name_email_input] |},
     ContentScript.AutofillError).
Proof.
  apply (failed_fill_keeps_earlier_fills
           sample_set_value jane 0
           [analysed_as ContentScript.emailField email_input]
           [ContentScript.filled (js "jane@example.com")
              (analysed_as ContentScript.emailField email_input)]
           [analysed_as ContentScript.firstName first_name_email_input] 1
           (analysed_as ContentScript.fullNameField resume_upload)
           ContentScript.fullNameField (js "Jane Doe"));
    try reflexivity.
  discriminate.
Defined.

(** X21. Analysis followed by autofill fills what the analysis recognised.
    Take an input of the page that the analysis marks (the page has no form,
    or the input is inside one), that is not a select, to which the
    classification gives type [t], and for which the profile yields the value
    [v], not empty.  If both calls report success, the input ends up holding
    what the browser's setter made of [v], and the count returned is not 0. *)
Theorem classified_input_is_filled
        (set_value : ContentScript.Element -> jsstring
                     -> ContentScript.completion jsstring)
        (userData : ContentScript.Profile) (d : ContentScript.Document)
        (i : nat) (e : ContentScript.Element) (t : ContentScript.FieldType)
        (v : jsstring) :
  nth_error (ContentScript.inputs d) i = Some e ->
  ContentScript.forms d = 0 \/ 0 < ContentScript.formAncestors e ->
  ContentScript.classify_element e = ContentScript.Normal (Some t) ->
  str_eqb (ContentScript.tagName e) (js "SELECT") = false ->
  ContentScript.computed_value userData (analysed_as t e) t
  = ContentScript.Normal (Some v) ->
  v <> [] ->
  let analysis := ContentScript.analyzePage d in
  let fill := ContentScript.autoFillApplication set_value userData (fst analysis) in
  snd analysis <> ContentScript.AnalyzeError ->
  snd fill <> ContentScript.AutofillError ->
  exists w e' n,
    set_value (analysed_as t e) v = ContentScript.Normal w
    /\ nth_error (ContentScript.inputs (fst fill)) i = Some e'
    /\ ContentScript.el_value e' = w
    /\ snd fill = ContentScript.Filled n /\ 0 < n.
Proof.
  intros Hi Hm Ht Hs Hv Hne. cbv zeta. intros Ha Hf.
  destruct (analyzePage_inputs d) as (Hin & _ & Hr). specialize (Hr Ha).
  assert (Hmark : marking d e = ContentScript.mark_analyzed e).
  { unfold marking. destruct Hm as [->|Hm]; [reflexivity|].
    destruct (0 <? ContentScript.forms d); [|reflexivity].
    apply Nat.ltb_lt in Hm. rewrite Hm. reflexivity. }
  assert (H1 : nth_error (ContentScript.inputs (fst (ContentScript.analyzePage d))) i
               = Some (analysed_as t e)).
  { rewrite Hin.
    destruct (ContentScript.classify_each
                (map (marking d) (ContentScript.inputs d))) as [l r] eqn:El.
    simpl in Hr. subst r. simpl.
    apply (classify_each_nth _ l i (ContentScript.mark_analyzed e) t El).
    - rewrite nth_error_map, Hi. simpl. rewrite Hmark. reflexivity.
    - exact Ht. }
  revert Hf. unfold ContentScript.autoFillApplication.
  destruct (ContentScript.fill_each
              set_value userData
              (ContentScript.inputs (fst (ContentScript.analyzePage d))) 0)
    as [l [m|]] eqn:Ef; simpl; [intros _|intros H; contradiction].
  destruct (fill_each_nth set_value userData _ 0 l m i (analysed_as t e) Ef H1
                          eq_refl) as (e' & c & Hone & Hnth & Hc).
  revert Hone. unfold ContentScript.fill_one.
  change (ContentScript.fieldType (analysed_as t e)) with (Some t).
  cbv iota beta. rewrite Hv. destruct v as [|c0 s]; [contradiction|].
  change (ContentScript.tagName (analysed_as t e)) with (ContentScript.tagName e).
  rewrite Hs.
  destruct (set_value (analysed_as t e) (c0 :: s)) as [w|]; [|discriminate].
  intros [= <- <-]. exists w, (ContentScript.flag_upload
                                 (ContentScript.filled w (analysed_as t e))), m.
  split; [reflexivity|]. split; [rewrite nth_error_map, Hnth; reflexivity|].
  split; [apply flag_upload_keeps|]. split; [reflexivity|]. apply Hc. reflexivity.
Qed.

Lemma classified_input_is_filled_witness :
  let page :=
    {| ContentScript.forms := 0;
       ContentScript.inputs := [first_name_email_input; email_input] |} in
  let analysis := ContentScript.analyzePage page in
  let fill := ContentScript.autoFillApplication sample_set_value jane
                                                (fst analysis) in
  snd analysis = ContentScript.Analyzed 2
  /\ snd fill = ContentScript.Filled 2
  /\ exists w e' n,
       sample_set_value (analysed_as ContentScript.emailField email_input)
                        (js "jane@example.com") = ContentScript.Normal w
       /\ nth_error (ContentScript.inputs (fst fill)) 1 = Some e'
       /\ ContentScript.el_value e' = w
       /\ snd fill = ContentScript.Filled n /\ 0 < n.
Proof.
  cbv zeta. split; [reflexivity|]. split; [reflexivity|].
  apply (classified_input_is_filled
           sample_set_value jane
           {| ContentScript.forms := 0;
              ContentScript.inputs := [first_name_email_input; email_input] |}
           1 email_input ContentScript.emailField (js "jane@example.com"));
    try reflexivity; try discriminate.
  left; reflexivity.
Defined.

(** X22. On a page that has a form, an input outside every form is never
    filled.  If it was not marked before, the analysis does not mark it, and
    the autofill that follows leaves its value as it was, whatever the
    profile and whatever the input is called. *)
Theorem inputs_outside_forms_are_never_filled
        (set_value : ContentScript.Element -> jsstring
                     -> ContentScript.completion jsstring)
        (userData : ContentScript.Profile) (d : ContentScript.Document)
        (i : nat) (e : ContentScript.Element) :
  0 < ContentScript.forms d ->
  nth_error (ContentScript.inputs d) i = Some e ->
  ContentScript.formAncestors e = 0 ->
  ContentScript.automationAnalyzed e = false ->
  let analysis := ContentScript.analyzePage d in
  let fill := ContentScript.autoFillApplication set_value userData (fst analysis) in
  exists e',
    nth_error (ContentScript.inputs (fst fill)) i = Some e'
    /\ ContentScript.el_value e' = ContentScript.el_value e
    /\ ContentScript.automationAnalyzed e' = false.
Proof.
  intros Hforms Hi Hanc Hna. cbv zeta.
  destruct (analyzePage_inputs d) as (Hin & _ & _).
  pose proof (classify_each_rel (map (marking d) (ContentScript.inputs d))) as Hc.
  rewrite <- Hin in Hc.
  assert (Hm : marking d e = e).
  { unfold marking. apply Nat.ltb_lt in Hforms. rewrite Hforms, Hanc. reflexivity. }
  destruct (Forall2_nth_error _ _ _ Hc i e) as (e1 & H1 & R1).
  { rewrite nth_error_map, Hi. simpl. rewrite Hm. reflexivity. }
  assert (K : ContentScript.el_value e1 = ContentScript.el_value e
              /\ ContentScript.automationAnalyzed e1 = false).
  { destruct R1 as [->|(t & _ & ->)]; split; try reflexivity; exact Hna. }
  destruct K as (K1 & K2).
  destruct (autofill_inputs set_value userData (fst (ContentScript.analyzePage d)))
    as (_ & Hf).
  destruct (Forall2_nth_error _ _ _ Hf i e1 H1) as (e2 & H2 & _ & G1 & _ & G2).
  exists e2. split; [exact H2|]. split.
  - rewrite G2; [exact K1|]. unfold fillable. rewrite K2. reflexivity.
  - rewrite G1. exact K2.
Qed.

Lemma inputs_outside_forms_are_never_filled_witness :
  let page :=
    {| ContentScript.forms := 1; ContentScript.inputs := [email_input] |} in
  let analysis := ContentScript.analyzePage page in
  let fill := ContentScript.autoFillApplication sample_set_value jane
                                                (fst analysis) in
  snd fill = ContentScript.Filled 0
  /\ exists e',
       nth_error (ContentScript.inputs (fst fill)) 0 = Some e'
       /\ ContentScript.el_value e' = ContentScript.el_value email_input
       /\ ContentScript.automationAnalyzed e' = false.
Proof.
  cbv zeta. split; [reflexivity|].
  apply (inputs_outside_forms_are_never_filled
           sample_set_value jane
           {| ContentScript.forms := 1; ContentScript.inputs := [email_input] |}
           0 email_input); try reflexivity. simpl. lia.
Defined.

(** X23. The analysis only adds marks.  Whether it returns or fails, the page
    keeps its forms and its inputs, in their order, each with its tag,
    attributes, options, value and highlight.  Every input the analysis
    counts (any input when the page has no form, else the inputs inside a
    form) is marked as analysed, also when the classification fails
    afterwards; no mark is removed; and an input that had a type still has
    one.  Analysing the page a second time changes nothing and gives the
    same answer. *)
Theorem analysis_only_adds_marks (d : ContentScript.Document) :
  let d' := fst (ContentScript.analyzePage d) in
  ContentScript.forms d' = ContentScript.forms d
  /\ Forall2 (fun e e' =>
                same_control e e'
                /\ ContentScript.el_value e' = ContentScript.el_value e
                /\ ContentScript.highlighted e' = ContentScript.highlighted e
                /\ (ContentScript.forms d = 0 \/ 0 < ContentScript.formAncestors e
                    \/ ContentScript.automationAnalyzed e = true ->
                    ContentScript.automationAnalyzed e' = true)
                /\ (forall t, ContentScript.fieldType e = Some t ->
                              exists t', ContentScript.fieldType e' = Some t'))
             (ContentScript.inputs d) (ContentScript.inputs d')
  /\ ContentScript.analyzePage d' = ContentScript.analyzePage d.
Proof.
  cbv zeta. destruct (analyzePage_inputs d) as (Hin & Hforms & _).
  split; [exact Hforms|]. split.
  - rewrite Hin.
    pose proof (classify_each_rel (map (marking d) (ContentScript.inputs d))) as Hc.
    remember (fst (ContentScript.classify_each
                     (map (marking d) (ContentScript.inputs d)))) as l' eqn:E.
    clear E Hin. remember (map (marking d) (ContentScript.inputs d)) as l0 eqn:E0.
    revert l' Hc. generalize dependent l0.
    induction (ContentScript.inputs d) as [|e l IH]; intros l0 E0 l' Hc.
    + subst l0. inversion Hc. constructor.
    + subst l0. simpl in Hc. inversion Hc as [|x y lx ly Hxy Hrest]; subst.
      constructor; [|apply (IH _ eq_refl _ Hrest)].
      assert (Hm : same_control e (marking d e)
                   /\ ContentScript.el_value (marking d e) = ContentScript.el_value e
                   /\ ContentScript.highlighted (marking d e)
                      = ContentScript.highlighted e
                   /\ (ContentScript.forms d = 0
                       \/ 0 < ContentScript.formAncestors e
                       \/ ContentScript.automationAnalyzed e = true ->
                       ContentScript.automationAnalyzed (marking d e) = true)
                   /\ ContentScript.fieldType (marking d e)
                      = ContentScript.fieldType e).
      { unfold marking, same_control.
        destruct (0 <? ContentScript.forms d) eqn:Ef;
          [destruct (0 <? ContentScript.formAncestors e) eqn:Ea|];
          repeat split; try reflexivity.
        intros [H|[H|H]]; [apply Nat.ltb_lt in Ef; lia
                          |apply Nat.ltb_ge in Ea; lia|exact H]. }
      destruct Hm as ((M1 & M2 & M3 & M4 & M5) & M6 & M7 & M8 & M9).
      destruct Hxy as [->|(t & _ & ->)]; unfold same_control; simpl;
        repeat split; try assumption.
      * intros t Ht. exists t. congruence.
      * intros t0 _. exists t. reflexivity.
  - unfold ContentScript.analyzePage at 1 3.
    unfold ContentScript.createFormMappings. cbv zeta.
    cbn [ContentScript.inputs ContentScript.forms].
    rewrite Hforms.
    replace (if 0 <? ContentScript.forms d
             then map (fun e => if 0 <? ContentScript.formAncestors e
                                then ContentScript.mark_analyzed e else e)
                      (ContentScript.inputs (fst (ContentScript.analyzePage d)))
             else map ContentScript.mark_analyzed
                      (ContentScript.inputs (fst (ContentScript.analyzePage d))))
      with (map (marking d)
                (ContentScript.inputs (fst (ContentScript.analyzePage d))))
      by (unfold marking; destruct (0 <? ContentScript.forms d); reflexivity).
    replace (if 0 <? ContentScript.forms d
             then map (fun e => if 0 <? ContentScript.formAncestors e
                                then ContentScript.mark_analyzed e else e)
                      (ContentScript.inputs d)
             else map ContentScript.mark_analyzed (ContentScript.inputs d))
      with (map (marking d) (ContentScript.inputs d))
      by (unfold marking; destruct (0 <? ContentScript.forms d); reflexivity).
    rewrite Hin, classify_each_again.
    pose proof (classify_each_rel (map (marking d) (ContentScript.inputs d))) as Hc.
    destruct (ContentScript.classify_each
                (map (marking d) (ContentScript.inputs d))) as [l r].
    simpl in Hc |- *.
    assert (Hsum : list_sum (map ContentScript.formAncestors l)
                   = list_sum (map ContentScript.formAncestors
                                   (ContentScript.inputs d))
                   /\ length l = length (ContentScript.inputs d)).
    { clear -Hc. remember (map (marking d) (ContentScript.inputs d)) as l0 eqn:E0.
      revert l Hc. generalize dependent l0.
      induction (ContentScript.inputs d) as [|e l1 IH]; intros l0 E0 l Hc.
      - subst l0. inversion Hc. split; reflexivity.
      - subst l0. simpl in Hc. inversion Hc as [|x y lx ly Hxy Hrest]; subst.
        destruct (IH _ eq_refl _ Hrest) as (I1 & I2). simpl. rewrite I1, I2.
        split; [|reflexivity]. f_equal.
        assert (Hm : ContentScript.formAncestors (marking d e)
                     = ContentScript.formAncestors e).
        { unfold marking. destruct (0 <? ContentScript.forms d);
            [destruct (0 <? ContentScript.formAncestors e)|]; reflexivity. }
        destruct Hxy as [->|(t & _ & ->)]; exact Hm. }
    destruct Hsum as (-> & ->). reflexivity.
Qed.
